(** * dwv image model: traversal primitives, slice planners and the Image class

    A shallow embedding of [src/image/iterator.js] and [src/image/image.js].

    Conventions of the embedding:
    - buffer offsets, sizes, counters and increments are integers ([Z]);
    - sample values and rescale slopes/intercepts are JavaScript numbers,
      idealised as exact rationals ([Qc]); rounding, infinities and signed
      zero are outside the model;
    - a read that JavaScript answers with [undefined] or [NaN] is a [jsval];
    - image buffers are integer typed arrays: the store keeps the element
      kind of every array, and what is assigned to an element is converted
      to that kind (wrapped modulo [2 ^ bits], 0 for [NaN]);
    - objects that the code shares by reference (buffers, geometries, UID
      arrays, meta objects, images) live in an explicit [Store];
    - a pull of an iterator returns, next to its result and the new closure
      state, the list of offsets it passed to the data accessor. *)

From Stdlib Require Import ZArith QArith Qcanon Qround Lia String.
From stdpp Require Import gmap strings list fin_maps numbers.

Local Open Scope Z_scope.

(** ** iterator.js *)

Module Iterator.

Section primitives.
Context {A : Type}.
Variable dataAccessor : Z → A.

(** What [next()] returns: [{value, done: false}], [{done: true, index}],
    or a [TypeError] raised while evaluating the body. *)
Inductive iterResult :=
| Yield (value : A)
| Yield3 (value0 value1 value2 : A)
| Done (index : Z)
| Done3 (index : list Z)
| TypeError.

(** Closure variables of [dwv.image.simpleRange]. *)
Record simpleRangeState := SimpleRangeState {
  sr_end : Z;
  sr_increment : Z;
  sr_nextIndex : Z
}.

(** Closure variables of [dwv.image.range]; [testIndex] is determined by
    [reverse1]. *)
Record rangeState := RangeState {
  r_start : Z;
  r_end : Z;
  r_increment : Z;
  r_countMax : Z;
  r_finalCountIncrement : Z;
  r_reverse1 : bool;
  r_nextIndex : Z;
  r_count : Z
}.

(** Closure variables of [dwv.image.rangeRegion]. *)
Record rangeRegionState := RangeRegionState {
  rr_end : Z;
  rr_increment : Z;
  rr_regionSize : Z;
  rr_regionOffset : Z;
  rr_nextIndex : Z;
  rr_regionElementCount : Z
}.

(** Closure variables of [dwv.image.rangeRegions]; a region is
    [[off0, size, off1]]. *)
Record rangeRegionsState := RangeRegionsState {
  rs_end : Z;
  rs_increment : Z;
  rs_regions : list (Z * Z * Z);
  rs_nextIndex : Z;
  rs_regionCount : nat;
  rs_regionElementCount : Z
}.

(** Closure variables of [dwv.image.range3d]. *)
Record range3dState := Range3dState {
  r3_end : Z;
  r3_increment : Z;
  r3_nextIndex : Z;
  r3_nextIndex1 : Z;
  r3_nextIndex2 : Z
}.

Inductive iterator :=
| ItSimpleRange (s : simpleRangeState)
| ItRange (s : rangeState)
| ItRangeRegion (s : rangeRegionState)
| ItRangeRegions (s : rangeRegionsState)
| ItRange3d (s : range3dState).

(** One pull: the offsets handed to [dataAccessor] (in call order), the
    returned object and the closure state afterwards. *)
Record pull := Pull {
  calls : list Z;
  result : iterResult;
  after : iterator
}.

(** [dwv.image.simpleRange(dataAccessor, start, end, increment)] *)
Definition simpleRange (start end_ : Z) (increment : option Z) : iterator :=
  let increment := match increment with None => 1 | Some i => i end in
  ItSimpleRange (SimpleRangeState end_ increment start).

Definition simpleRange_next (s : simpleRangeState) : pull :=
  let nextIndex := sr_nextIndex s in
  if nextIndex <? sr_end s then
    Pull [nextIndex] (Yield (dataAccessor nextIndex))
      (ItSimpleRange
         (SimpleRangeState (sr_end s) (sr_increment s)
            (nextIndex + sr_increment s)))
  else Pull [] (Done (sr_end s)) (ItSimpleRange s).

(** [dwv.image.range(dataAccessor, start, end, increment, countMax,
    countIncrement, reverse1, reverse2)] *)
Definition range (start end_ increment countMax countIncrement : Z)
    (reverse1 reverse2 : option bool) : iterator :=
  let reverse1 := default false reverse1 in
  let reverse2 := default false reverse2 in
  let '(nextIndex, countIncrement, increment) :=
    if reverse1 then
      let nextIndex := end_ in
      let countIncrement := countIncrement * -1 in
      if reverse2 then
        (nextIndex - (countMax - 1) * increment, countIncrement, increment)
      else
        (nextIndex, countIncrement, increment * -1)
    else
      let nextIndex := start in
      if reverse2 then
        (nextIndex + (countMax - 1) * increment, countIncrement,
         increment * -1)
      else
        (nextIndex, countIncrement, increment) in
  let finalCountIncrement := countIncrement - countMax * increment in
  ItRange (RangeState start end_ increment countMax finalCountIncrement
             reverse1 nextIndex 0).

Definition testIndex (s : rangeState) (i : Z) : bool :=
  if r_reverse1 s then r_start s <=? i else i <=? r_end s.

Definition range_next (s : rangeState) : pull :=
  let nextIndex := r_nextIndex s in
  if testIndex s nextIndex then
    let nextIndex' := nextIndex + r_increment s in
    let count := r_count s + 1 in
    let '(count, nextIndex') :=
      if count =? r_countMax s
      then (0, nextIndex' + r_finalCountIncrement s)
      else (count, nextIndex') in
    Pull [nextIndex] (Yield (dataAccessor nextIndex))
      (ItRange
         (RangeState (r_start s) (r_end s) (r_increment s) (r_countMax s)
            (r_finalCountIncrement s) (r_reverse1 s) nextIndex' count))
  else Pull [] (Done (r_end s)) (ItRange s).

(** [dwv.image.rangeRegion(dataAccessor, start, end, increment,
    regionSize, regionOffset)] *)
Definition rangeRegion
    (start end_ increment regionSize regionOffset : Z) : iterator :=
  ItRangeRegion
    (RangeRegionState end_ increment regionSize regionOffset start 0).

Definition rangeRegion_next (s : rangeRegionState) : pull :=
  let nextIndex := rr_nextIndex s in
  if nextIndex <? rr_end s then
    let regionElementCount := rr_regionElementCount s + 1 in
    let nextIndex' := nextIndex + rr_increment s in
    let '(regionElementCount, nextIndex') :=
      if regionElementCount =? rr_regionSize s
      then (0, nextIndex' + rr_regionOffset s)
      else (regionElementCount, nextIndex') in
    Pull [nextIndex] (Yield (dataAccessor nextIndex))
      (ItRangeRegion
         (RangeRegionState (rr_end s) (rr_increment s) (rr_regionSize s)
            (rr_regionOffset s) nextIndex' regionElementCount))
  else Pull [] (Done (rr_end s)) (ItRangeRegion s).

(** [dwv.image.rangeRegions(dataAccessor, start, end, increment, regions)].
    Reading [regions[regionCount][1]] past the end of [regions] raises a
    [TypeError]; the assignments made before it persist. *)
Definition rangeRegions
    (start end_ increment : Z) (regions : list (Z * Z * Z)) : iterator :=
  ItRangeRegions (RangeRegionsState end_ increment regions start 0%nat 0).

Definition rangeRegions_next (s : rangeRegionsState) : pull :=
  let nextIndex := rs_nextIndex s in
  let regions := rs_regions s in
  let regionCount := rs_regionCount s in
  let mk := RangeRegionsState (rs_end s) (rs_increment s) regions in
  if nextIndex <? rs_end s then
    let regionElementCount := rs_regionElementCount s + 1 in
    let nextIndex' := nextIndex + rs_increment s in
    match regions !! regionCount with
    | None =>
        Pull [nextIndex] TypeError
          (ItRangeRegions (mk nextIndex' regionCount regionElementCount))
    | Some (_, size, off1) =>
        if regionElementCount =? size then
          let nextIndex' := nextIndex' + off1 in
          let regionCount := S regionCount in
          let nextIndex' :=
            match regions !! regionCount with
            | Some (off0, _, _) => nextIndex' + off0
            | None => nextIndex'
            end in
          Pull [nextIndex] (Yield (dataAccessor nextIndex))
            (ItRangeRegions (mk nextIndex' regionCount 0))
        else
          Pull [nextIndex] (Yield (dataAccessor nextIndex))
            (ItRangeRegions (mk nextIndex' regionCount regionElementCount))
    end
  else Pull [] (Done (rs_end s)) (ItRangeRegions s).

(** [dwv.image.range3d(dataAccessor, start, end, increment, isPlanar)].
    The planar component stride [(end - start) / 3] is a floating point
    quotient in the source; its doc comment requires [end - start] to be a
    multiple of 3, where it is the integer quotient used here. *)
Definition range3d (start end_ : Z) (increment : option Z)
    (isPlanar : option bool) : iterator :=
  let increment := default 1 increment in
  let isPlanar := default false isPlanar in
  let nextIndex := start in
  let '(componentIncrement, increment) :=
    if isPlanar then ((end_ - start) / 3, increment)
    else (1, increment * 3) in
  let nextIndex1 := nextIndex + componentIncrement in
  let nextIndex2 := nextIndex + 2 * componentIncrement in
  ItRange3d (Range3dState end_ increment nextIndex nextIndex1 nextIndex2).

Definition range3d_next (s : range3dState) : pull :=
  let nextIndex := r3_nextIndex s in
  let nextIndex1 := r3_nextIndex1 s in
  let nextIndex2 := r3_nextIndex2 s in
  if nextIndex <? r3_end s then
    Pull [nextIndex; nextIndex1; nextIndex2]
      (Yield3 (dataAccessor nextIndex) (dataAccessor nextIndex1)
         (dataAccessor nextIndex2))
      (ItRange3d
         (Range3dState (r3_end s) (r3_increment s)
            (nextIndex + r3_increment s) (nextIndex1 + r3_increment s)
            (nextIndex2 + r3_increment s)))
  else Pull [] (Done3 [r3_end s]) (ItRange3d s).

(** [iterator.next()] *)
Definition next (it : iterator) : pull :=
  match it with
  | ItSimpleRange s => simpleRange_next s
  | ItRange s => range_next s
  | ItRangeRegion s => rangeRegion_next s
  | ItRangeRegions s => rangeRegions_next s
  | ItRange3d s => range3d_next s
  end.

Definition isDone (r : iterResult) : bool :=
  match r with Done _ | Done3 _ => true | _ => false end.

(** The first [n] pulls of an iterator. *)
Fixpoint pulls (n : nat) (it : iterator) : list pull :=
  match n with
  | O => []
  | S n => let p := next it in p :: pulls n (after p)
  end.

(** [dwv.image.getIteratorValues(iterator)]: the [while (!ival.done)] loop
    with an iteration budget; [None] when the budget is exhausted or a pull
    throws. *)
Fixpoint getIteratorValues (fuel : nat) (it : iterator)
    : option (list iterResult) :=
  match fuel with
  | O => None
  | S fuel =>
      let ival := next it in
      match result ival with
      | Done _ | Done3 _ => Some []
      | TypeError => None
      | v => cons v <$> getIteratorValues fuel (after ival)
      end
  end.

(** Offsets visited while draining, under the same budget. *)
Fixpoint visitedOffsets (fuel : nat) (it : iterator) : option (list Z) :=
  match fuel with
  | O => None
  | S fuel =>
      let ival := next it in
      match result ival with
      | Done _ | Done3 _ => Some (calls ival)
      | TypeError => None
      | _ => app (calls ival) <$> visitedOffsets fuel (after ival)
      end
  end.

End primitives.

End Iterator.

(** ** JavaScript values used by the image code *)

Module JS.

(** A value read from a buffer or produced by arithmetic on it. *)
Inductive jsval :=
| JNum (q : Qc)
| JNaN
| JUndefined.

#[global] Instance jsval_eq_dec : EqDecision jsval.
Proof. solve_decision. Defined.

#[global] Instance jsval_countable : Countable jsval.
Proof.
  refine (inj_countable'
    (λ v, match v with
          | JNum q => inl q | JNaN => inr true | JUndefined => inr false
          end)
    (λ s, match s with
          | inl q => JNum q | inr true => JNaN | inr false => JUndefined
          end) _).
  by intros [].
Defined.

(** [a > b] and friends: both sides go through [ToNumber]; a comparison
    with [NaN] is [false]. *)
Definition js_lt (a b : jsval) : bool :=
  match a, b with
  | JNum x, JNum y => bool_decide (x < y)%Qc
  | _, _ => false
  end.

Definition js_gt (a b : jsval) : bool := js_lt b a.

Definition js_le (a b : jsval) : bool :=
  match a, b with
  | JNum x, JNum y => bool_decide (x ≤ y)%Qc
  | _, _ => false
  end.

Definition js_ge (a b : jsval) : bool := js_le b a.

(** [a * b], [a + b] on numbers. *)
Definition js_mul (a b : jsval) : jsval :=
  match a, b with
  | JNum x, JNum y => JNum (x * y)%Qc
  | _, _ => JNaN
  end.

Definition js_add (a b : jsval) : jsval :=
  match a, b with
  | JNum x, JNum y => JNum (x + y)%Qc
  | _, _ => JNaN
  end.

(** A call either returns or throws an error with a message. *)
Inductive outcome (X : Type) :=
| Ok (x : X)
| Throw (msg : string).
Arguments Ok {X} x.
Arguments Throw {X} msg.

(** [ToIntegerOrInfinity]: truncation toward zero, [NaN] and [undefined]
    become 0. *)
Definition Qc_trunc (q : Qc) : Z :=
  if bool_decide (0 ≤ q)%Qc then Qfloor q else Qceiling q.

Definition toInteger (v : jsval) : Z :=
  match v with
  | JNum q => Qc_trunc q
  | _ => 0
  end.

(** [array[i]] *)
Definition array_get {X} (a : list X) (i : Z) : option X :=
  if i <? 0 then None else a !! Z.to_nat i.

(** [array.splice(start, 0, item)]: [start] is clamped into
    [[0, length]], a negative [start] counts from the end. *)
Definition splice_insert {X} (a : list X) (start : Z) (item : X) : list X :=
  let len := Z.of_nat (length a) in
  let k := if start <? 0 then Z.max (len + start) 0 else Z.min start len in
  take (Z.to_nat k) a ++ item :: drop (Z.to_nat k) a.

(** [typedArray.subarray(begin, end)] *)
Definition subarray (a : list Qc) (begin end_ : Z) : list Qc :=
  let len := Z.of_nat (length a) in
  let rel i := if i <? 0 then Z.max (len + i) 0 else Z.min i len in
  let b := rel begin in
  let e := rel end_ in
  take (Z.to_nat (e - b)) (drop (Z.to_nat b) a).

(** Modelled from the spec: the image buffer is a typed buffer with an
    element byte width and a signedness. The element kinds are those of the
    integer typed arrays: [Int8Array], [Uint8Array], [Uint8ClampedArray],
    [Int16Array], [Uint16Array], [Int32Array] and [Uint32Array]. *)
Inductive elemKind :=
| Int8
| Uint8
| Uint8Clamped
| Int16
| Uint16
| Int32
| Uint32.

#[global] Instance elemKind_eq_dec : EqDecision elemKind.
Proof. solve_decision. Defined.

#[global] Instance elemKind_inhabited : Inhabited elemKind := populate Uint8.

(** [array.BYTES_PER_ELEMENT] *)
Definition bytesPerElement (k : elemKind) : Z :=
  match k with
  | Int8 | Uint8 | Uint8Clamped => 1
  | Int16 | Uint16 => 2
  | Int32 | Uint32 => 4
  end.

Definition isSignedKind (k : elemKind) : bool :=
  match k with
  | Int8 | Int16 | Int32 => true
  | Uint8 | Uint8Clamped | Uint16 | Uint32 => false
  end.

(** [ToInt8], [ToUint8], [ToInt16], ...: the integer modulo [2 ^ bits], read
    as a negative number from [2 ^ (bits - 1)] on for the signed kinds. *)
Definition wrapInteger (bits : Z) (signed : bool) (n : Z) : Z :=
  let m := n mod 2 ^ bits in
  if signed && (2 ^ (bits - 1) <=? m) then m - 2 ^ bits else m.

(** [ToUint8Clamp]: clamped into [[0, 255]] and rounded to the nearest
    integer, a tie to the even one. *)
Definition clampByte (q : Qc) : Z :=
  if bool_decide (q ≤ 0)%Qc then 0
  else if bool_decide (Qc_of_Z 255 ≤ q)%Qc then 255
  else
    let f := Qfloor q in
    let half := (Qc_of_Z f + Q2Qc (1 # 2))%Qc in
    if bool_decide (q < half)%Qc then f
    else if bool_decide (half < q)%Qc then f + 1
    else if Z.even f then f else f + 1.

(** What an element of kind [k] holds after [v] was assigned to it: [v]
    goes through [ToNumber] and the integer conversion of the kind; [NaN]
    and [undefined] become 0. *)
Definition toElement (k : elemKind) (v : jsval) : Qc :=
  match v with
  | JNum q =>
      match k with
      | Uint8Clamped => Qc_of_Z (clampByte q)
      | _ =>
          Qc_of_Z (wrapInteger (bytesPerElement k * 8) (isSignedKind k)
                     (Qc_trunc q))
      end
  | JNaN | JUndefined => Qc_of_Z 0
  end.

(** [typedArray.set(source, offset)] on an array of kind [k]: every sample
    of the source is converted to the kind of the target; [None] is the
    [RangeError] raised when the source does not fit. *)
Definition typedArray_set (k : elemKind) (target source : list Qc)
    (offset : Z) : option (list Qc) :=
  if (offset <? 0) ||
     (Z.of_nat (length target) <? offset + Z.of_nat (length source))
  then None
  else Some (take (Z.to_nat offset) target ++
             ((λ q, toElement k (JNum q)) <$> source) ++
             drop (Z.to_nat offset + length source) target).

(** [typedArray[i] = v] on an array of kind [k]: the converted value is
    stored; a write outside the array is ignored. *)
Definition typedArray_write (k : elemKind) (a : list Qc) (i : Z)
    (v : jsval) : list Qc :=
  if i <? 0 then a else <[Z.to_nat i := toElement k v]> a.

End JS.

(** ** Collaborators of the image code that are not part of these sources *)

Module Geom.
Import JS.

(** Modelled from the spec: [dwv.image.Size] (its source file is not among
    the sources). The spec fixes the dimension order to column, row, slice,
    then optionally time and higher ones. *)
Record Size := mkSize {
  cols : Z;
  rows : Z;
  slices : Z;
  higher : list Z
}.

Definition Size_values (s : Size) : list Z :=
  cols s :: rows s :: slices s :: higher s.

(** [size.length()] *)
Definition Size_length (s : Size) : Z := Z.of_nat (length (Size_values s)).

(** [size.get(i)]; the image code calls it on dimensions 0, 1, 2, and on
    dimension 3 only after testing [size.length() === 4]. *)
Definition get (s : Size) (i : nat) : Z := nth i (Size_values s) 0.

Definition product (l : list Z) : Z := foldr Z.mul 1 l.

(** Modelled from the spec: [size.getDimSize(k, start)], the product of the
    sizes of the dimensions [start <= d < k]. *)
Definition getDimSizeFrom (s : Size) (dimension start : nat) : Z :=
  product (take (dimension - start) (drop start (Size_values s))).

Definition getDimSize (s : Size) (dimension : nat) : Z :=
  getDimSizeFrom s dimension 0.

(** Modelled from the spec: [size.getTotalSize(start)]. *)
Definition getTotalSizeFrom (s : Size) (start : nat) : Z :=
  getDimSizeFrom s (length (Size_values s)) start.

Definition getTotalSize (s : Size) : Z := getTotalSizeFrom s 0.

(** An index has one integer coordinate per dimension
    ([dwv.math.Index]). *)
Definition Index := list Z.

(** Modelled from the spec: [size.indexToOffset(index, start)], the flat
    offset of [index] over the dimensions [>= start]. *)
Definition indexToOffsetFrom (s : Size) (index : Index) (start : nat) : Z :=
  foldr Z.add 0
    ((λ i, nth i index 0 * getDimSizeFrom s i start) <$>
       seq start (length (Size_values s) - start)).

Definition Size_indexToOffset (s : Size) (index : Index) : Z :=
  indexToOffsetFrom s index 0.

(** Modelled from the spec: [size.offsetToIndex(offset)], the inverse of
    [indexToOffset] on offsets inside the volume. *)
Definition offsetToIndex (s : Size) (offset : Z) : Index :=
  let n := length (Size_values s) in
  (λ i, if bool_decide (S i = n) then offset / getDimSize s i
        else (offset / getDimSize s i) mod get s i) <$> seq 0 n.

(** [index.getWithNew2D(i, j)] *)
Definition getWithNew2D (index : Index) (i j : Z) : Index :=
  i :: j :: drop 2 index.

(** [dwv.math.Matrix33], [dwv.math.Point3D] and the window level object
    are carried around by the image code but never inspected by it. *)
Record Matrix33 := mkMatrix33 { m33_values : list Qc }.
Record Point3D := mkPoint3D { p3_x : Qc; p3_y : Qc; p3_z : Qc }.
Record Point2D := mkPoint2D { getX : Z; getY : Z }.
Record WindowLevel := mkWindowLevel { wl_center : Qc; wl_width : Qc }.

(** [dwv.image.Geometry] *)
Record Geometry := mkGeometry {
  getSize : Size;
  getOrientation : Matrix33;
  origins : list Point3D
}.

(** [geometry.indexToOffset(index)] *)
Definition indexToOffset (g : Geometry) (index : Index) : Z :=
  Size_indexToOffset (getSize g) index.

(** [dwv.image.RescaleSlopeAndIntercept] *)
Record RSI := mkRSI { getSlope : Qc; getIntercept : Qc }.

(** Modelled from the spec: [rsi.apply(v) = v * slope + intercept]. *)
Definition RSI_apply (r : RSI) (v : jsval) : jsval :=
  js_add (js_mul v (JNum (getSlope r))) (JNum (getIntercept r)).

(** Modelled from the spec: [rsi.isID()] iff slope is 1 and intercept 0. *)
Definition isID (r : RSI) : bool :=
  bool_decide (getSlope r = 1%Qc) && bool_decide (getIntercept r = 0%Qc).

(** What the private variables [rsi] and [rsis[i]] of an image can hold,
    and what a caller can pass as [inRsi]. *)
Inductive rsival :=
| RVRsi (r : RSI)
| RVNumber (i : Z)
| RVNull
| RVUndefined.

(** The operations of the collaborators whose algorithms the spec leaves
    open are parameters of the development. *)
Class Collaborators := {
  (** [viewOrientation.getColAbsMax(col).index] *)
  getColAbsMax_index : Matrix33 → Z → Z;
  (** [orientation.equals(rhs, tolerance)] *)
  Matrix33_equals : Matrix33 → Matrix33 → Qc → bool;
  (** [rsi.equals(rhs)] for an RSI object [rhs] *)
  RSI_equals : RSI → RSI → bool;
  (** [rsi.equals(rhs)] for an [rhs] that is no RSI object ([null],
      [undefined] or a number): the answer, or the error thrown *)
  RSI_equals_other : RSI → rsival → outcome bool;
  (** [windowLevel.equals(rhs)], [rhs] possibly [undefined] *)
  WindowLevel_equals : WindowLevel → option WindowLevel → bool;
  (** [geometry.getOrigin()] *)
  getOrigin : Geometry → option Point3D;
  (** [geometry.getSliceIndex(origin)] *)
  getSliceIndex : Geometry → option Point3D → Z;
  (** [geometry.appendOrigin(origin, sliceIndex)], the geometry afterwards *)
  appendOrigin : option Point3D → Z → Geometry → Geometry;
  (** [geometry.appendFrame()], the geometry afterwards *)
  Geometry_appendFrame : Geometry → Geometry;
  (** [dwv.dicom.getTypedArray(bits, signed, size)] as called by [realloc]:
      the kind and the content of the new array, [None] for [null] *)
  getTypedArray : Z → bool → jsval → outcome (option (elemKind * list Qc));
  (** [Number(s)] for a string [s] *)
  stringToNumber : string → jsval;
  (** [String(n)] for a number [n], as used in error messages *)
  numberToString : Qc → string
}.

End Geom.

(** ** image.js *)

Module Image.
Import JS Geom.

Definition loc := positive.

(** Values of the open [meta] mapping; objects are compared by reference. *)
Inductive metaval :=
| MNum (q : Qc)
| MStr (s : string)
| MBool (b : bool)
| MObj (ref : loc).

#[global] Instance metaval_eq_dec : EqDecision metaval.
Proof. solve_decision. Defined.

(** One entry of [meta.windowPresets]. *)
Record Preset := mkPreset {
  wl : list (option WindowLevel);
  perslice : option bool
}.

(** A meta object: its enumerable keys in enumeration order, the
    [windowPresets] key kept apart (the only key whose value the image code
    looks into). *)
Record Meta := mkMeta {
  entries : list (string * metaval);
  windowPresets : option (list (string * Preset))
}.

Fixpoint assoc {V} (key : string) (l : list (string * V)) : option V :=
  match l with
  | [] => None
  | (k, v) :: l => if bool_decide (k = key) then Some v else assoc key l
  end.

Fixpoint assoc_set {V} (key : string) (v : V) (l : list (string * V))
    : list (string * V) :=
  match l with
  | [] => [(key, v)]
  | (k, v') :: l =>
      if bool_decide (k = key) then (k, v) :: l
      else (k, v') :: assoc_set key v l
  end.

(** [meta[key]] for a key other than [windowPresets]; [None] is
    [undefined]. *)
Definition meta_get (m : Meta) (key : string) : option metaval :=
  assoc key (entries m).

(** [a !== b] on meta values. *)
Definition strictNotEquals (a b : option metaval) : bool :=
  negb (bool_decide (a = b)).

(** Truthiness, for [meta.IsSigned ? 1 : 0]. *)
Definition truthy (v : option metaval) : bool :=
  match v with
  | None => false
  | Some (MNum q) => negb (bool_decide (q = 0%Qc))
  | Some (MStr s) => negb (bool_decide (s = EmptyString))
  | Some (MBool b) => b
  | Some (MObj _) => true
  end.

Record Range := mkRange { min : jsval; max : jsval }.

(** The private variables of one [dwv.image.Image] instance. References to
    shared objects are store locations. *)
Record ImageData := mkImage {
  geometry : loc;
  buffer : option loc;
  imageUids : loc;
  rsi : rsival;
  rsis : option (list rsival);
  isIdentityRSI : bool;
  isConstantRSI : bool;
  photometricInterpretation : string;
  planarConfiguration : Z;
  numberOfComponents : Qc;
  meta : loc;
  dataRange : option Range;
  rescaledDataRange : option Range;
  histogram : option (list (jsval * Z))
}.

(** The object store: every object the image code shares by reference. A
    typed array is its samples ([buffers]) and its element kind ([kinds]),
    both under the location of the array. *)
Record Store := mkStore {
  images : gmap loc ImageData;
  buffers : gmap loc (list Qc);
  geometries : gmap loc Geometry;
  uidArrays : gmap loc (list (option string));
  metas : gmap loc Meta;
  kinds : gmap loc elemKind
}.

Definition emptyStore : Store := mkStore ∅ ∅ ∅ ∅ ∅ ∅.

#[global] Instance Geometry_inhabited : Inhabited Geometry :=
  populate (mkGeometry (mkSize 0 0 0 []) (mkMatrix33 []) []).
#[global] Instance Meta_inhabited : Inhabited Meta :=
  populate (mkMeta [] None).
#[global] Instance ImageData_inhabited : Inhabited ImageData :=
  populate (mkImage 1%positive None 1%positive RVNull None true true
              EmptyString 0 0%Qc 1%positive None None None).

(** *** Exceptions and state *)

(** A method body: it runs on the store, returns or throws, and leaves the
    store as it was when it returned or threw. *)
Definition M (X : Type) : Type := Store → outcome X * Store.

Definition ret {X} (x : X) : M X := λ st, (Ok x, st).

Definition bind {X Y} (m : M X) (k : X → M Y) : M Y :=
  λ st, match m st with
        | (Ok x, st') => k x st'
        | (Throw msg, st') => (Throw msg, st')
        end.

Definition throw {X} (msg : string) : M X := λ st, (Throw msg, st).

Definition gets {X} (f : Store → X) : M X := λ st, (Ok (f st), st).

Definition modify (f : Store → Store) : M unit := λ st, (Ok tt, f st).

Notation "'let*' x ':=' m 'in' k" := (bind m (λ x, k))
  (at level 10, x name, m at level 100, k at level 200).
Notation "m ';;' k" := (bind m (λ _, k))
  (at level 100, k at level 200, right associativity).

Fixpoint forEach {X} (l : list X) (body : X → M unit) : M unit :=
  match l with
  | [] => ret tt
  | x :: l => body x;; forEach l body
  end.

Definition TypeError : string := "TypeError".
Definition RangeError : string := "RangeError".

(** *** Store access *)

Definition theImage (this : loc) : M ImageData :=
  gets (λ st, images st !!! this).

Definition updateImage (this : loc) (f : ImageData → ImageData) : M unit :=
  modify (λ st, mkStore (alter f this (images st)) (buffers st)
                  (geometries st) (uidArrays st) (metas st) (kinds st)).

Definition set_buffer (b : option loc) (i : ImageData) : ImageData :=
  mkImage (geometry i) b (imageUids i) (rsi i) (rsis i) (isIdentityRSI i)
    (isConstantRSI i) (photometricInterpretation i) (planarConfiguration i)
    (numberOfComponents i) (meta i) (dataRange i) (rescaledDataRange i)
    (histogram i).

Definition set_rsi (r : rsival) (i : ImageData) : ImageData :=
  mkImage (geometry i) (buffer i) (imageUids i) r (rsis i) (isIdentityRSI i)
    (isConstantRSI i) (photometricInterpretation i) (planarConfiguration i)
    (numberOfComponents i) (meta i) (dataRange i) (rescaledDataRange i)
    (histogram i).

Definition set_rsis (r : option (list rsival)) (i : ImageData) : ImageData :=
  mkImage (geometry i) (buffer i) (imageUids i) (rsi i) r (isIdentityRSI i)
    (isConstantRSI i) (photometricInterpretation i) (planarConfiguration i)
    (numberOfComponents i) (meta i) (dataRange i) (rescaledDataRange i)
    (histogram i).

Definition set_isIdentityRSI (b : bool) (i : ImageData) : ImageData :=
  mkImage (geometry i) (buffer i) (imageUids i) (rsi i) (rsis i) b
    (isConstantRSI i) (photometricInterpretation i) (planarConfiguration i)
    (numberOfComponents i) (meta i) (dataRange i) (rescaledDataRange i)
    (histogram i).

Definition set_isConstantRSI (b : bool) (i : ImageData) : ImageData :=
  mkImage (geometry i) (buffer i) (imageUids i) (rsi i) (rsis i)
    (isIdentityRSI i) b (photometricInterpretation i) (planarConfiguration i)
    (numberOfComponents i) (meta i) (dataRange i) (rescaledDataRange i)
    (histogram i).

Definition set_photometricInterpretation (s : string) (i : ImageData)
    : ImageData :=
  mkImage (geometry i) (buffer i) (imageUids i) (rsi i) (rsis i)
    (isIdentityRSI i) (isConstantRSI i) s (planarConfiguration i)
    (numberOfComponents i) (meta i) (dataRange i) (rescaledDataRange i)
    (histogram i).

Definition set_planarConfiguration (c : Z) (i : ImageData) : ImageData :=
  mkImage (geometry i) (buffer i) (imageUids i) (rsi i) (rsis i)
    (isIdentityRSI i) (isConstantRSI i) (photometricInterpretation i) c
    (numberOfComponents i) (meta i) (dataRange i) (rescaledDataRange i)
    (histogram i).

Definition set_meta (m : loc) (i : ImageData) : ImageData :=
  mkImage (geometry i) (buffer i) (imageUids i) (rsi i) (rsis i)
    (isIdentityRSI i) (isConstantRSI i) (photometricInterpretation i)
    (planarConfiguration i) (numberOfComponents i) m (dataRange i)
    (rescaledDataRange i) (histogram i).

Definition set_dataRange (r : option Range) (i : ImageData) : ImageData :=
  mkImage (geometry i) (buffer i) (imageUids i) (rsi i) (rsis i)
    (isIdentityRSI i) (isConstantRSI i) (photometricInterpretation i)
    (planarConfiguration i) (numberOfComponents i) (meta i) r
    (rescaledDataRange i) (histogram i).

Definition set_rescaledDataRange (r : option Range) (i : ImageData)
    : ImageData :=
  mkImage (geometry i) (buffer i) (imageUids i) (rsi i) (rsis i)
    (isIdentityRSI i) (isConstantRSI i) (photometricInterpretation i)
    (planarConfiguration i) (numberOfComponents i) (meta i) (dataRange i) r
    (histogram i).

Definition set_histogram (h : option (list (jsval * Z))) (i : ImageData)
    : ImageData :=
  mkImage (geometry i) (buffer i) (imageUids i) (rsi i) (rsis i)
    (isIdentityRSI i) (isConstantRSI i) (photometricInterpretation i)
    (planarConfiguration i) (numberOfComponents i) (meta i) (dataRange i)
    (rescaledDataRange i) h.

Definition theGeometry (g : loc) : M Geometry :=
  gets (λ st, geometries st !!! g).

Definition theMeta (m : loc) : M Meta := gets (λ st, metas st !!! m).

Definition theUids (u : loc) : M (list (option string)) :=
  gets (λ st, uidArrays st !!! u).

(** The elements of the buffer an image variable refers to; reading through
    a [null] buffer is a [TypeError]. *)
Definition theBuffer (b : option loc) : M (list Qc) :=
  match b with
  | None => throw TypeError
  | Some b => gets (λ st, buffers st !!! b)
  end.

(** The element kind of the buffer an image variable refers to. *)
Definition theKind (b : option loc) : M elemKind :=
  match b with
  | None => throw TypeError
  | Some b => gets (λ st, kinds st !!! b)
  end.

Definition storeBuffer (b : loc) (a : list Qc) : M unit :=
  modify (λ st, mkStore (images st) (<[b := a]> (buffers st))
                  (geometries st) (uidArrays st) (metas st) (kinds st)).

Definition storeGeometry (g : loc) (v : Geometry) : M unit :=
  modify (λ st, mkStore (images st) (buffers st)
                  (<[g := v]> (geometries st)) (uidArrays st) (metas st)
                  (kinds st)).

Definition storeUids (u : loc) (v : list (option string)) : M unit :=
  modify (λ st, mkStore (images st) (buffers st) (geometries st)
                  (<[u := v]> (uidArrays st)) (metas st) (kinds st)).

Definition storeMeta (m : loc) (v : Meta) : M unit :=
  modify (λ st, mkStore (images st) (buffers st) (geometries st)
                  (uidArrays st) (<[m := v]> (metas st)) (kinds st)).

(** Allocation of a new array, a new object literal and a new image. *)
Definition newBuffer (k : elemKind) (a : list Qc) : M loc :=
  λ st, let b := fresh (dom (buffers st)) in
        (Ok b, mkStore (images st) (<[b := a]> (buffers st))
                 (geometries st) (uidArrays st) (metas st)
                 (<[b := k]> (kinds st))).

Definition newMeta (v : Meta) : M loc :=
  λ st, let m := fresh (dom (metas st)) in
        (Ok m, mkStore (images st) (buffers st) (geometries st)
                 (uidArrays st) (<[m := v]> (metas st)) (kinds st)).

Definition newImageObject (v : ImageData) : M loc :=
  λ st, let i := fresh (dom (images st)) in
        (Ok i, mkStore (<[i := v]> (images st)) (buffers st)
                 (geometries st) (uidArrays st) (metas st) (kinds st)).

Section methods.
Context `{collab : Collaborators}.

(** [new dwv.image.Image(geometry, buffer, imageUids)]. The quotient
    [buffer.length / totalSize] is exact; a zero total size (which
    JavaScript answers with [Infinity] or [NaN]) reads as 0 here, and all
    three differ from every component count the code tests for. *)
Definition Image_new (geometry buffer imageUids : loc) : M loc :=
  let* g := theGeometry geometry in
  let* a := theBuffer (Some buffer) in
  let numberOfComponents :=
    (Qc_of_Z (Z.of_nat (length a)) /
     Qc_of_Z (getTotalSize (getSize g)))%Qc in
  let* meta := newMeta (mkMeta [] None) in
  newImageObject
    (mkImage geometry (Some buffer) imageUids (RVRsi (mkRSI 1 0)) None
       true true "MONOCHROME2" 0 numberOfComponents meta None None None).

(** [image.getImageUid(index)] *)
Definition getSecondaryOffset (this : loc) (index : Index) : M Z :=
  let* i := theImage this in
  let* g := theGeometry (geometry i) in
  ret (indexToOffsetFrom (getSize g) index 2).

Definition getImageUid (this : loc) (index : option Index)
    : M (option string) :=
  let* i := theImage this in
  let* uids := theUids (imageUids i) in
  let uid := mjoin (array_get uids 0) in
  match index with
  | Some index =>
      if negb (bool_decide (length uids = 1%nat)) then
        let* o := getSecondaryOffset this index in
        ret (mjoin (array_get uids o))
      else ret uid
  | None => ret uid
  end.

(** [getSecondaryOffsetMax()] *)
Definition getSecondaryOffsetMax (this : loc) : M Z :=
  let* i := theImage this in
  let* g := theGeometry (geometry i) in
  ret (getTotalSizeFrom (getSize g) 2).

(** [image.isIdentityRSI()], [image.isConstantRSI()] and the other plain
    getters read the private variable. *)
Definition getIsIdentityRSI (this : loc) : M bool :=
  let* i := theImage this in ret (isIdentityRSI i).

Definition getIsConstantRSI (this : loc) : M bool :=
  let* i := theImage this in ret (isConstantRSI i).

(** [image.getRescaleSlopeAndIntercept(index)] *)
Definition getRescaleSlopeAndIntercept (this : loc) (index : option Index)
    : M rsival :=
  let* i := theImage this in
  let res := rsi i in
  let* constant := getIsConstantRSI this in
  if negb constant then
    match index with
    | None => throw "Cannot get non constant RSI with empty slice index."
    | Some index =>
        let* offset := getSecondaryOffset this index in
        match rsis i with
        | None => throw TypeError
        | Some rsis =>
            match array_get rsis offset with
            | Some RVUndefined | None => ret res
            | Some r => ret r
            end
        end
    end
  else ret res.

(** [getRescaleSlopeAndInterceptAtOffset(offset)]: [rsis[offset]] *)
Definition getRescaleSlopeAndInterceptAtOffset (this : loc) (offset : Z)
    : M rsival :=
  let* i := theImage this in
  match rsis i with
  | None => throw TypeError
  | Some rsis => ret (default RVUndefined (array_get rsis offset))
  end.

(** [typeof index === 'undefined'] inside [setRescaleSlopeAndIntercept]:
    the parameters of that function are [inRsi] and [offset], and neither it
    nor the enclosing constructor declares an [index]; the identifier is
    unresolved and its [typeof] is ['undefined']. *)
Definition typeof_index_is_undefined : bool := true.

(** [inRsi.isID()]: a method call on something that is not an RSI object
    is a [TypeError]. *)
Definition call_isID (inRsi : rsival) : M bool :=
  match inRsi with
  | RVRsi r => ret (isID r)
  | _ => throw TypeError
  end.

(** [rsi.equals(inRsi)]: a [TypeError] when [rsi] is no RSI object;
    otherwise the method of the RSI object decides, also about an argument
    that is no RSI object. *)
Definition call_equals (rsi inRsi : rsival) : M bool :=
  match rsi with
  | RVRsi a =>
      match inRsi with
      | RVRsi b => ret (RSI_equals a b)
      | _ =>
          match RSI_equals_other a inRsi with
          | Ok same => ret same
          | Throw msg => throw msg
          end
      end
  | _ => throw TypeError
  end.

(** [rsis.splice(offset, 0, inRsi)] on the private array. *)
Definition rsis_splice (this : loc) (offset : jsval) (inRsi : rsival)
    : M unit :=
  let* i := theImage this in
  match rsis i with
  | None => throw TypeError
  | Some a =>
      updateImage this
        (set_rsis (Some (splice_insert a (toInteger offset) inRsi)))
  end.

(** [image.setRescaleSlopeAndIntercept(inRsi, offset)] *)
Definition setRescaleSlopeAndIntercept (this : loc) (inRsi : rsival)
    (offset : jsval) : M unit :=
  let* i := theImage this in
  (* isIdentityRSI = isIdentityRSI && inRsi.isID() *)
  (if isIdentityRSI i then
     let* id := call_isID inRsi in
     updateImage this (set_isIdentityRSI id)
   else ret tt);;
  let* i := theImage this in
  if negb (isConstantRSI i) then
    if typeof_index_is_undefined then
      throw "Cannot store non constant RSI with empty slice index."
    else rsis_splice this offset inRsi
  else
    let* same := call_equals (rsi i) inRsi in
    if negb same then
      if typeof_index_is_undefined then
        (* no slice index, replace existing *)
        updateImage this (set_rsi inRsi)
      else
        (* first non constant rsi *)
        updateImage this (set_isConstantRSI false);;
        updateImage this (set_rsis (Some []));;
        let* leni := getSecondaryOffsetMax this in
        forEach (seqZ 0 leni)
          (λ k, let* i := theImage this in
                updateImage this
                  (set_rsis (Some (default [] (rsis i) ++ [RVNumber k]))));;
        updateImage this (set_rsi RVNull);;
        rsis_splice this offset inRsi
    else ret tt.

(** The plain setters. *)
Definition setPhotometricInterpretation (this : loc) (interp : string)
    : M unit :=
  updateImage this (set_photometricInterpretation interp).

Definition setPlanarConfiguration (this : loc) (config : Z) : M unit :=
  updateImage this (set_planarConfiguration config).

Definition setMeta (this : loc) (rhs : loc) : M unit :=
  updateImage this (set_meta rhs).

(** [image.getValueAtOffset(offset)]: [buffer[offset]] *)
Definition getValueAtOffset (this : loc) (offset : Z) : M jsval :=
  let* i := theImage this in
  let* a := theBuffer (buffer i) in
  ret (match array_get a offset with
       | Some q => JNum q
       | None => JUndefined
       end).

(** [rsi.apply(val)] on whatever [getRescaleSlopeAndIntercept] returned. *)
Definition call_apply (r : rsival) (val : jsval) : M jsval :=
  match r with
  | RVRsi r => ret (RSI_apply r val)
  | _ => throw TypeError
  end.

(** [image.getRescaledValueAtOffset(offset)] *)
Definition getRescaledValueAtOffset (this : loc) (offset : Z) : M jsval :=
  let* val := getValueAtOffset this offset in
  let* identity := getIsIdentityRSI this in
  if negb identity then
    let* constant := getIsConstantRSI this in
    if constant then
      let* r := getRescaleSlopeAndIntercept this None in
      call_apply r val
    else
      let* i := theImage this in
      let* g := theGeometry (geometry i) in
      let index := offsetToIndex (getSize g) offset in
      let* r := getRescaleSlopeAndIntercept this (Some index) in
      call_apply r val
  else ret val.

(** [image.clone()] *)
Definition clone (this : loc) : M loc :=
  let* i := theImage this in
  (* clone the image buffer *)
  let* a := theBuffer (buffer i) in
  let* kind := theKind (buffer i) in
  let* clonedBuffer := newBuffer kind a in
  (* create the image copy *)
  let* copy := Image_new (geometry i) clonedBuffer (imageUids i) in
  (* copy the RSI(s) *)
  let* constant := getIsConstantRSI this in
  (if constant then
     let* r := getRescaleSlopeAndIntercept this None in
     setRescaleSlopeAndIntercept copy r JUndefined
   else
     let* leni := getSecondaryOffsetMax this in
     forEach (seqZ 0 leni)
       (λ k, let* r := getRescaleSlopeAndInterceptAtOffset this k in
             setRescaleSlopeAndIntercept copy r (JNum (Qc_of_Z k))));;
  (* copy extras *)
  let* i := theImage this in
  setPhotometricInterpretation copy (photometricInterpretation i);;
  setPlanarConfiguration copy (planarConfiguration i);;
  setMeta copy (meta i);;
  ret copy.

(** [realloc(size)]: the private [buffer] variable is reassigned before the
    [null] test and before the old content is copied. *)
Definition realloc (this : loc) (size : jsval) : M unit :=
  let* i := theImage this in
  (* save buffer *)
  let* tmpBuffer := theBuffer (buffer i) in
  (* create new *)
  let* kind := theKind (buffer i) in
  let* m := theMeta (meta i) in
  match getTypedArray (bytesPerElement kind * 8)
          (truthy (meta_get m "IsSigned")) size with
  | Throw msg => throw msg
  | Ok None =>
      updateImage this (set_buffer None);;
      throw "Cannot reallocate data for image."
  | Ok (Some (newKind, a)) =>
      let* b := newBuffer newKind a in
      updateImage this (set_buffer (Some b));;
      (* put old in new *)
      match typedArray_set newKind a tmpBuffer 0 with
      | None => throw RangeError
      | Some a => storeBuffer b a
      end
  end.

(** [buffer.set(source, offset)] on the private buffer. *)
Definition buffer_set (this : loc) (source : list Qc) (offset : Qc)
    : M unit :=
  let* i := theImage this in
  let* a := theBuffer (buffer i) in
  let* kind := theKind (buffer i) in
  match buffer i, typedArray_set kind a source (Qc_trunc offset) with
  | Some b, Some a => storeBuffer b a
  | _, _ => throw RangeError
  end.

(** [buffer.subarray(start, end)] on the private buffer. *)
Definition buffer_subarray (this : loc) (start end_ : Qc) : M (list Qc) :=
  let* i := theImage this in
  let* a := theBuffer (buffer i) in
  ret (subarray a (Qc_trunc start) (Qc_trunc end_)).

(** [ToNumber] of a meta value. *)
Definition metaToNumber (v : metaval) : jsval :=
  match v with
  | MNum q => JNum q
  | MStr s => stringToNumber s
  | MBool b => JNum (if b then 1 else 0)%Qc
  | MObj _ => JNaN
  end.

(** The keys [for (var key in meta)] enumerates. *)
Definition meta_keys (m : Meta) : list string :=
  (fst <$> entries m) ++
  match windowPresets m with Some _ => ["windowPresets"] | None => [] end.

(** The window preset update at the end of [appendSlice], for one key of
    the incoming presets. Preset objects are stored by value inside their
    meta object. *)
Definition updatePreset (this rhs : loc) (numberOfImages : Z)
    (secondaryOffset : Qc) (pkey : string) : M unit :=
  let* i := theImage this in
  let* r := theImage rhs in
  let* rm := theMeta (meta r) in
  let* m := theMeta (meta i) in
  let windowPresets_ := default [] (windowPresets m) in
  match assoc pkey (default [] (windowPresets rm)) with
  | None =>
      match assoc pkey windowPresets_ with
      | Some _ => throw TypeError
      | None => ret tt
      end
  | Some rhsPreset =>
      let rhsWl0 := mjoin (array_get (wl rhsPreset) 0) in
      match assoc pkey windowPresets_ with
      | Some windowPreset =>
          (* if not set or false, check perslice *)
          let* windowPreset :=
            match perslice windowPreset with
            | Some true => ret windowPreset
            | _ =>
                match mjoin (array_get (wl windowPreset) 0) with
                | None => throw TypeError
                | Some wl0 =>
                    (* if different preset.wl, mark it as perslice *)
                    if negb (WindowLevel_equals wl0 rhsWl0) then
                      ret (mkPreset
                             (wl windowPreset ++
                              replicate (Z.to_nat (numberOfImages - 1))
                                (Some wl0))
                             (Some true))
                    else ret windowPreset
                end
            end in
          (* store (first) rhs preset.wl if needed *)
          let windowPreset :=
            match perslice windowPreset with
            | Some true =>
                mkPreset
                  (splice_insert (wl windowPreset)
                     (Qc_trunc secondaryOffset) rhsWl0)
                  (perslice windowPreset)
            | _ => windowPreset
            end in
          storeMeta (meta i)
            (mkMeta (entries m)
               (Some (assoc_set pkey windowPreset windowPresets_)))
      | None =>
          (* if not defined (it should be), store all *)
          storeMeta (meta i)
            (mkMeta (entries m)
               (Some (assoc_set pkey rhsPreset windowPresets_)))
      end
  end.

(** The checks at the head of [appendSlice], up to the test for a known
    number of files; each failed check throws. *)
Definition appendSlice_checks (this rhs : loc) : M unit :=
  let* i := theImage this in
  let* r := theImage rhs in
  let* rhsGeometry := theGeometry (geometry r) in
  let* g := theGeometry (geometry i) in
  let rhsSize := getSize rhsGeometry in
  let size := getSize g in
  if negb (get rhsSize 2 =? 1) then
    throw "Cannot append more than one slice"
  else if negb (get size 0 =? get rhsSize 0) then
    throw "Cannot append a slice with different number of columns"
  else if negb (get size 1 =? get rhsSize 1) then
    throw "Cannot append a slice with different number of rows"
  else if negb (Matrix33_equals (getOrientation g)
                  (getOrientation rhsGeometry) (Q2Qc (1 # 10000))) then
    throw "Cannot append a slice with different orientation"
  else if negb (bool_decide (photometricInterpretation i =
                             photometricInterpretation r)) then
    throw "Cannot append a slice with different photometric interpretation"
  else
    (* all meta should be equal *)
    let* m := theMeta (meta i) in
    forEach (meta_keys m)
      (λ key,
         if bool_decide (key = "windowPresets") ||
            bool_decide (key = "numberOfFiles")
         then ret tt
         else
           let* rm := theMeta (meta r) in
           if strictNotEquals (meta_get m key) (meta_get rm key) then
             throw ("Cannot append a slice with different " +:+ key)
           else ret tt);;
    (* create full buffer if not done yet *)
    match meta_get m "numberOfFiles" with
    | None => throw "Missing number of files for buffer manipulation."
    | Some _ => ret tt
    end.

(** [image.appendSlice(rhs, timeId)] *)
Definition appendSlice (this : loc) (rhs : option loc) (timeId : option Z)
    : M unit :=
  let timeId := default 0 timeId in
  (* check input *)
  match rhs with
  | None => throw "Cannot append null slice"
  | Some rhs =>
      appendSlice_checks this rhs;;
      let* i := theImage this in
      let* r := theImage rhs in
      let* g := theGeometry (geometry i) in
      let* m := theMeta (meta i) in
      let size := getSize g in
      let ncomp := numberOfComponents i in
      (* calculate slice size *)
      let sliceSize := (ncomp * Qc_of_Z (getDimSize size 2))%Qc in
      let numberOfFiles :=
        match meta_get m "numberOfFiles" with
        | Some v => metaToNumber v
        | None => JUndefined
        end in
      let fullBufferSize := js_mul (JNum sliceSize) numberOfFiles in
      let fullBufferSize :=
        if Size_length size =? 4
        then js_mul fullBufferSize (JNum (Qc_of_Z (get size 3)))
        else fullBufferSize in
      let* a := theBuffer (buffer i) in
      (if negb (bool_decide
                  (JNum (Qc_of_Z (Z.of_nat (length a))) = fullBufferSize))
       then realloc this fullBufferSize
       else ret tt);;
      let* rhsGeometry := theGeometry (geometry r) in
      let newSliceIndex := getSliceIndex g (getOrigin rhsGeometry) in
      let values := replicate (length (Size_values size)) 0 in
      let values := <[2%nat := newSliceIndex]> values in
      let values :=
        if Size_length size =? 4 then <[3%nat := timeId]> values
        else values in
      let index : Index := values in
      let primaryOffset :=
        (Qc_of_Z (Size_indexToOffset size index) * ncomp)%Qc in
      let* secondary := getSecondaryOffset this index in
      let secondaryOffset := (Qc_of_Z secondary * ncomp)%Qc in
      (* first frame special slice by slice append *)
      (if timeId =? 0 then
         let oldNumberOfSlices := get size 2 in
         (* move content if needed *)
         let start := primaryOffset in
         if newSliceIndex =? 0 then
           (* insert slice before current data *)
           let end_ := (start + Qc_of_Z oldNumberOfSlices * sliceSize)%Qc in
           let* part := buffer_subarray this start end_ in
           buffer_set this part (primaryOffset + sliceSize)%Qc
         else if newSliceIndex <? oldNumberOfSlices then
           (* insert slice in between current data *)
           let end_ :=
             (start +
              Qc_of_Z (oldNumberOfSlices - newSliceIndex) * sliceSize)%Qc in
           let* part := buffer_subarray this start end_ in
           buffer_set this part (primaryOffset + sliceSize)%Qc
         else ret tt
       else ret tt);;
      (* add new slice content *)
      let* r := theImage rhs in
      let* rhsBuffer := theBuffer (buffer r) in
      buffer_set this rhsBuffer primaryOffset;;
      (* update geometry *)
      (if timeId =? 0 then
         let* rhsGeometry := theGeometry (geometry r) in
         let* g := theGeometry (geometry i) in
         storeGeometry (geometry i)
           (appendOrigin (getOrigin rhsGeometry) newSliceIndex g)
       else ret tt);;
      (* update rsi (rhs should just have one rsi) *)
      let* rhsRsi := getRescaleSlopeAndIntercept rhs None in
      setRescaleSlopeAndIntercept this rhsRsi (JNum secondaryOffset);;
      (* current number of images *)
      let* uids := theUids (imageUids i) in
      let numberOfImages := Z.of_nat (length uids) in
      (* insert sop instance UIDs *)
      let* rhsUid := getImageUid rhs None in
      let* uids := theUids (imageUids i) in
      storeUids (imageUids i)
        (splice_insert uids (Qc_trunc secondaryOffset) rhsUid);;
      (* update window presets *)
      let* m := theMeta (meta i) in
      match windowPresets m with
      | None => ret tt
      | Some _ =>
          let* r := theImage rhs in
          let* rm := theMeta (meta r) in
          match windowPresets rm with
          | None => throw TypeError
          | Some rhsPresets =>
              forEach (fst <$> rhsPresets)
                (updatePreset this rhs numberOfImages secondaryOffset)
          end
      end
  end.

(** [image.appendFrame()]. The listeners of the "appendframe" event are
    code of the caller; they run when the geometry has been updated, as the
    last step of the call. *)
Definition appendFrame (this : loc) : M unit :=
  let* i := theImage this in
  let* g := theGeometry (geometry i) in
  storeGeometry (geometry i) (Geometry_appendFrame g).

(** [image.appendFrameBuffer(frameBuffer, frameIndex)], for an array of
    numbers [frameBuffer]. *)
Definition appendFrameBuffer (this : loc) (frameBuffer : list Qc)
    (frameIndex : jsval) : M unit :=
  let* i := theImage this in
  let* g := theGeometry (geometry i) in
  let* m := theMeta (meta i) in
  (* create full buffer if not done yet *)
  let size := getSize g in
  let frameSize := (numberOfComponents i * Qc_of_Z (getDimSize size 2))%Qc in
  match meta_get m "numberOfFiles" with
  | None => throw "Missing number of files for frame buffer manipulation."
  | Some numberOfFiles =>
      let numberOfFiles := metaToNumber numberOfFiles in
      let fullBufferSize := js_mul (JNum frameSize) numberOfFiles in
      let* a := theBuffer (buffer i) in
      (if negb (bool_decide
                  (JNum (Qc_of_Z (Z.of_nat (length a))) = fullBufferSize))
       then realloc this fullBufferSize
       else ret tt);;
      (* append *)
      if js_ge frameIndex numberOfFiles then
        throw "Cannot append a frame at an index above the number of frames"
      else
        (* an offset that is [NaN] counts as 0 *)
        let offset :=
          match js_mul (JNum frameSize) frameIndex with
          | JNum q => q
          | JNaN | JUndefined => 0%Qc
          end in
        buffer_set this frameBuffer offset;;
        (* update geometry *)
        appendFrame this
  end.

(** [image.getBuffer()[k] = v]: a write through the reference that
    [getBuffer] hands out. *)
Definition getBuffer (this : loc) : M (option loc) :=
  let* i := theImage this in ret (buffer i).

Definition writeBuffer (b : option loc) (k : Z) (v : jsval) : M unit :=
  let* a := theBuffer b in
  let* kind := theKind b in
  match b with
  | Some b => storeBuffer b (typedArray_write kind a k v)
  | None => throw TypeError
  end.

Fixpoint foldM {X S} (l : list X) (s : S) (body : S → X → M S) : M S :=
  match l with
  | [] => ret s
  | x :: l => let* s := body s x in foldM l s body
  end.

(** [image.calculateDataRange()] *)
Definition calculateDataRange (this : loc) : M Range :=
  let* min := getValueAtOffset this 0 in
  let max := min in
  let* i := theImage this in
  let* g := theGeometry (geometry i) in
  let size := getSize g in
  let leni := getTotalSize size in
  (* max to 3D *)
  let leni := if 3 <=? Size_length size then getDimSize size 3 else leni in
  let* mm :=
    foldM (seqZ 0 leni) (min, max)
      (λ '(min, max) k,
         let* value := getValueAtOffset this k in
         let max := if js_gt value max then value else max in
         let min := if js_lt value min then value else min in
         ret (min, max)) in
  ret (mkRange (fst mm) (snd mm)).

(** [image.getDataRange()] *)
Definition getDataRange (this : loc) : M Range :=
  let* i := theImage this in
  match dataRange i with
  | None =>
      let* r := calculateDataRange this in
      updateImage this (set_dataRange (Some r));;
      ret r
  | Some r => ret r
  end.

(** The plotting loop [for (b = rmin; b <= rmax; ++b)] of
    [calculateHistogram]; [histogramSteps] is the number of times its test
    succeeds. *)
Definition histogramSteps (rmin rmax : jsval) : nat :=
  match rmin, rmax with
  | JNum a, JNum c =>
      if bool_decide (a ≤ c)%Qc then Z.to_nat (Qfloor (c - a)%Qc + 1)
      else 0%nat
  | _, _ => 0%nat
  end.

Fixpoint histogramLoop (steps : nat) (b rmax : jsval)
    (histo : gmap jsval Z) : list (jsval * Z) :=
  match steps with
  | O => []
  | S steps =>
      if js_le b rmax then
        (b, default 0 (histo !! b)) ::
        histogramLoop steps (js_add b (JNum 1)) rmax histo
      else []
  end.

(** The local variables of the scan loop of [calculateHistogram]. *)
Record histoScan := mkHistoScan {
  hs_min : jsval;
  hs_max : jsval;
  hs_rmin : jsval;
  hs_rmax : jsval;
  hs_histo : gmap jsval Z
}.

(** [image.calculateHistogram()] *)
Definition calculateHistogram (this : loc)
    : M (Range * Range * list (jsval * Z)) :=
  let* i := theImage this in
  let* g := theGeometry (geometry i) in
  let size := getSize g in
  let* min := getValueAtOffset this 0 in
  let max := min in
  let* rmin := getRescaledValueAtOffset this 0 in
  let rmax := rmin in
  let* sc :=
    foldM (seqZ 0 (getTotalSize size)) (mkHistoScan min max rmin rmax ∅)
      (λ sc k,
         let* value := getValueAtOffset this k in
         let max := if js_gt value (hs_max sc) then value else hs_max sc in
         let min := if js_lt value (hs_min sc) then value else hs_min sc in
         let* rvalue := getRescaledValueAtOffset this k in
         let rmax :=
           if js_gt rvalue (hs_rmax sc) then rvalue else hs_rmax sc in
         let rmin :=
           if js_lt rvalue (hs_rmin sc) then rvalue else hs_rmin sc in
         let histo :=
           <[rvalue := default 0 (hs_histo sc !! rvalue) + 1]>
             (hs_histo sc) in
         ret (mkHistoScan min max rmin rmax histo)) in
  (* set data range *)
  let dataRange := mkRange (hs_min sc) (hs_max sc) in
  let rescaledDataRange := mkRange (hs_rmin sc) (hs_rmax sc) in
  (* generate data for plotting *)
  let histogram :=
    histogramLoop (histogramSteps (hs_rmin sc) (hs_rmax sc))
      (hs_rmin sc) (hs_rmax sc) (hs_histo sc) in
  ret (dataRange, rescaledDataRange, histogram).

(** [image.getHistogram()] *)
Definition getHistogram (this : loc) : M (list (jsval * Z)) :=
  let* i := theImage this in
  match histogram i with
  | None =>
      let* res := calculateHistogram this in
      let '(dataRange, rescaledDataRange, histogram) := res in
      updateImage this (set_dataRange (Some dataRange));;
      updateImage this (set_rescaledDataRange (Some rescaledDataRange));;
      updateImage this (set_histogram (Some histogram));;
      ret histogram
  | Some h => ret h
  end.

(** [image.getValueAtIndex(index)] *)
Definition getValueAtIndex (this : loc) (index : Index) : M jsval :=
  let* i := theImage this in
  let* g := theGeometry (geometry i) in
  getValueAtOffset this (Size_indexToOffset (getSize g) index).

(** [image.getValue(i, j, k, f)]; [f || 0] is [f] for a number and 0 when
    [f] is omitted. *)
Definition getValue (this : loc) (i j k : Z) (f : option Z) : M jsval :=
  let frame := default 0 f in
  let index : Index := [i; j; k; frame] in
  let* im := theImage this in
  let* g := theGeometry (geometry im) in
  getValueAtOffset this (Size_indexToOffset (getSize g) index).

(** [image.getRescaledValue(i, j, k, f)] *)
Definition getRescaledValue (this : loc) (i j k : Z) (f : option Z)
    : M jsval :=
  let f := default 0 f in
  let* val := getValue this i j k (Some f) in
  let* identity := getIsIdentityRSI this in
  if negb identity then
    let* constant := getIsConstantRSI this in
    if constant then
      let* r := getRescaleSlopeAndIntercept this None in
      call_apply r val
    else
      let values := [i; j; k; f] in
      let index : Index := values in
      let* r := getRescaleSlopeAndIntercept this (Some index) in
      call_apply r val
  else ret val.

(** [image.getRescaledValueAtIndex(index)] *)
Definition getRescaledValueAtIndex (this : loc) (index : Index) : M jsval :=
  let* i := theImage this in
  let* g := theGeometry (geometry i) in
  getRescaledValueAtOffset this (Size_indexToOffset (getSize g) index).

(** [image.calculateRescaledDataRange()] *)
Definition calculateRescaledDataRange (this : loc) : M Range :=
  let* identity := getIsIdentityRSI this in
  if identity then getDataRange this
  else
    let* constant := getIsConstantRSI this in
    if constant then
      let* range := getDataRange this in
      let* r := getRescaleSlopeAndIntercept this None in
      let* resmin := call_apply r (min range) in
      let* r := getRescaleSlopeAndIntercept this None in
      let* resmax := call_apply r (max range) in
      ret (mkRange (if js_lt resmin resmax then resmin else resmax)
             (if js_gt resmin resmax then resmin else resmax))
    else
      let* rmin := getRescaledValueAtOffset this 0 in
      let rmax := rmin in
      let* i := theImage this in
      let* g := theGeometry (geometry i) in
      let size := getSize g in
      let leni := getTotalSize size in
      (* max to 3D *)
      let leni := if Size_length size =? 3 then getDimSize size 3 else leni in
      let* mm :=
        foldM (seqZ 0 leni) (rmin, rmax)
          (λ '(rmin, rmax) k,
             let* rvalue := getRescaledValueAtOffset this k in
             let rmax := if js_gt rvalue rmax then rvalue else rmax in
             let rmin := if js_lt rvalue rmin then rvalue else rmin in
             ret (rmin, rmax)) in
      ret (mkRange (fst mm) (snd mm)).

(** [image.getRescaledDataRange()] *)
Definition getRescaledDataRange (this : loc) : M Range :=
  let* i := theImage this in
  match rescaledDataRange i with
  | None =>
      let* r := calculateRescaledDataRange this in
      updateImage this (set_rescaledDataRange (Some r));;
      ret r
  | Some r => ret r
  end.

(** [Math.floor(v)] *)
Definition js_floor (v : jsval) : jsval :=
  match v with
  | JNum q => JNum (Qc_of_Z (Qfloor q))
  | JNaN | JUndefined => JNaN
  end.

(** [image.transform(operator)], for an [operator] without effects that
    returns a number, [NaN] or [undefined]. *)
Definition transform (this : loc) (operator : jsval → jsval) : M loc :=
  let* newImage := clone this in
  let* newBuffer := getBuffer newImage in
  let* a := theBuffer newBuffer in
  forEach (seqZ 0 (Z.of_nat (length a)))
    (λ k, let* v := getValueAtOffset newImage k in
          writeBuffer newBuffer k (operator v));;
  ret newImage.

(** [image.compose(rhs, operator)], for an [operator] without effects that
    returns a number, [NaN] or [undefined]. *)
Definition compose (this rhs : loc) (operator : jsval → jsval → jsval)
    : M loc :=
  let* newImage := clone this in
  let* newBuffer := getBuffer newImage in
  let* a := theBuffer newBuffer in
  forEach (seqZ 0 (Z.of_nat (length a)))
    (λ k, let* v := getValueAtOffset this k in
          let* w := getValueAtOffset rhs k in
          writeBuffer newBuffer k (js_floor (operator v w)));;
  ret newImage.

End methods.

End Image.

(** ** The slice-iterator planners of iterator.js *)

Module Planner.
Import JS Geom Image Iterator.

(** The closure [dataAccessor] built by the planners: it reads the image
    when it is called. *)
Inductive accessor :=
| RawAccessor (image : loc)
| RescaledAccessor (image : loc).

Record sliceIterator := mkSliceIterator {
  si_accessor : accessor;
  si_range : iterator
}.

Section planners.
Context `{collab : Collaborators}.

Definition dataAccessor (a : accessor) (st : Store) (offset : Z)
    : outcome jsval :=
  match a with
  | RawAccessor image => fst (getValueAtOffset image offset st)
  | RescaledAccessor image => fst (getRescaledValueAtOffset image offset st)
  end.

(** [dwv.image.getSliceIterator(image, position, isRescaled,
    viewOrientation)] *)
Definition getSliceIterator (image : loc) (position : Index)
    (isRescaled : option bool) (viewOrientation : option Matrix33)
    : M sliceIterator :=
  let* i := theImage image in
  let* geometry := theGeometry (geometry i) in
  (* zero-ify non direction index *)
  let dirMax2Index :=
    match viewOrientation with
    | Some v => getColAbsMax_index v 2
    | None => 2
    end in
  let posValues := position in
  let indexFilter (index : nat) (element : Z) :=
    if Z.of_nat index =? dirMax2Index then element else 0 in
  let posStart : Index := imap indexFilter posValues in
  let start := indexToOffset geometry posStart in
  (* default to non rescaled data *)
  let isRescaled := default false isRescaled in
  let dataAccessor :=
    if isRescaled then RescaledAccessor image else RawAccessor image in
  let size := getSize geometry in
  let ncols := get size 0 in
  let nrows := get size 1 in
  let nslices := get size 2 in
  let sliceSize := getDimSize size 2 in
  if bool_decide (numberOfComponents i = Qc_of_Z 1) then
    match viewOrientation with
    | Some v =>
        let dirMax0 := getColAbsMax_index v 0 in
        let dirMax2 := getColAbsMax_index v 2 in
        (* first pixel: top left -> inverts left/right, top/bottom...
           => default is reverse=true *)
        let reverse1 := true in
        let reverse2 := true in
        if dirMax2 =? 2 then
          (* axial: xyz or yxz *)
          let end_ := start + sliceSize - 1 in
          if dirMax0 =? 0 then
            ret (mkSliceIterator dataAccessor
                   (range start end_ 1 ncols ncols
                      (Some (negb reverse1)) (Some (negb reverse2))))
          else
            ret (mkSliceIterator dataAccessor
                   (range start end_ ncols nrows 1
                      (Some true) (Some (negb reverse2))))
        else if dirMax2 =? 0 then
          (* sagittal: yzx or zyx *)
          let end_ := start + (nslices - 1) * sliceSize +
                      ncols * (nrows - 1) in
          if dirMax0 =? 1 then
            ret (mkSliceIterator dataAccessor
                   (range start end_ ncols nrows sliceSize
                      (Some reverse1) (Some reverse2)))
          else
            ret (mkSliceIterator dataAccessor
                   (range start end_ sliceSize nslices ncols
                      (Some (negb reverse1)) (Some reverse2)))
        else if dirMax2 =? 1 then
          (* coronal: xzy or zxy *)
          let end_ := start + (nslices - 1) * sliceSize + ncols - 1 in
          if dirMax0 =? 0 then
            ret (mkSliceIterator dataAccessor
                   (range start end_ 1 ncols sliceSize
                      (Some reverse1) (Some reverse2)))
          else
            ret (mkSliceIterator dataAccessor
                   (range start end_ sliceSize nslices 1
                      (Some (negb reverse1)) (Some reverse2)))
        else
          throw ("Unknown direction: " +:+
                 numberToString (Qc_of_Z dirMax2))
    | None =>
        (* default case *)
        ret (mkSliceIterator dataAccessor
               (simpleRange start (start + sliceSize) None))
    end
  else if bool_decide (numberOfComponents i = Qc_of_Z 3) then
    (* 3 times bigger... *)
    let start := start * 3 in
    let sliceSize := sliceSize * 3 in
    let isPlanar := planarConfiguration i =? 1 in
    ret (mkSliceIterator dataAccessor
           (range3d start (start + sliceSize) (Some 1) (Some isPlanar)))
  else
    throw ("Unsupported number of components: " +:+
           numberToString (numberOfComponents i)).

(** [dwv.image.getRegionSliceIterator(image, position, isRescaled, min,
    max)] *)
Definition getRegionSliceIterator (image : loc) (position : Index)
    (isRescaled : option bool) (min max : option Point2D)
    : M sliceIterator :=
  let* i := theImage image in
  if negb (bool_decide (numberOfComponents i = Qc_of_Z 1)) then
    throw ("Unsupported number of components for region iterator: " +:+
           numberToString (numberOfComponents i))
  else
    (* default to non rescaled data *)
    let isRescaled := default false isRescaled in
    let dataAccessor :=
      if isRescaled then RescaledAccessor image else RawAccessor image in
    let* geometry := theGeometry (geometry i) in
    let size := getSize geometry in
    let min := default (mkPoint2D 0 0) min in
    let max := default (mkPoint2D (get size 0 - 1) (get size 1)) max in
    (* position to pixel for max: extra X is ok, remove extra Y *)
    let startOffset :=
      indexToOffset geometry
        (getWithNew2D position (getX min) (getY min)) in
    let endOffset :=
      indexToOffset geometry
        (getWithNew2D position (getX max) (getY max - 1)) in
    (* minimum 1 column *)
    let rangeNumberOfColumns := Z.max 1 (getX max - getX min) in
    let rowIncrement := get size 0 - rangeNumberOfColumns in
    ret (mkSliceIterator dataAccessor
           (rangeRegion startOffset (endOffset + 1) 1
              rangeNumberOfColumns rowIncrement)).

(** A region of [getVariableRegionSliceIterator]:
    [[[x0, y0], [x1, y1]]]. *)
Definition Region : Type := (Z * Z) * (Z * Z).

(** The variables the loop over [regions] updates. *)
Record regionScan := mkRegionScan {
  rsc_offsetRegions : list (Z * Z * Z);
  rsc_min : option (Z * Z);
  rsc_index : option nat
}.

(** [dwv.image.getVariableRegionSliceIterator(image, position, isRescaled,
    regions)]; [None] is the [undefined] of the bare [return]. *)
Definition getVariableRegionSliceIterator (image : loc) (position : Index)
    (isRescaled : option bool) (regions : list Region)
    : M (option sliceIterator) :=
  let* i := theImage image in
  if negb (bool_decide (numberOfComponents i = Qc_of_Z 1)) then
    throw ("Unsupported number of components for region iterator: " +:+
           numberToString (numberOfComponents i))
  else
    (* default to non rescaled data *)
    let isRescaled := default false isRescaled in
    let dataAccessor :=
      if isRescaled then RescaledAccessor image else RawAccessor image in
    let* geometry := theGeometry (geometry i) in
    let size := getSize geometry in
    let sc :=
      foldl
        (λ sc '(k, region),
           let width := fst (snd region) - fst (fst region) in
           if negb (width =? 0) then
             mkRegionScan
               (rsc_offsetRegions sc ++
                [(fst (fst region), width, get size 0 - fst (snd region))])
               (match rsc_min sc with
                | None => Some (fst region)
                | Some m => Some m
                end)
               (Some k)
           else sc)
        (mkRegionScan [] None None)
        (imap (λ (k : nat) (region : Region), (k, region)) regions) in
    let max := rsc_index sc ≫= (λ k, snd <$> regions !! k) in
    (* exit if no offsets *)
    if bool_decide (rsc_offsetRegions sc = []) then ret None
    else
      match rsc_min sc, max with
      | Some min, Some max =>
          let startOffset :=
            indexToOffset geometry
              (getWithNew2D position (fst min) (snd min)) in
          let endOffset :=
            indexToOffset geometry
              (getWithNew2D position (fst max) (snd max)) in
          ret (Some (mkSliceIterator dataAccessor
                       (rangeRegions startOffset (endOffset + 1) 1
                          (rsc_offsetRegions sc))))
      | _, _ => throw Image.TypeError
      end.

End planners.

End Planner.

(** ** A concrete world for examples *)

Module Sample.
Import JS Geom Image Iterator Planner.

#[global] Instance Matrix33_eq_dec : EqDecision Matrix33.
Proof. solve_decision. Defined.
#[global] Instance RSI_eq_dec : EqDecision RSI.
Proof. solve_decision. Defined.
#[global] Instance WindowLevel_eq_dec : EqDecision WindowLevel.
Proof. solve_decision. Defined.

(** The typed array an allocator makes for a bit width and a signedness. *)
Definition typedArrayKind (bits : Z) (signed : bool) : option elemKind :=
  if bits =? 8 then Some (if signed then Int8 else Uint8)
  else if bits =? 16 then Some (if signed then Int16 else Uint16)
  else if bits =? 32 then Some (if signed then Int32 else Uint32)
  else None.

(** Simple collaborators: view axis [k] is dominated by storage axis [k],
    equality tests are exact, [rsi.equals] answers [null] with [false] and
    fails on any other value that is no RSI object, a new slice goes behind
    the existing ones, a new frame adds one to the fourth dimension, the
    allocator makes zero-filled arrays of 8, 16 or 32 bits. *)
Definition collaborators : Collaborators := {|
  getColAbsMax_index := λ _ col, col;
  Matrix33_equals := λ a b _, bool_decide (a = b);
  RSI_equals := λ a b, bool_decide (a = b);
  RSI_equals_other := λ _ rhs,
    match rhs with RVNull => Ok false | _ => Throw Image.TypeError end;
  WindowLevel_equals := λ a b, bool_decide (Some a = b);
  getOrigin := λ g, head (origins g);
  getSliceIndex := λ g _, slices (getSize g);
  appendOrigin := λ o _ g,
    mkGeometry
      (mkSize (cols (getSize g)) (rows (getSize g))
         (slices (getSize g) + 1) (higher (getSize g)))
      (getOrientation g)
      (origins g ++ match o with Some o => [o] | None => [] end);
  Geometry_appendFrame := λ g,
    mkGeometry
      (mkSize (cols (getSize g)) (rows (getSize g)) (slices (getSize g))
         (match higher (getSize g) with
          | frames :: rest => frames + 1 :: rest
          | [] => [2]
          end))
      (getOrientation g) (origins g);
  getTypedArray := λ bits signed size,
    match typedArrayKind bits signed with
    | Some kind =>
        if toInteger size <? 0 then Ok None
        else Ok (Some (kind, replicate (Z.to_nat (toInteger size)) 0%Qc))
    | None => Ok None
    end;
  stringToNumber := λ _, JNaN;
  numberToString := λ _, EmptyString
|}.

Definition identity33 : Matrix33 :=
  mkMatrix33 (Qc_of_Z <$> [1; 0; 0; 0; 1; 0; 0; 0; 1]).

Definition origin0 : Point3D := mkPoint3D 0 0 0.

(** A store holding one geometry of the given size, one buffer (an
    [Int16Array]) and one UID array, all at location 1, and no image yet. *)
Definition world (size : Size) (samples : list Z) : Store :=
  mkStore ∅ {[ 1%positive := Qc_of_Z <$> samples ]}
    {[ 1%positive := mkGeometry size identity33 [origin0] ]}
    {[ 1%positive := [Some "1.2.3"%string] ]} ∅
    {[ 1%positive := Int16 ]}.

(** The same store after [new dwv.image.Image(geometry, buffer, uids)];
    the image is at location 1. *)
Definition worldWithImage (size : Size) (samples : list Z) : Store :=
  snd (Image_new 1%positive 1%positive 1%positive
         (world size samples)).

(** A store for appending a slice: two single-slice geometries with their
    buffers and UID arrays (locations 1 and 2), a meta object announcing two
    files (location 1), and no image yet. *)
Definition twoSlices : Store :=
  mkStore ∅
    {[ 1%positive := [Qc_of_Z 7]; 2%positive := [Qc_of_Z 9] ]}
    {[ 1%positive := mkGeometry (mkSize 1 1 1 []) identity33 [origin0];
       2%positive :=
         mkGeometry (mkSize 1 1 1 []) identity33 [mkPoint3D 0 0 1] ]}
    {[ 1%positive := [Some "1.2.3"%string];
       2%positive := [Some "1.2.4"%string] ]}
    {[ 1%positive := mkMeta [("numberOfFiles"%string, MNum (Qc_of_Z 2))]
                       None ]}
    {[ 1%positive := Int16; 2%positive := Int16 ]}.

(** A store for appending frames: a geometry of two slices of 2 x 1
    voxels with a buffer of four samples (an [Int16Array]) and a UID array,
    a meta object announcing two files, all at location 1, and no image
    yet. *)
Definition twoFrames : Store :=
  mkStore ∅ {[ 1%positive := Qc_of_Z <$> [7; 8; 0; 0] ]}
    {[ 1%positive := mkGeometry (mkSize 2 1 2 []) identity33 [origin0] ]}
    {[ 1%positive := [Some "1.2.3"%string] ]}
    {[ 1%positive := mkMeta [("numberOfFiles"%string, MNum (Qc_of_Z 2))]
                       None ]}
    {[ 1%positive := Int16 ]}.





End Sample.

(** ** Vocabulary of the statements *)

Module Props.
Import JS Geom Image Iterator Planner.

(** The [end] an iterator was created with. *)
Definition endOf (it : iterator) : Z :=
  match it with
  | ItSimpleRange s => sr_end s
  | ItRange s => r_end s
  | ItRangeRegion s => rr_end s
  | ItRangeRegions s => rs_end s
  | ItRange3d s => r3_end s
  end.

(** The single-component primitives whose loop test is [nextIndex < end]. *)
Definition testsBelowEnd (it : iterator) : bool :=
  match it with
  | ItSimpleRange _ | ItRangeRegion _ | ItRangeRegions _ => true
  | ItRange _ | ItRange3d _ => false
  end.

(** The values a pull emitted, if any. *)
Definition emitted {A} (r : iterResult (A:=A)) : option (list A) :=
  match r with
  | Yield v => Some [v]
  | Yield3 v0 v1 v2 => Some [v0; v1; v2]
  | _ => None
  end.

(** What a consumer observes of a pull: the accessor calls and the emitted
    values. *)
Definition observation {A} (p : pull (A:=A)) : list Z * option (list A) :=
  (calls p, emitted (result p)).

Section planner_vocabulary.
Context `{collab : Collaborators}.

(** The start offset [getSliceIterator] computes: the position with every
    coordinate but the through-plane one zeroed, as a flat offset. *)
Definition sliceStart (g : Geometry) (position : Index)
    (viewOrientation : option Matrix33) : Z :=
  let dirMax2Index :=
    match viewOrientation with
    | Some v => getColAbsMax_index v 2
    | None => 2
    end in
  indexToOffset g
    (imap (λ (index : nat) (element : Z),
             if Z.of_nat index =? dirMax2Index then element else 0)
       position).

Definition sliceAccessor (image : loc) (isRescaled : option bool)
    : accessor :=
  if default false isRescaled then RescaledAccessor image
  else RawAccessor image.

End planner_vocabulary.

(** *** Closed forms of traversals *)

(** The number of terms of [start, start + inc, ...] that lie below
    [end_]. *)
Definition stepsBelow (start end_ inc : Z) : Z :=
  Z.max 0 ((end_ - start + inc - 1) / inc).

(** The primitives that emit one value per pull. *)
Definition isScalar (it : iterator) : bool :=
  match it with ItRange3d _ => false | _ => true end.

(** The offsets of a rectangle of [height] rows of [width] samples, rows
    [stride] apart, in row-major order. *)
Definition rectangleOffsets (start width stride : Z) (height : nat)
    : list Z :=
  mjoin ((λ r : nat, seqZ (start + Z.of_nat r * stride) width) <$>
           seq 0 height).

(** The component stride and the step of [range3d], as its constructor
    derives them from [increment] and [isPlanar]. *)
Definition range3dStride (start end_ : Z) (isPlanar : option bool) : Z :=
  if default false isPlanar then (end_ - start) / 3 else 1.

Definition range3dStep (increment : option Z) (isPlanar : option bool) : Z :=
  if default false isPlanar then default 1 increment
  else default 1 increment * 3.

(** The leading offset [off0] of the first of [regions], 0 when there is
    none. *)
Definition leadingOffset (regions : list (Z * Z * Z)) : Z :=
  match regions with
  | (off0, _, _) :: _ => off0
  | [] => 0
  end.

(** The offsets of the regions [[off0, size, off1]] laid out from [p]: the
    [size] samples of a region, then its trailing offset and the leading
    offset of the next region. *)
Fixpoint regionsOffsets (p : Z) (regions : list (Z * Z * Z)) : list Z :=
  match regions with
  | [] => []
  | (_, size, off1) :: rest =>
      seqZ p size ++
      regionsOffsets (p + size + off1 + leadingOffset rest) rest
  end.

(** The index reached after the last of the regions laid out from [p]. *)
Fixpoint regionsEnd (p : Z) (regions : list (Z * Z * Z)) : Z :=
  match regions with
  | [] => p
  | (_, size, off1) :: rest =>
      regionsEnd (p + size + off1 + leadingOffset rest) rest
  end.

Section pull_vocabulary.
Context {A : Type} (acc : Z → A).

(** The iterator after one pull. *)
Definition step (it : iterator) : iterator := after (next acc it).

(** What a consumer observes of a pull that emits the sample at [o]. *)
Definition yields (o : Z) : list Z * option (list A) := ([o], Some [acc o]).

End pull_vocabulary.

(** The triple [[off0, size, off1]] that [getVariableRegionSliceIterator]
    derives from a region in a grid of [ncols] columns. *)
Definition regionOffsets (ncols : Z) (region : Region) : Z * Z * Z :=
  (region.1.1, region.2.1 - region.1.1, ncols - region.2.1).

Definition isEmptyRegion (region : Region) : bool :=
  region.2.1 - region.1.1 =? 0.


(** *** Runs of the public interface *)

(** A call of the public interface of an image that changes the store, or
    a change that the rest of the program makes to the objects it shares
    with images (typed arrays, geometries, UID arrays, meta objects). The
    methods that are not listed leave the store as it is (the getters, the
    value accessors, [calculateDataRange], [calculateHistogram] and the
    iterator planners) or make a [clone()] and then write through the buffer
    reference of the clone ([transform], [compose], [convolute2D]), which is
    a [CallClone] followed by a [CallOutside]; [convoluteBuffer] writes to
    the array it is given, a [CallOutside]. Event listeners are code of the
    caller: what they do are further calls. *)
Inductive call :=
| CallNew (geometry buffer imageUids : loc)
| CallSetRescaleSlopeAndIntercept (this : loc) (inRsi : rsival)
    (offset : jsval)
| CallAppendSlice (this : loc) (rhs : option loc) (timeId : option Z)
| CallClone (this : loc)
| CallSetPhotometricInterpretation (this : loc) (interp : string)
| CallSetPlanarConfiguration (this : loc) (config : Z)
| CallSetMeta (this rhs : loc)
| CallGetDataRange (this : loc)
| CallGetRescaledDataRange (this : loc)
| CallCalculateRescaledDataRange (this : loc)
| CallGetHistogram (this : loc)
| CallAppendFrameBuffer (this : loc) (frameBuffer : list Qc)
    (frameIndex : jsval)
| CallAppendFrame (this : loc)
| CallOutside (buffers : gmap loc (list Qc))
    (geometries : gmap loc Geometry)
    (uidArrays : gmap loc (list (option string)))
    (metas : gmap loc Meta)
    (kinds : gmap loc elemKind).

Section runs.
Context `{collab : Collaborators}.

(** The store after a call, whether it returned or threw. *)
Definition exec (c : call) (st : Store) : Store :=
  match c with
  | CallNew g b u => snd (Image_new g b u st)
  | CallSetRescaleSlopeAndIntercept this inRsi offset =>
      snd (setRescaleSlopeAndIntercept this inRsi offset st)
  | CallAppendSlice this rhs timeId => snd (appendSlice this rhs timeId st)
  | CallClone this => snd (clone this st)
  | CallSetPhotometricInterpretation this interp =>
      snd (setPhotometricInterpretation this interp st)
  | CallSetPlanarConfiguration this config =>
      snd (setPlanarConfiguration this config st)
  | CallSetMeta this rhs => snd (setMeta this rhs st)
  | CallGetDataRange this => snd (getDataRange this st)
  | CallGetRescaledDataRange this => snd (getRescaledDataRange this st)
  | CallCalculateRescaledDataRange this =>
      snd (calculateRescaledDataRange this st)
  | CallGetHistogram this => snd (getHistogram this st)
  | CallAppendFrameBuffer this frameBuffer frameIndex =>
      snd (appendFrameBuffer this frameBuffer frameIndex st)
  | CallAppendFrame this => snd (appendFrame this st)
  | CallOutside b g u m k => mkStore (images st) b g u m k
  end.

Definition run (cs : list call) (st : Store) : Store :=
  foldl (λ st c, exec c st) st cs.

(** The stores a program can reach: it starts without any image and makes
    calls. *)
Definition reachable (st : Store) : Prop :=
  ∃ st0 cs, images st0 = ∅ ∧ st = run cs st0.

End runs.

Section validation.
Context `{collab : Collaborators}.

(** A candidate slice [rhs] fails one of the checks of [appendSlice]: it is
    not exactly one slice, its column or row count, orientation or
    photometric interpretation differs, a key of the image's meta (other
    than [windowPresets] and [numberOfFiles]) has a different value or no
    value in the slice's meta, or the image's meta has no
    [numberOfFiles]. *)
Definition failsValidation (st : Store) (this rhs : loc) : Prop :=
  let i := images st !!! this in
  let r := images st !!! rhs in
  let g := geometries st !!! geometry i in
  let rhsGeometry := geometries st !!! geometry r in
  let m := metas st !!! meta i in
  let rm := metas st !!! meta r in
  get (getSize rhsGeometry) 2 ≠ 1 ∨
  get (getSize g) 0 ≠ get (getSize rhsGeometry) 0 ∨
  get (getSize g) 1 ≠ get (getSize rhsGeometry) 1 ∨
  Matrix33_equals (getOrientation g) (getOrientation rhsGeometry)
    (Q2Qc (1 # 10000)) = false ∨
  photometricInterpretation i ≠ photometricInterpretation r ∨
  (∃ key, key ∈ meta_keys m ∧ key ≠ "windowPresets"%string ∧
          key ≠ "numberOfFiles"%string ∧ meta_get m key ≠ meta_get rm key) ∨
  meta_get m "numberOfFiles" = None.

End validation.

(** The messages of the errors the checks of [appendSlice] throw. *)
Definition validationMessage (msg : string) : Prop :=
  msg ∈ [ "Cannot append more than one slice";
          "Cannot append a slice with different number of columns";
          "Cannot append a slice with different number of rows";
          "Cannot append a slice with different orientation";
          "Cannot append a slice with different photometric interpretation";
          "Missing number of files for buffer manipulation." ]%string ∨
  ∃ key, msg = ("Cannot append a slice with different " +:+ key)%string.

(** The RSI variables of an image are consistent: the image is in constant
    mode, no per-offset array exists, and the identity flag is only set
    when [rsi] holds an RSI object that is the identity. *)
Definition rsiConsistent (i : ImageData) : Prop :=
  isConstantRSI i = true ∧ rsis i = None ∧
  (isIdentityRSI i = true → ∃ r, rsi i = RVRsi r ∧ isID r = true).

Definition allImages (P : ImageData → Prop) (st : Store) : Prop :=
  ∀ l i, images st !! l = Some i → P i.

(** A method body relates the store it starts from to the store it leaves,
    on return and on throw. *)
Definition steps {X} (R : relation Store) (m : M X) : Prop :=
  ∀ st, R st (snd (m st)).

(** Keeping a property of the store, as a relation. *)
Definition keeps (I : Store → Prop) : relation Store :=
  λ st st', I st → I st'.

Definition preserves {X} (I : Store → Prop) (m : M X) : Prop :=
  steps (keeps I) m.

(** Two images that differ at most in their RSI variables. *)
Definition sameExceptRSI (i i' : ImageData) : Prop :=
  geometry i' = geometry i ∧ buffer i' = buffer i ∧
  imageUids i' = imageUids i ∧
  photometricInterpretation i' = photometricInterpretation i ∧
  planarConfiguration i' = planarConfiguration i ∧
  numberOfComponents i' = numberOfComponents i ∧ meta i' = meta i ∧
  dataRange i' = dataRange i ∧ rescaledDataRange i' = rescaledDataRange i ∧
  histogram i' = histogram i.

(** Two images with the same buffer, geometry, UID array, component count
    and caches. *)
Definition sameData (i i' : ImageData) : Prop :=
  geometry i' = geometry i ∧ buffer i' = buffer i ∧
  imageUids i' = imageUids i ∧
  numberOfComponents i' = numberOfComponents i ∧
  dataRange i' = dataRange i ∧ rescaledDataRange i' = rescaledDataRange i ∧
  histogram i' = histogram i.

(** Two stores that differ at most in the private variables of one image,
    and there only as [Rel] allows. *)
Definition touchesOnly (Rel : relation ImageData) (this : loc)
    : relation Store :=
  λ st st',
    buffers st' = buffers st ∧ geometries st' = geometries st ∧
    uidArrays st' = uidArrays st ∧ metas st' = metas st ∧
    kinds st' = kinds st ∧
    ∀ l, if decide (l = this)
         then option_Forall2 Rel (images st !! l) (images st' !! l)
         else images st' !! l = images st !! l.

(** Two stores that differ at most in the RSI variables of one image. *)
Definition onlyRSI (this : loc) : relation Store :=
  touchesOnly sameExceptRSI this.

(** Two stores with the same images, private variable by private
    variable. *)
Definition sameImages : relation Store :=
  λ st st', images st' = images st.

(** Every value a method body returns satisfies [P]. *)
Definition returns {X} (P : X → Prop) (m : M X) : Prop :=
  ∀ st x st', m st = (Ok x, st') → P x.

(** [buffer[o]] as a value. *)
Definition readSample (a : list Qc) (o : Z) : jsval :=
  match array_get a o with
  | Some q => JNum q
  | None => JUndefined
  end.

(** The running minimum and maximum of [calculateDataRange] over the
    offsets [l], from the pair [mm]. *)
Definition scanRange (a : list Qc) (l : list Z) (mm : jsval * jsval)
    : jsval * jsval :=
  foldl (λ '(min, max) k,
           let value := readSample a k in
           (if js_lt value min then value else min,
            if js_gt value max then value else max)) mm l.

(** The number of offsets [calculateDataRange] scans. *)
Definition dataRangeLength (size : Size) : Z :=
  if 3 <=? Size_length size then getDimSize size 3 else getTotalSize size.

(** The range [calculateDataRange] computes from the buffer content [a]. *)
Definition dataRangeOf (a : list Qc) (size : Size) : Range :=
  let mm :=
    scanRange a (seqZ 0 (dataRangeLength size))
      (readSample a 0, readSample a 0) in
  mkRange (fst mm) (snd mm).

(** The store after a list of writes [buffer[k] = v] through one buffer
    reference. *)
Definition writeAll (b : option loc) (writes : list (Z * jsval)) (st : Store)
    : Store :=
  foldl (λ st '(k, v), snd (writeBuffer b k v st)) st writes.

(** The offsets of [rows] runs of [countMax] samples: run [r] starts at
    [first + r * rowStep] and its samples are [inc] apart. *)
Definition gridOffsets (first inc countMax rowStep rows : Z) : list Z :=
  mjoin ((λ r, (λ c, first + r * rowStep + c * inc) <$> seqZ 0 countMax) <$>
           seqZ 0 rows).

(** The first index, the increment and the step from one run to the next
    that [range] derives from its arguments. *)
Definition rangeFirst (start end_ inc countMax : Z) (reverse1 reverse2 : bool)
    : Z :=
  match reverse1, reverse2 with
  | false, false => start
  | false, true => start + (countMax - 1) * inc
  | true, false => end_
  | true, true => end_ - (countMax - 1) * inc
  end.

Definition rangeIncrement (inc : Z) (reverse1 reverse2 : bool) : Z :=
  if xorb reverse1 reverse2 then - inc else inc.

Definition rangeRowStep (countIncrement : Z) (reverse1 : bool) : Z :=
  if reverse1 then - countIncrement else countIncrement.

(** The loop test of [range]. *)
Definition rangeTest (start end_ : Z) (reverse1 : bool) (i : Z) : bool :=
  if reverse1 then start <=? i else i <=? end_.


(** The integers an element of kind [k] can hold, and the samples that are
    such integers. *)
Definition fitsKind (k : elemKind) (n : Z) : Prop :=
  if isSignedKind k
  then - 2 ^ (bytesPerElement k * 8 - 1) ≤ n < 2 ^ (bytesPerElement k * 8 - 1)
  else 0 ≤ n < 2 ^ (bytesPerElement k * 8).

Definition sampleFits (k : elemKind) (q : Qc) : Prop :=
  ∃ n, q = Qc_of_Z n ∧ fitsKind k n.

(** The array after the loop that assigns, for each index [k] of [l] in
    turn, the value [f k cur] computed from the current content. *)
Definition writeEach (kind : elemKind) (f : Z → list Qc → jsval)
    (l : list Z) (cur : list Qc) : list Qc :=
  foldl (λ cur k, typedArray_write kind cur k (f k cur)) cur l.

(** The number of offsets in [l] at which the array [a] holds [v]. *)
Definition countSamples (a : list Qc) (l : list Z) (v : Qc) : Z :=
  Z.of_nat (length (filter (λ o, array_get a o = Some v) l)).

End Props.

(** ** Properties of the traversal primitives *)

Import JS Geom Image Iterator Planner Props.

Section iterator_facts.
Context {A : Type} (acc : Z → A).

Lemma next_done_fixpoint (it : iterator) :
  isDone (result (next acc it)) = true →
  calls (next acc it) = [] ∧ after (next acc it) = it.
Proof.
  destruct it as [s|s|s|s|s]; simpl.
  - unfold simpleRange_next. destruct (_ <? _); simpl; [discriminate | done].
  - unfold range_next. destruct (testIndex _ _); simpl; [|done].
    destruct (_ =? _); simpl; discriminate.
  - unfold rangeRegion_next. destruct (_ <? _); simpl; [|done].
    destruct (_ =? _); simpl; discriminate.
  - unfold rangeRegions_next. destruct (_ <? _); simpl; [|done].
    destruct (rs_regions s !! rs_regionCount s) as [[[o0 sz] o1]|]; simpl;
      [|discriminate].
    destruct (_ =? _); simpl; discriminate.
  - unfold range3d_next. destruct (_ <? _); simpl; [discriminate | done].
Qed.

Lemma pulls_after_done (it : iterator) (n : nat) :
  isDone (result (next acc it)) = true →
  Forall (λ p, isDone (result p) = true ∧ calls p = []) (pulls acc n it).
Proof.
  intros Hd. destruct (next_done_fixpoint it Hd) as [Hc Ha].
  induction n as [|n IH]; simpl; [constructor|].
  constructor; [done|]. by rewrite Ha.
Qed.

Lemma calls_below_end (it : iterator) (i : Z) :
  testsBelowEnd it = true → i ∈ calls (next acc it) → i < endOf it.
Proof.
  destruct it as [s|s|s|s|s]; simpl; try discriminate; intros _.
  - unfold simpleRange_next. destruct (Z.ltb_spec (sr_nextIndex s) (sr_end s));
      simpl; intros Hi; [|by apply elem_of_nil in Hi].
    apply list_elem_of_singleton in Hi. by subst.
  - unfold rangeRegion_next. destruct (Z.ltb_spec (rr_nextIndex s) (rr_end s));
      simpl; intros Hi; [|by apply elem_of_nil in Hi].
    destruct (_ =? _); simpl in Hi; apply list_elem_of_singleton in Hi;
      by subst.
  - unfold rangeRegions_next.
    destruct (Z.ltb_spec (rs_nextIndex s) (rs_end s)); simpl; intros Hi;
      [|by apply elem_of_nil in Hi].
    destruct (rs_regions s !! rs_regionCount s) as [[[o0 sz] o1]|];
      [destruct (_ =? _)|]; simpl in Hi;
      apply list_elem_of_singleton in Hi; by subst.
Qed.

Lemma range_calls_within (s : rangeState) (i : Z) :
  i ∈ calls (next acc (ItRange s)) →
  if r_reverse1 s then r_start s ≤ i else i ≤ r_end s.
Proof.
  simpl. unfold range_next, testIndex.
  destruct (r_reverse1 s).
  - destruct (Z.leb_spec (r_start s) (r_nextIndex s)); simpl; intros Hi;
      [|by apply elem_of_nil in Hi].
    destruct (_ =? _); simpl in Hi; apply list_elem_of_singleton in Hi;
      by subst.
  - destruct (Z.leb_spec (r_nextIndex s) (r_end s)); simpl; intros Hi;
      [|by apply elem_of_nil in Hi].
    destruct (_ =? _); simpl in Hi; apply list_elem_of_singleton in Hi;
      by subst.
Qed.

Lemma range_forward_first_pull (start end_ inc countMax countInc : Z) :
  start ≤ end_ →
  let p := next acc (range start end_ inc countMax countInc None None) in
  calls p = [start] ∧ result p = Yield (acc start).
Proof.
  intros Hle p. subst p. cbn. unfold range_next, testIndex. cbn.
  destruct (Z.leb_spec start end_); [|lia].
  by destruct (0 + 1 =? countMax).
Qed.

Lemma range3d_first_component (s : range3dState) (i : Z) :
  head (calls (next acc (ItRange3d s))) = Some i → i < r3_end s.
Proof.
  simpl. unfold range3d_next.
  destruct (Z.ltb_spec (r3_nextIndex s) (r3_end s)); simpl; [|discriminate].
  intros [= <-]. done.
Qed.

(** The forward counted range whose count increment is contiguous walks
    like a simple range: same offsets, same values, pull by pull. *)
Lemma range_contiguous_pulls
    (start end_ inc countMax nextIndex count : Z) (n : nat) :
  observation <$>
    pulls acc n
      (ItRange (RangeState start end_ inc countMax 0 false nextIndex count)) =
  observation <$>
    pulls acc n (ItSimpleRange (SimpleRangeState (end_ + 1) inc nextIndex)).
Proof.
  revert nextIndex count.
  induction n as [|n IH]; intros nextIndex count; [done|].
  simpl. unfold range_next, simpleRange_next, testIndex. simpl.
  destruct (Z.leb_spec nextIndex end_), (Z.ltb_spec nextIndex (end_ + 1));
    try lia; simpl.
  - destruct (count + 1 =? countMax); simpl; f_equal;
      rewrite ?Z.add_0_r; apply IH.
  - f_equal. apply IH.
Qed.

Lemma range_contiguous_values
    (start end_ inc countMax nextIndex count : Z) (fuel : nat) :
  getIteratorValues acc fuel
    (ItRange (RangeState start end_ inc countMax 0 false nextIndex count)) =
  getIteratorValues acc fuel
    (ItSimpleRange (SimpleRangeState (end_ + 1) inc nextIndex)).
Proof.
  revert nextIndex count.
  induction fuel as [|fuel IH]; intros nextIndex count; [done|].
  simpl. unfold range_next, simpleRange_next, testIndex. simpl.
  destruct (Z.leb_spec nextIndex end_), (Z.ltb_spec nextIndex (end_ + 1));
    try lia; simpl; [|done].
  destruct (count + 1 =? countMax); simpl; f_equal;
    rewrite ?Z.add_0_r; apply IH.
Qed.

(** A simple range with a positive increment is drained within
    [end - nextIndex] pulls (plus the one that reports done). *)
Lemma simpleRange_drains (end_ inc nextIndex : Z) (fuel : nat) :
  0 < inc → (0 < fuel)%nat → end_ - nextIndex < Z.of_nat fuel →
  is_Some (getIteratorValues acc fuel
             (ItSimpleRange (SimpleRangeState end_ inc nextIndex))).
Proof.
  intros Hinc. revert nextIndex.
  induction fuel as [|fuel IH]; intros nextIndex Hpos Hf; [lia|].
  simpl. unfold simpleRange_next. simpl.
  destruct (Z.ltb_spec nextIndex end_); simpl; [|by eexists].
  destruct (IH (nextIndex + inc)) as [l Hl]; [lia..|].
  rewrite Hl. by eexists.
Qed.

End iterator_facts.

(** C2 (amended). The end bound is exclusive for [simpleRange],
    [rangeRegion] and [rangeRegions]: in every state a pull only hands the
    accessor offsets below [end], and [start = end] makes the first pull
    done. [range] tests [nextIndex <= end] (or [nextIndex >= start] when
    [reverse1]): its end is inclusive, every offset it reads lies within
    that bound, and a forward range with [start <= end] (so also
    [start = end]) emits the value at [start] on its first pull. [range3d]
    reads the first component of a triple below [end] and is done at once
    when [start = end]. For all five, once a pull reports done every later
    pull reports done and calls the accessor on nothing. *)
Theorem traversal_end_bounds {A : Type} (acc : Z → A) :
  (∀ it i, testsBelowEnd it = true →
           i ∈ calls (next acc it) → i < endOf it) ∧
  (∀ s i, i ∈ calls (next acc (ItRange s)) →
          if r_reverse1 s then r_start s ≤ i else i ≤ r_end s) ∧
  (∀ start end_ inc countMax countInc,
     start ≤ end_ →
     let p := next acc (range start end_ inc countMax countInc None None) in
     calls p = [start] ∧ result p = Yield (acc start)) ∧
  (∀ s i, head (calls (next acc (ItRange3d s))) = Some i → i < r3_end s) ∧
  (∀ start inc,
     let it := simpleRange start start inc in
     next acc it = Pull [] (Done start) it) ∧
  (∀ start inc regionSize regionOffset,
     let it := rangeRegion start start inc regionSize regionOffset in
     next acc it = Pull [] (Done start) it) ∧
  (∀ start inc regions,
     let it := rangeRegions start start inc regions in
     next acc it = Pull [] (Done start) it) ∧
  (∀ start inc isPlanar,
     let it := range3d start start inc isPlanar in
     next acc it = Pull [] (Done3 [start]) it) ∧
  (∀ it n, isDone (result (next acc it)) = true →
           Forall (λ p, isDone (result p) = true ∧ calls p = [])
             (pulls acc n it)).
Proof.
  repeat split.
  - apply calls_below_end.
  - apply range_calls_within.
  - by apply range_forward_first_pull.
  - by apply range_forward_first_pull.
  - apply range3d_first_component.
  - intros start inc it. subst it. cbn. unfold simpleRange_next. cbn.
    by rewrite Z.ltb_irrefl.
  - intros start inc rs ro it. subst it. cbn. unfold rangeRegion_next. cbn.
    by rewrite Z.ltb_irrefl.
  - intros start inc regions it. subst it. cbn. unfold rangeRegions_next.
    cbn. by rewrite Z.ltb_irrefl.
  - intros start inc isPlanar it. subst it. unfold range3d.
    destruct (default false isPlanar); cbn; unfold range3d_next; cbn;
      by rewrite Z.ltb_irrefl.
  - intros it n. apply pulls_after_done.
Qed.

(** C2, as stated, fails for [range]: with [start = end = 0] the first pull
    is not done, and it reads the accessor at offset [end]. *)
Lemma range_start_eq_end_reads_end :
  let p := next (λ i : Z, i) (range 0 0 1 1 1 None None) in
  isDone (result p) = false ∧ calls p = [0] ∧ result p = Yield 0.
Proof. by vm_compute. Qed.

(** C3 (amended). With [reverse1 = reverse2 = false] and a contiguous count
    increment ([countIncrement = countMax * increment], in particular for
    [countMax = end - start]) the counted range reads the same offsets and
    emits the same values, pull by pull, as
    [simpleRange(accessor, start, end + 1, increment)]: the end of [range]
    is inclusive. Draining both with [getIteratorValues] under any budget
    gives the same result, and for a positive increment a positive budget
    above [end + 1 - start] drains them completely. *)
Theorem range_reduces_to_simpleRange_inclusive {A : Type} (acc : Z → A)
    (start end_ inc countMax : Z) (n : nat) :
  let counted :=
    range start end_ inc countMax (countMax * inc) (Some false) (Some false) in
  let simple := simpleRange start (end_ + 1) (Some inc) in
  observation <$> pulls acc n counted = observation <$> pulls acc n simple ∧
  getIteratorValues acc n counted = getIteratorValues acc n simple ∧
  (0 < inc ∧ (0 < n)%nat ∧ end_ + 1 - start < Z.of_nat n →
   is_Some (getIteratorValues acc n counted)).
Proof.
  intros counted simple. subst counted simple.
  unfold range, simpleRange. cbn. rewrite Z.sub_diag.
  split; [apply range_contiguous_pulls|].
  split; [apply range_contiguous_values|].
  intros (Hinc & Hpos & Hn). rewrite range_contiguous_values.
  by apply simpleRange_drains.
Qed.

(** C3, as stated, fails: for [start = 0], [end = 1], [increment = 1],
    [countMax = end - start] the counted range emits the values at offsets
    0 and 1, the simple range only the one at offset 0. *)
Lemma range_differs_from_simpleRange :
  getIteratorValues (λ i : Z, i) 5
    (range 0 1 1 (1 - 0) ((1 - 0) * 1) (Some false) (Some false)) =
    Some [Yield 0; Yield 1] ∧
  getIteratorValues (λ i : Z, i) 5 (simpleRange 0 1 (Some 1)) =
    Some [Yield 0].
Proof. by vm_compute. Qed.

(** ** Properties of the slice-iterator planners *)

Section planner_facts.
Context `{collab : Collaborators}.

Lemma getSliceIterator_three_components (st : Store) (image : loc)
    (position : Index) (isRescaled : option bool)
    (viewOrientation : option Matrix33) :
  let i := images st !!! image in
  let g := geometries st !!! geometry i in
  let start := sliceStart g position viewOrientation * 3 in
  numberOfComponents i = Qc_of_Z 3 →
  getSliceIterator image position isRescaled viewOrientation st =
  (Ok (mkSliceIterator (sliceAccessor image isRescaled)
         (range3d start (start + getDimSize (getSize g) 2 * 3) (Some 1)
            (Some (planarConfiguration i =? 1)))), st).
Proof.
  intros i g start Hn.
  unfold getSliceIterator, bind, theImage, theGeometry, gets, ret.
  fold i. fold g. rewrite Hn.
  rewrite bool_decide_eq_false_2; [|by vm_compute].
  by rewrite bool_decide_eq_true_2.
Qed.

Lemma getSliceIterator_unsupported (st : Store) (image : loc)
    (position : Index) (isRescaled : option bool)
    (viewOrientation : option Matrix33) :
  let n := numberOfComponents (images st !!! image) in
  n ≠ Qc_of_Z 1 → n ≠ Qc_of_Z 3 →
  getSliceIterator image position isRescaled viewOrientation st =
  (Throw ("Unsupported number of components: " +:+ numberToString n), st).
Proof.
  intros n H1 H3.
  unfold getSliceIterator, bind, theImage, theGeometry, gets, throw.
  fold n. by rewrite !bool_decide_eq_false_2.
Qed.

End planner_facts.

(** C1 (amended). For an image with 3 components, [getSliceIterator] with an
    explicit [viewOrientation] does not fail: it returns the [range3d]
    iterator over the slice block scaled by 3, starting at three times the
    offset of the through-plane position, planar or interleaved as the
    image's planar configuration says. For every component count other
    than 1 and 3, and with any or no [viewOrientation], it throws the
    "Unsupported number of components" error and leaves the store
    unchanged. *)
Theorem getSliceIterator_component_counts `{collab : Collaborators}
    (st : Store) (image : loc) (position : Index)
    (isRescaled : option bool) :
  let i := images st !!! image in
  let g := geometries st !!! geometry i in
  (∀ viewOrientation : Matrix33,
     let start := sliceStart g position (Some viewOrientation) * 3 in
     numberOfComponents i = Qc_of_Z 3 →
     getSliceIterator image position isRescaled (Some viewOrientation) st =
     (Ok (mkSliceIterator (sliceAccessor image isRescaled)
            (range3d start (start + getDimSize (getSize g) 2 * 3) (Some 1)
               (Some (planarConfiguration i =? 1)))), st)) ∧
  (∀ viewOrientation : option Matrix33,
     numberOfComponents i ≠ Qc_of_Z 1 → numberOfComponents i ≠ Qc_of_Z 3 →
     getSliceIterator image position isRescaled viewOrientation st =
     (Throw ("Unsupported number of components: " +:+
             numberToString (numberOfComponents i)), st)).
Proof.
  intros i g. split.
  - intros viewOrientation. apply getSliceIterator_three_components.
  - intros viewOrientation. apply getSliceIterator_unsupported.
Qed.

(** C1, as stated, fails: a 3-component image (one voxel, samples 5, 6, 7)
    asked for its slice iterator with an explicit orientation gets a
    [range3d] iterator, not an error. *)
Lemma getSliceIterator_three_components_no_error :
  let st := Sample.worldWithImage (mkSize 1 1 1 []) [5; 6; 7] in
  numberOfComponents (images st !!! 1%positive) = Qc_of_Z 3 ∧
  getSliceIterator (collab := Sample.collaborators) 1%positive [0; 0; 0]
    None (Some Sample.identity33) st =
  (Ok (mkSliceIterator (RawAccessor 1%positive)
         (range3d 0 3 (Some 1) (Some false))), st).
Proof.
  split; [apply (bool_decide_unpack _)|]; by vm_compute.
Qed.

(** C7 at a 2 x 2 single-slice image with samples 10, 20, 30, 40 and no
    [min]/[max]: the planner builds [rangeRegion(0, 4, 1, 1, 1)], whose drain
    visits offsets 0 and 2 only; offsets 1 and 3 (the last column) are
    skipped. *)
Lemma getRegionSliceIterator_default_skips_last_column :
  let st := Sample.worldWithImage (mkSize 2 2 1 []) [10; 20; 30; 40] in
  let planned :=
    getRegionSliceIterator (collab := Sample.collaborators) 1%positive
      [0; 0; 0] None None None st in
  planned =
    (Ok (mkSliceIterator (RawAccessor 1%positive) (rangeRegion 0 4 1 1 1)),
     st) ∧
  visitedOffsets (dataAccessor (RawAccessor 1%positive) st) 10
    (rangeRegion 0 4 1 1 1) = Some [0; 2] ∧
  getIteratorValues (dataAccessor (RawAccessor 1%positive) st) 10
    (rangeRegion 0 4 1 1 1) =
    Some [Yield (Ok (JNum (Qc_of_Z 10))); Yield (Ok (JNum (Qc_of_Z 30)))].
Proof. by vm_compute. Qed.

(** ** Reasoning about method bodies *)

#[global] Instance keeps_preorder (I : Store → Prop) : PreOrder (keeps I).
Proof.
  split.
  - intros st HI. exact HI.
  - intros st1 st2 st3 H1 H2 HI. apply H2, H1, HI.
Qed.

#[global] Instance sameExceptRSI_preorder : PreOrder sameExceptRSI.
Proof.
  split.
  - by intros i.
  - intros i1 i2 i3 Ha Hb. unfold sameExceptRSI in *.
    destruct Ha as (?&?&?&?&?&?&?&?&?&?), Hb as (?&?&?&?&?&?&?&?&?&?).
    repeat split; congruence.
Qed.

#[global] Instance sameData_preorder : PreOrder sameData.
Proof.
  split.
  - by intros i.
  - intros i1 i2 i3 Ha Hb. unfold sameData in *.
    destruct Ha as (?&?&?&?&?&?&?), Hb as (?&?&?&?&?&?&?).
    repeat split; congruence.
Qed.

#[global] Instance touchesOnly_preorder (Rel : relation ImageData)
    `{!PreOrder Rel} (this : loc) : PreOrder (touchesOnly Rel this).
Proof.
  split.
  - intros st. repeat split; try done. intros l.
    destruct (decide _); [|done].
    destruct (images st !! l); by constructor.
  - intros st1 st2 st3 (?&?&?&?&?&Ha) (?&?&?&?&?&Hb).
    split; [congruence|]. split; [congruence|]. split; [congruence|].
    split; [congruence|]. split; [congruence|]. intros l.
    specialize (Ha l). specialize (Hb l).
    destruct (decide _); [|congruence].
    destruct Ha as [i1 i2 H12|]; inversion Hb as [i2' i3 H23|]; subst;
      constructor.
    by etrans.
Qed.

#[global] Instance onlyRSI_preorder (this : loc) : PreOrder (onlyRSI this).
Proof. unfold onlyRSI. apply _. Qed.

Section steps.
Context (R : relation Store) `{!PreOrder R}.

Lemma steps_ret {X} (x : X) : steps R (ret x).
Proof. by intros st. Qed.

Lemma steps_throw {X} (msg : string) : steps R (throw (X:=X) msg).
Proof. by intros st. Qed.

Lemma steps_gets {X} (f : Store → X) : steps R (gets f).
Proof. by intros st. Qed.

Lemma steps_bind {X Y} (m : M X) (k : X → M Y) :
  steps R m → (∀ x, steps R (k x)) → steps R (bind m k).
Proof.
  intros Hm Hk st. unfold bind. specialize (Hm st).
  destruct (m st) as [[x|msg] st']; simpl in *; [|done].
  etrans; [done | apply Hk].
Qed.

Lemma steps_forEach {X} (l : list X) (body : X → M unit) :
  (∀ x, steps R (body x)) → steps R (forEach l body).
Proof.
  intros Hb. induction l as [|x l IH]; simpl; [apply steps_ret|].
  apply steps_bind; [apply Hb | by intros _].
Qed.

Lemma steps_foldM {X S} (l : list X) (s : S) (body : S → X → M S) :
  (∀ s x, steps R (body s x)) → steps R (foldM l s body).
Proof.
  intros Hb. revert s. induction l as [|x l IH]; intros s; simpl;
    [apply steps_ret|].
  apply steps_bind; [apply Hb | apply IH].
Qed.

End steps.

(** Decomposition of a goal [steps R m] along the structure of [m]. *)
Ltac steps_step :=
  lazymatch goal with
  | |- steps _ (bind _ _) => apply steps_bind; [apply _| |intros ?]
  | |- steps _ (ret _) => apply steps_ret; apply _
  | |- steps _ (throw _) => apply steps_throw; apply _
  | |- steps _ (gets _) => apply steps_gets; apply _
  | |- steps _ (forEach _ _) => apply steps_forEach; [apply _|intros ?]
  | |- steps _ (foldM _ _ _) => apply steps_foldM; [apply _|intros ? ?]
  | |- steps _ (if ?b then _ else _) => destruct b
  | |- steps _ (match ?x with _ => _ end) => destruct x
  | |- steps _ (match ?x with _ => _ end _) => destruct x
  | |- preserves _ _ => unfold preserves
  end.

Section image_invariants.
Context (P : ImageData → Prop).

Lemma allImages_same_images (st st' : Store) :
  images st' = images st → allImages P st → allImages P st'.
Proof. unfold allImages. by intros ->. Qed.

Lemma allImages_alter (im : gmap loc ImageData) (this : loc)
    (f : ImageData → ImageData) b g u m k b' g' u' m' k' :
  (∀ i, im !! this = Some i → P i → P (f i)) →
  allImages P (mkStore im b' g' u' m' k') →
  allImages P (mkStore (alter f this im) b g u m k).
Proof.
  intros Hf HI l i. simpl. rewrite lookup_alter.
  destruct (decide (this = l)) as [<-|]; [|apply HI].
  destruct (im !! this) as [i0|] eqn:Hi0; simpl; [|done].
  intros [= <-]. apply Hf; [done|]. by apply (HI this).
Qed.

Lemma preserves_updateImage (this : loc) (f : ImageData → ImageData) :
  (∀ i, P i → P (f i)) → preserves (allImages P) (updateImage this f).
Proof.
  intros Hf st HI. destruct st.
  eapply allImages_alter; [|exact HI]. auto.
Qed.

Lemma preserves_same_images {X} (m : M X) :
  (∀ st, images (snd (m st)) = images st) → preserves (allImages P) m.
Proof.
  intros Hm st HI. eapply allImages_same_images; [apply Hm | exact HI].
Qed.

Lemma preserves_newImageObject v :
  P v → preserves (allImages P) (newImageObject v).
Proof.
  intros Hv st HI l i. simpl. rewrite lookup_insert.
  destruct (decide _) as [_|_]; [by intros [= <-] | apply HI].
Qed.

End image_invariants.

(** ** The RSI variables stay consistent *)

Create HintDb methods.
#[export] Hint Unfold theImage theGeometry theMeta theUids theBuffer theKind
  getSecondaryOffset getImageUid getSecondaryOffsetMax getIsIdentityRSI
  getIsConstantRSI getRescaleSlopeAndIntercept
  getRescaleSlopeAndInterceptAtOffset getValueAtOffset call_apply
  getRescaledValueAtOffset buffer_subarray buffer_set getBuffer writeBuffer
  setPhotometricInterpretation setPlanarConfiguration setMeta : methods.

Section rsi_consistency.
Context `{collab : Collaborators}.
#[local] Arguments lookup_total : simpl never.

Lemma rsiConsistent_new_image g b u n m :
  rsiConsistent
    (mkImage g (Some b) u (RVRsi (mkRSI 1 0)) None true true "MONOCHROME2"
       0 n m None None None).
Proof. repeat split. intros _. by eexists. Qed.

Lemma rsiConsistent_set_rsi (i : ImageData) (x : rsival) :
  rsiConsistent i → isIdentityRSI i = false → rsiConsistent (set_rsi x i).
Proof.
  intros (Hc & Hrsis & _) Hid. repeat split; [done..|].
  cbn. by rewrite Hid.
Qed.

Lemma rsiConsistent_setRescaleSlopeAndIntercept this inRsi offset :
  preserves (allImages rsiConsistent)
    (setRescaleSlopeAndIntercept this inRsi offset).
Proof.
  intros st HI. destruct st as [im bs gs us ms ks].
  unfold setRescaleSlopeAndIntercept, bind, theImage, gets, updateImage,
    modify, call_isID, call_equals, ret, throw, typeof_index_is_undefined.
  cbn.
  destruct (im !! this) as [i|] eqn:Hi.
  - destruct (HI _ _ Hi) as (Hc & Hrsis & Hid).
    rewrite (lookup_total_correct _ _ _ Hi).
    destruct (isIdentityRSI i) eqn:Hidf.
    + destruct (Hid eq_refl) as (r & Hr & Hrid).
      destruct inRsi as [r'| | |]; cbn; try done.
      rewrite lookup_total_alter_eq, Hi. cbn. rewrite Hc, Hr. cbn.
      assert (allImages rsiConsistent
                (mkStore (alter (set_isIdentityRSI (isID r')) this im)
                   bs gs us ms ks))
        as HI1.
      { eapply allImages_alter; [|done].
        intros i0 Hi0 _. rewrite Hi in Hi0. injection Hi0 as <-.
        repeat split; [done..|]. intros _. by exists r. }
      destruct (RSI_equals r r') eqn:Heq; cbn; [done|].
      eapply allImages_alter; [|done].
      intros i0 Hi0 _. cbn in Hi0. rewrite lookup_alter_eq, Hi in Hi0.
      injection Hi0 as <-. repeat split; [done..|]. by exists r'.
    + cbn. rewrite (lookup_total_correct _ _ _ Hi), Hc. cbn.
      assert (∀ x, allImages rsiConsistent
                     (mkStore (alter (set_rsi x) this im) bs gs us ms ks))
        as Hset.
      { intros x. eapply allImages_alter; [|done].
        intros i0 Hi0 Hcons. rewrite Hi in Hi0. injection Hi0 as <-.
        by apply rsiConsistent_set_rsi. }
      destruct (rsi i) as [r| | |]; cbn; try done.
      destruct inRsi as [r'| | |]; cbn.
      * destruct (RSI_equals r r'); cbn; [done|apply Hset].
      * destruct (RSI_equals_other r _) as [[]|]; cbn; [done|apply Hset|done].
      * destruct (RSI_equals_other r _) as [[]|]; cbn; [done|apply Hset|done].
      * destruct (RSI_equals_other r _) as [[]|]; cbn; [done|apply Hset|done].
  - assert (∀ f, alter f this im = im) as Hnone.
    { intros f. apply map_eq. intros l. rewrite lookup_alter.
      destruct (decide _) as [<-|]; [by rewrite Hi|done]. }
    repeat first
      [ done
      | rewrite Hnone
      | match goal with
        | |- context [match ?x with _ => _ end] =>
            lazymatch x with
            | context [match _ with _ => _ end] => fail
            | _ => destruct x; cbn
            end
        end ].
Qed.

(** One step of the proof that a method body keeps the RSI variables of
    every image consistent. *)
Ltac consistent_step :=
  first
    [ steps_step
    | apply rsiConsistent_setRescaleSlopeAndIntercept
    | apply preserves_newImageObject; apply rsiConsistent_new_image
    | apply preserves_updateImage; intros ? Hcons; exact Hcons
    | apply preserves_same_images; intros []; reflexivity
    | progress autounfold with methods ].

Lemma rsiConsistent_Image_new g b u :
  preserves (allImages rsiConsistent) (Image_new g b u).
Proof. unfold Image_new. repeat consistent_step. Qed.

Lemma rsiConsistent_clone this :
  preserves (allImages rsiConsistent) (clone this).
Proof.
  unfold clone. repeat consistent_step; apply rsiConsistent_Image_new.
Qed.

Lemma rsiConsistent_realloc this size :
  preserves (allImages rsiConsistent) (realloc this size).
Proof. unfold realloc. repeat consistent_step. Qed.

Lemma rsiConsistent_updatePreset this rhs n o pkey :
  preserves (allImages rsiConsistent) (updatePreset this rhs n o pkey).
Proof. unfold updatePreset. repeat consistent_step. Qed.

Lemma rsiConsistent_appendSlice_checks this rhs :
  preserves (allImages rsiConsistent) (appendSlice_checks this rhs).
Proof. unfold appendSlice_checks. repeat consistent_step. Qed.

Lemma rsiConsistent_appendSlice this rhs timeId :
  preserves (allImages rsiConsistent) (appendSlice this rhs timeId).
Proof.
  unfold appendSlice.
  repeat lazymatch goal with
    | |- steps _ (appendSlice_checks _ _) =>
        apply rsiConsistent_appendSlice_checks
    | |- steps _ (realloc _ _) => apply rsiConsistent_realloc
    | |- steps _ (updatePreset _ _ _ _ _) => apply rsiConsistent_updatePreset
    | _ => consistent_step
    end.
Qed.

Lemma rsiConsistent_getDataRange this :
  preserves (allImages rsiConsistent) (getDataRange this).
Proof. unfold getDataRange, calculateDataRange. repeat consistent_step. Qed.

Lemma rsiConsistent_getHistogram this :
  preserves (allImages rsiConsistent) (getHistogram this).
Proof. unfold getHistogram, calculateHistogram. repeat consistent_step. Qed.

Lemma rsiConsistent_calculateRescaledDataRange this :
  preserves (allImages rsiConsistent) (calculateRescaledDataRange this).
Proof.
  unfold calculateRescaledDataRange.
  repeat lazymatch goal with
    | |- steps _ (getDataRange _) => apply rsiConsistent_getDataRange
    | _ => consistent_step
    end.
Qed.

Lemma rsiConsistent_getRescaledDataRange this :
  preserves (allImages rsiConsistent) (getRescaledDataRange this).
Proof.
  unfold getRescaledDataRange.
  repeat lazymatch goal with
    | |- steps _ (calculateRescaledDataRange _) =>
        apply rsiConsistent_calculateRescaledDataRange
    | _ => consistent_step
    end.
Qed.

Lemma rsiConsistent_appendFrame this :
  preserves (allImages rsiConsistent) (appendFrame this).
Proof. unfold appendFrame. repeat consistent_step. Qed.

Lemma rsiConsistent_appendFrameBuffer this frameBuffer frameIndex :
  preserves (allImages rsiConsistent)
    (appendFrameBuffer this frameBuffer frameIndex).
Proof.
  unfold appendFrameBuffer.
  repeat lazymatch goal with
    | |- steps _ (realloc _ _) => apply rsiConsistent_realloc
    | |- steps _ (appendFrame _) => apply rsiConsistent_appendFrame
    | _ => consistent_step
    end.
Qed.

Lemma rsiConsistent_exec (c : call) :
  ∀ st, allImages rsiConsistent st → allImages rsiConsistent (exec c st).
Proof.
  destruct c; simpl; intros st HI.
  - by apply rsiConsistent_Image_new.
  - by apply rsiConsistent_setRescaleSlopeAndIntercept.
  - by apply rsiConsistent_appendSlice.
  - by apply rsiConsistent_clone.
  - revert st HI. unfold setPhotometricInterpretation.
    repeat consistent_step.
  - revert st HI. unfold setPlanarConfiguration. repeat consistent_step.
  - revert st HI. unfold setMeta. repeat consistent_step.
  - by apply rsiConsistent_getDataRange.
  - by apply rsiConsistent_getRescaledDataRange.
  - by apply rsiConsistent_calculateRescaledDataRange.
  - by apply rsiConsistent_getHistogram.
  - by apply rsiConsistent_appendFrameBuffer.
  - by apply rsiConsistent_appendFrame.
  - by eapply allImages_same_images.
Qed.

Lemma rsiConsistent_run (cs : list call) :
  ∀ st, allImages rsiConsistent st → allImages rsiConsistent (run cs st).
Proof.
  unfold run. induction cs as [|c cs IH]; intros st HI; simpl; [done|].
  apply IH. by apply rsiConsistent_exec.
Qed.

Lemma rsiConsistent_reachable (st : Store) :
  reachable st → allImages rsiConsistent st.
Proof.
  intros (st0 & cs & Hempty & ->). apply rsiConsistent_run.
  intros l i. by rewrite Hempty, lookup_empty.
Qed.

End rsi_consistency.

Section rsi_facts.
Context `{collab : Collaborators}.
#[local] Arguments lookup_total : simpl never.

Lemma Image_new_constant (g b u : loc) (st : Store) :
  ∃ this st',
    Image_new g b u st = (Ok this, st') ∧
    getIsConstantRSI this st' = (Ok true, st').
Proof.
  unfold Image_new, bind, theGeometry, theBuffer, gets, newMeta,
    newImageObject, getIsConstantRSI, theImage, ret. cbn.
  eexists _, _. split; [done|]. cbn. by rewrite lookup_total_insert_eq.
Qed.

Lemma bind_run {X Y} (m : M X) (k : X → M Y) (st : Store) :
  bind m k st =
  match m st with
  | (Ok x, st') => k x st'
  | (Throw msg, st') => (Throw msg, st')
  end.
Proof. done. Qed.

Lemma getValueAtOffset_store (this : loc) (offset : Z) (st : Store) :
  snd (getValueAtOffset this offset st) = st.
Proof.
  unfold getValueAtOffset, bind, theImage, theBuffer, gets, ret, throw.
  by destruct (buffer (images st !!! this)).
Qed.

Lemma constant_image_reads (st : Store) (this : loc) (i : ImageData) :
  images st !! this = Some i → isConstantRSI i = true →
  getIsConstantRSI this st = (Ok true, st) ∧
  (∀ index, getRescaleSlopeAndIntercept this index st = (Ok (rsi i), st)) ∧
  (∀ offset,
     getRescaledValueAtOffset this offset st =
     bind (getValueAtOffset this offset)
       (λ val, if isIdentityRSI i then ret val else call_apply (rsi i) val)
       st).
Proof.
  intros Hi Hc.
  assert (theImage this st = (Ok i, st)) as Hthis.
  { unfold theImage, gets. by rewrite (lookup_total_correct _ _ _ Hi). }
  assert (getIsConstantRSI this st = (Ok true, st)) as Hconst.
  { unfold getIsConstantRSI. by rewrite bind_run, Hthis, <- Hc. }
  assert (∀ index,
            getRescaleSlopeAndIntercept this index st = (Ok (rsi i), st))
    as Hget.
  { intros index. unfold getRescaleSlopeAndIntercept.
    by rewrite bind_run, Hthis, bind_run, Hconst. }
  split; [done|]. split; [done|].
  intros offset. unfold getRescaledValueAtOffset.
  rewrite !(bind_run (getValueAtOffset this offset)).
  pose proof (getValueAtOffset_store this offset st) as Hst.
  destruct (getValueAtOffset this offset st) as [[val|msg] st1]; [|done].
  simpl in Hst. subst st1.
  unfold getIsIdentityRSI. rewrite bind_run, bind_run, Hthis. unfold ret at 1.
  destruct (isIdentityRSI i); cbn [negb]; [done|].
  by rewrite bind_run, Hconst, bind_run, Hget.
Qed.

End rsi_facts.

(** C10. An image made by the constructor reports [isConstantRSI() = true];
    in every store a program reaches from a store without images by calls
    of the constructor, [setRescaleSlopeAndIntercept] (with any argument
    and any or no offset), [appendSlice], [appendFrameBuffer],
    [appendFrame], [clone], the plain setters and the cached range and
    histogram queries, interleaved with arbitrary changes to the shared
    objects, every image still reports [true]. Consequently
    [getRescaleSlopeAndIntercept] returns the constant [rsi] for every index
    argument, and [getRescaledValueAtOffset] is the raw value, passed through
    that constant RSI unless the identity flag is set. *)
Theorem constructed_images_stay_constant `{collab : Collaborators}
    (st0 : Store) (cs : list call) (this : loc) (i : ImageData) :
  images st0 = ∅ →
  images (run cs st0) !! this = Some i →
  let st := run cs st0 in
  (∀ g b u st1, ∃ new st2,
     Image_new g b u st1 = (Ok new, st2) ∧
     getIsConstantRSI new st2 = (Ok true, st2)) ∧
  isConstantRSI i = true ∧
  getIsConstantRSI this st = (Ok true, st) ∧
  (∀ index, getRescaleSlopeAndIntercept this index st = (Ok (rsi i), st)) ∧
  (∀ offset,
     getRescaledValueAtOffset this offset st =
     bind (getValueAtOffset this offset)
       (λ val, if isIdentityRSI i then ret val else call_apply (rsi i) val)
       st).
Proof.
  intros Hempty Hi st.
  assert (rsiConsistent i) as (Hc & _).
  { eapply (rsiConsistent_reachable st); [by exists st0, cs | exact Hi]. }
  split; [intros; apply Image_new_constant|].
  split; [done|]. by apply constant_image_reads.
Qed.

(** A run that builds two single-slice images, gives the first the meta
    object announcing two files, sets a differing RSI on the second with an
    offset, and appends the second to the first (which succeeds). *)
Lemma constructed_images_stay_constant_witness :
  let cs :=
    [CallNew 1%positive 1%positive 1%positive;
     CallNew 2%positive 2%positive 2%positive;
     CallSetMeta 1%positive 1%positive;
     CallSetRescaleSlopeAndIntercept 2%positive
       (RVRsi (mkRSI (Qc_of_Z 2) 0)) (JNum 0);
     CallAppendSlice 1%positive (Some 2%positive) None] in
  let st := run (collab := Sample.collaborators) cs Sample.twoSlices in
  isConstantRSI (images st !!! 1%positive) = true ∧
  getIsConstantRSI 1%positive st = (Ok true, st).
Proof.
  intros cs st.
  destruct (constructed_images_stay_constant
              (collab := Sample.collaborators) Sample.twoSlices cs
              1%positive (images st !!! 1%positive))
    as (_ & Hc & Hget & _); [reflexivity | by vm_compute | done].
Defined.

(** C4 at a fresh image of two slices: after
    [setRescaleSlopeAndIntercept(new RSI(2, 0), 0)] the image is still in
    constant mode, no per-offset array exists, and the constant [rsi] has
    been replaced by the new RSI. *)
Lemma setRescaleSlopeAndIntercept_offset_stays_constant :
  let inRsi := RVRsi (mkRSI (Qc_of_Z 2) 0) in
  let st := Sample.worldWithImage (mkSize 1 1 2 []) [1; 2] in
  let r :=
    setRescaleSlopeAndIntercept (collab := Sample.collaborators) 1%positive
      inRsi (JNum 0) st in
  fst r = Ok tt ∧
  isConstantRSI <$> images (snd r) !! 1%positive = Some true ∧
  rsis <$> images (snd r) !! 1%positive = Some None ∧
  rsi <$> images (snd r) !! 1%positive = Some inRsi ∧
  fst (getIsConstantRSI 1%positive (snd r)) = Ok true.
Proof. by vm_compute. Qed.

(** C5. In every store a program reaches through the public interface of
    the image (any sequence of the calls of [call], which cover every
    method that changes the store), for an image whose constant RSI is
    [(s, k)] and an offset [o] inside its buffer,
    [getRescaledValueAtOffset(o)] is [getValueAtOffset(o) * s + k]; for
    the identity RSI it is the raw value. Neither call changes the
    store. *)
Theorem rescaled_value_constant_rsi `{collab : Collaborators}
    (st : Store) (this b : loc) (i : ImageData) (a : list Qc)
    (s k v : Qc) (o : Z) :
  reachable st →
  images st !! this = Some i → rsi i = RVRsi (mkRSI s k) →
  buffer i = Some b → buffers st !! b = Some a → array_get a o = Some v →
  getValueAtOffset this o st = (Ok (JNum v), st) ∧
  getRescaledValueAtOffset this o st = (Ok (JNum (v * s + k)%Qc), st) ∧
  (s = 1%Qc → k = 0%Qc →
   getRescaledValueAtOffset this o st = getValueAtOffset this o st).
Proof.
  intros Hreach Hi Hrsi Hb Ha Hv.
  destruct (rsiConsistent_reachable st Hreach _ _ Hi) as (Hc & _ & Hid).
  assert (getValueAtOffset this o st = (Ok (JNum v), st)) as Hraw.
  { unfold getValueAtOffset, bind, theImage, theBuffer, gets, ret.
    rewrite (lookup_total_correct _ _ _ Hi), Hb.
    by rewrite (lookup_total_correct _ _ _ Ha), Hv. }
  destruct (constant_image_reads st this i Hi Hc) as (_ & _ & Hres).
  assert (getRescaledValueAtOffset this o st =
          (Ok (JNum (v * s + k)%Qc), st)) as Hrescaled.
  { rewrite Hres. unfold bind. rewrite Hraw, Hrsi.
    destruct (isIdentityRSI i); [|done].
    destruct (Hid eq_refl) as (r & Hr & Hrid).
    rewrite Hrsi in Hr. injection Hr as <-.
    unfold isID in Hrid. cbn in Hrid.
    apply andb_prop in Hrid as [Hs Hk].
    apply bool_decide_eq_true_1 in Hs, Hk. subst s k.
    unfold ret. do 3 f_equal. ring. }
  split; [done|]. split; [done|].
  intros -> ->. rewrite Hrescaled, Hraw. do 3 f_equal. ring.
Qed.

(** An image with RSI [(2, 3)] and sample 5 at offset 1, after its rescaled
    data range was asked for and a frame was announced. *)
Lemma rescaled_value_constant_rsi_witness :
  let cs :=
    [CallNew 1%positive 1%positive 1%positive;
     CallSetRescaleSlopeAndIntercept 1%positive
       (RVRsi (mkRSI (Qc_of_Z 2) (Qc_of_Z 3))) JUndefined;
     CallGetRescaledDataRange 1%positive;
     CallAppendFrame 1%positive] in
  let st :=
    run (collab := Sample.collaborators) cs
      (Sample.world (mkSize 2 1 1 []) [4; 5]) in
  getRescaledValueAtOffset 1%positive 1 st =
  (Ok (JNum (Qc_of_Z 5 * Qc_of_Z 2 + Qc_of_Z 3)%Qc), st).
Proof.
  intros cs st.
  refine (proj1 (proj2
    (rescaled_value_constant_rsi (collab := Sample.collaborators) st
       1%positive 1%positive (images st !!! 1%positive)
       (Qc_of_Z <$> [4; 5]) (Qc_of_Z 2) (Qc_of_Z 3) (Qc_of_Z 5) 1
       _ _ _ _ _ _))).
  - exists (Sample.world (mkSize 2 1 1 []) [4; 5]), cs. by split.
  - by vm_compute.
  - by vm_compute.
  - by vm_compute.
  - by vm_compute.
  - by vm_compute.
Defined.

(** ** appendSlice rejects a slice before touching the store *)

Section append_validation.
Context `{collab : Collaborators}.

Lemma appendSlice_checks_store (this rhs : loc) :
  steps eq (appendSlice_checks this rhs).
Proof.
  unfold appendSlice_checks.
  repeat first [steps_step | progress autounfold with methods].
Qed.

(** The comparison loop over the meta keys: it stops at the first key whose
    values differ, and passes only if none does. *)
Lemma meta_loop_outcome (m rm : Meta) (r : ImageData) (st : Store)
    (keys : list string) :
  metas st !!! meta r = rm →
  let body (key : string) : M unit :=
    if bool_decide (key = "windowPresets"%string) ||
       bool_decide (key = "numberOfFiles"%string)
    then ret tt
    else
      let* rm := theMeta (meta r) in
      if strictNotEquals (meta_get m key) (meta_get rm key) then
        throw ("Cannot append a slice with different " +:+ key)
      else ret tt in
  (forEach keys body st = (Ok tt, st) ∧
   ∀ key, key ∈ keys → key ≠ "windowPresets"%string →
          key ≠ "numberOfFiles"%string → meta_get m key = meta_get rm key) ∨
  (∃ key, forEach keys body st =
          (Throw ("Cannot append a slice with different " +:+ key), st)).
Proof.
  intros Hrm body. induction keys as [|key keys IH]; simpl.
  - left. split; [done|]. intros key Hk. by apply elem_of_nil in Hk.
  - rewrite !bind_run.
    assert ((body key st = (Ok tt, st) ∧
             (key ≠ "windowPresets"%string → key ≠ "numberOfFiles"%string →
              meta_get m key = meta_get rm key)) ∨
            body key st =
            (Throw ("Cannot append a slice with different " +:+ key), st))
      as [[-> Hkey]| ->].
    { unfold body.
      destruct (decide (key = "windowPresets"%string)) as [Hw|Hw].
      { rewrite (bool_decide_eq_true_2 _ Hw). simpl. left. by split. }
      rewrite (bool_decide_eq_false_2 _ Hw).
      destruct (decide (key = "numberOfFiles"%string)) as [Hn|Hn].
      { rewrite (bool_decide_eq_true_2 _ Hn). simpl. left. by split. }
      rewrite (bool_decide_eq_false_2 _ Hn). simpl.
      rewrite bind_run. unfold theMeta, gets. rewrite Hrm.
      unfold strictNotEquals.
      destruct (decide (meta_get m key = meta_get rm key)) as [Heq|Hne].
      - rewrite (bool_decide_eq_true_2 _ Heq). simpl. left. by split.
      - rewrite (bool_decide_eq_false_2 _ Hne). simpl. by right. }
    + destruct IH as [[Hok Hall]|[k Hk]]; [left|right; by exists k].
      split; [done|]. intros k [->|Hin]%elem_of_cons; [done|].
      by apply Hall.
    + right. by exists key.
Qed.

(** Membership in a list given by its elements. *)
Ltac in_list := apply (bool_decide_unpack _); by vm_compute.

Lemma appendSlice_checks_throw (st : Store) (this rhs : loc) :
  failsValidation st this rhs →
  ∃ msg, validationMessage msg ∧
         appendSlice_checks this rhs st = (Throw msg, st).
Proof.
  unfold failsValidation, appendSlice_checks.
  intros Hfail. cbv zeta in Hfail.
  do 4 (rewrite bind_run; unfold theImage, theGeometry, gets;
        cbv beta iota zeta).
  set (i := images st !!! this) in *. set (r := images st !!! rhs) in *.
  set (g := geometries st !!! geometry i) in *.
  set (rg := geometries st !!! geometry r) in *.
  assert (∀ msg : string,
            msg ∈ [ "Cannot append more than one slice";
                    "Cannot append a slice with different number of columns";
                    "Cannot append a slice with different number of rows";
                    "Cannot append a slice with different orientation";
                    "Cannot append a slice with different photometric interpretation";
                    "Missing number of files for buffer manipulation." ]%string →
            ∃ msg', validationMessage msg' ∧
                    throw (X:=unit) msg st = (Throw msg', st)) as Hmsg.
  { intros msg Hin. exists msg. split; [by left | done]. }
  destruct (Z.eqb_spec (get (getSize rg) 2) 1) as [H2|H2]; simpl;
    [|apply Hmsg; in_list].
  destruct (Z.eqb_spec (get (getSize g) 0) (get (getSize rg) 0)) as [H0|H0];
    simpl; [|apply Hmsg; in_list].
  destruct (Z.eqb_spec (get (getSize g) 1) (get (getSize rg) 1)) as [H1|H1];
    simpl; [|apply Hmsg; in_list].
  destruct (Matrix33_equals _ _ _) eqn:Ho; simpl; [|apply Hmsg; in_list].
  destruct (decide (photometricInterpretation i =
                    photometricInterpretation r)) as [Hp|Hp].
  2: { rewrite bool_decide_eq_false_2 by done. simpl.
       apply Hmsg; in_list. }
  rewrite bool_decide_eq_true_2 by done. simpl.
  rewrite bind_run. unfold theMeta at 1, gets.
  set (m := metas st !!! meta i) in *.
  rewrite bind_run.
  destruct (meta_loop_outcome m (metas st !!! meta r) r st (meta_keys m)
              eq_refl) as [[Hok Hall]|[key Hkey]].
  - rewrite Hok.
    destruct (meta_get m "numberOfFiles") eqn:Hn; [|apply Hmsg; in_list].
    exfalso.
    destruct Hfail as [?|[?|[?|[?|[?|[(key & Hin & Hw & Hf & Hne)|?]]]]]];
      try done.
    by apply Hne, Hall.
  - rewrite Hkey. eexists. split; [right; by exists key | done].
Qed.

End append_validation.

(** C6. If the candidate slice fails a validation check of [appendSlice]
    (wrong slice count, differing columns, rows, orientation or photometric
    interpretation, a key of the image's meta other than [windowPresets] and
    [numberOfFiles] whose value differs from or is missing in the slice's
    meta, or an unknown [numberOfFiles]), [appendSlice] throws one of its
    descriptive errors and the whole store is as before the call: buffer
    length and contents, geometry, RSI variables and UID list. *)
Theorem appendSlice_validation_failure `{collab : Collaborators}
    (st : Store) (this rhs : loc) (timeId : option Z) :
  failsValidation st this rhs →
  ∃ msg, validationMessage msg ∧
         appendSlice this (Some rhs) timeId st = (Throw msg, st).
Proof.
  intros Hfail.
  destruct (appendSlice_checks_throw st this rhs Hfail) as (msg & Hmsg & Hc).
  exists msg. split; [done|].
  unfold appendSlice. rewrite bind_run. by rewrite Hc.
Qed.

(** Appending a single-slice image to an image whose meta object does not
    announce the number of files. *)
Lemma appendSlice_validation_failure_witness :
  let st :=
    run (collab := Sample.collaborators)
      [CallNew 1%positive 1%positive 1%positive;
       CallNew 2%positive 2%positive 2%positive] Sample.twoSlices in
  ∃ msg, validationMessage msg ∧
         appendSlice (collab := Sample.collaborators) 1%positive
           (Some 2%positive) None st = (Throw msg, st).
Proof.
  intros st.
  apply (appendSlice_validation_failure (collab := Sample.collaborators)).
  do 6 right. by vm_compute.
Defined.

(** ** The histogram of an image with one rescaled value *)

Section histogram_facts.

Lemma rescaled_read_raw_read (st : Store) (this : loc) (k : Z) (rv : jsval) :
  getRescaledValueAtOffset this k st = (Ok rv, st) →
  ∃ val, getValueAtOffset this k st = (Ok val, st).
Proof.
  unfold getRescaledValueAtOffset. rewrite bind_run.
  pose proof (getValueAtOffset_store this k st) as Hst.
  destruct (getValueAtOffset this k st) as [[val|msg] st1]; [|done].
  simpl in Hst. subst st1. by exists val.
Qed.

Lemma js_lt_irrefl (x : jsval) : js_lt x x = false.
Proof.
  destruct x as [q| |]; [|done..]. simpl.
  apply bool_decide_eq_false_2. apply Qlt_irrefl.
Qed.

(** The scan loop of [calculateHistogram] over offsets that all carry the
    rescaled value [v]: the rescaled range stays [v .. v] and the bucket of
    [v] grows by one per offset. *)
Lemma histogram_scan (st : Store) (this : loc) (v : Qc) (l : list Z)
    (sc : histoScan) :
  (∀ k, k ∈ l → getRescaledValueAtOffset this k st = (Ok (JNum v), st)) →
  hs_rmin sc = JNum v → hs_rmax sc = JNum v →
  ∃ sc',
    foldM l sc
      (λ sc k,
         let* value := getValueAtOffset this k in
         let max := if js_gt value (hs_max sc) then value else hs_max sc in
         let min := if js_lt value (hs_min sc) then value else hs_min sc in
         let* rvalue := getRescaledValueAtOffset this k in
         let rmax :=
           if js_gt rvalue (hs_rmax sc) then rvalue else hs_rmax sc in
         let rmin :=
           if js_lt rvalue (hs_rmin sc) then rvalue else hs_rmin sc in
         let histo :=
           <[rvalue := default 0 (hs_histo sc !! rvalue) + 1]>
             (hs_histo sc) in
         ret (mkHistoScan min max rmin rmax histo)) st = (Ok sc', st) ∧
    hs_rmin sc' = JNum v ∧ hs_rmax sc' = JNum v ∧
    default 0 (hs_histo sc' !! JNum v) =
    default 0 (hs_histo sc !! JNum v) + Z.of_nat (length l).
Proof.
  revert sc. induction l as [|k l IH]; intros sc Hall Hmin Hmax; simpl.
  - exists sc. repeat split; [done..|lia].
  - destruct (rescaled_read_raw_read st this k (JNum v)) as [val Hval].
    { apply Hall. by left. }
    rewrite bind_run, bind_run, Hval, bind_run, Hall by by left.
    unfold ret at 1. rewrite Hmin, Hmax. unfold js_gt.
    rewrite !js_lt_irrefl.
    edestruct IH as (sc' & Hrun & Hmin' & Hmax' & Hcount);
      [| | |exists sc'; split; [exact Hrun|]].
    + intros k' Hk'. apply Hall. by right.
    + done.
    + done.
    + split; [done|]. split; [done|]. rewrite Hcount. simpl.
      rewrite lookup_insert_eq. simpl. lia.
Qed.

Lemma histogram_plot_single (v : Qc) (histo : gmap jsval Z) :
  histogramLoop (histogramSteps (JNum v) (JNum v)) (JNum v) (JNum v) histo =
  [(JNum v, default 0 (histo !! JNum v))].
Proof.
  unfold histogramSteps. rewrite bool_decide_eq_true_2 by apply Qcle_refl.
  replace (v - v)%Qc with 0%Qc by ring. simpl.
  by rewrite bool_decide_eq_true_2 by apply Qcle_refl.
Qed.

Lemma calculateHistogram_constant (st : Store) (this : loc) (v : Qc) :
  let N := getTotalSize (getSize (geometries st !!! geometry
                                    (images st !!! this))) in
  0 < N →
  (∀ k, 0 ≤ k < N →
        getRescaledValueAtOffset this k st = (Ok (JNum v), st)) →
  ∃ dataRange,
    calculateHistogram this st =
    (Ok (dataRange, mkRange (JNum v) (JNum v), [(JNum v, N)]), st).
Proof.
  intros N HN Hall. unfold calculateHistogram.
  rewrite bind_run. unfold theImage at 1, gets at 1.
  rewrite bind_run. unfold theGeometry at 1, gets at 1. fold N.
  destruct (rescaled_read_raw_read st this 0 (JNum v)) as [val Hval].
  { apply Hall. lia. }
  rewrite bind_run, Hval, bind_run, Hall by lia. rewrite bind_run.
  edestruct (histogram_scan st this v (seqZ 0 N)
               (mkHistoScan val val (JNum v) (JNum v) ∅))
    as (sc' & Hrun & Hmin & Hmax & Hcount); [|done|done|].
  { intros k Hk. apply Hall. apply elem_of_seqZ in Hk. lia. }
  cbv zeta in Hrun. rewrite Hrun.
  unfold ret. rewrite Hmin, Hmax, histogram_plot_single, Hcount.
  simpl. rewrite lookup_empty, length_seqZ. simpl.
  exists (mkRange (hs_min sc') (hs_max sc')).
  by rewrite Z2Nat.id by lia.
Qed.

End histogram_facts.

(** C8 (amended). For an image without a cached histogram whose geometry
    counts [N > 0] voxels and whose samples at the offsets [0 .. N-1] all
    have the same rescaled value [v], [getHistogram] scans exactly those
    offsets and returns the single bucket pair [(v, N)] (and caches it).
    [N] is the voxel count of the geometry; it is the number of samples of
    the buffer when the buffer holds one sample per voxel. *)
Theorem histogram_of_constant_image (st : Store) (this : loc)
    (i : ImageData) (v : Qc) :
  images st !! this = Some i →
  histogram i = None →
  let N := getTotalSize (getSize (geometries st !!! geometry i)) in
  0 < N →
  (∀ k, 0 ≤ k < N →
        getRescaledValueAtOffset this k st = (Ok (JNum v), st)) →
  (∃ st', getHistogram this st = (Ok [(JNum v, N)], st') ∧
          histogram <$> images st' !! this = Some (Some [(JNum v, N)])) ∧
  (∀ b a, buffer i = Some b → buffers st !! b = Some a →
          Z.of_nat (length a) = N →
          fst (getHistogram this st) =
          Ok [(JNum v, Z.of_nat (length a))]).
Proof.
  intros Hi Hh N HN Hall.
  assert (images st !!! this = i) as Htot by by apply lookup_total_correct.
  destruct (calculateHistogram_constant st this v) as [dr Hcalc].
  { by rewrite Htot. }
  { by rewrite Htot. }
  rewrite Htot in Hcalc. fold N in Hcalc.
  assert (∃ st', getHistogram this st = (Ok [(JNum v, N)], st') ∧
            histogram <$> images st' !! this = Some (Some [(JNum v, N)]))
    as Hget.
  { unfold getHistogram. rewrite bind_run. unfold theImage at 1, gets at 1.
    rewrite Htot, Hh, bind_run, Hcalc. cbn.
    eexists. split; [done|]. cbn.
    by rewrite !lookup_alter_eq, Hi. }
  split; [done|].
  intros b a _ _ <-. destruct Hget as (st' & -> & _). done.
Qed.

(** A single-component image of three voxels, all with sample 5. *)
Lemma histogram_of_constant_image_witness :
  let st := Sample.worldWithImage (mkSize 3 1 1 []) [5; 5; 5] in
  fst (getHistogram 1%positive st) = Ok [(JNum (Qc_of_Z 5), 3)].
Proof.
  intros st.
  destruct (histogram_of_constant_image st 1%positive
              (images st !!! 1%positive) (Qc_of_Z 5))
    as [(st' & Hget & _) _].
  - by vm_compute.
  - by vm_compute.
  - by vm_compute.
  - intros k Hk.
    assert (k = 0 ∨ k = 1 ∨ k = 2) as [->|[->| ->]]
      by (change (getTotalSize _) with 3 in Hk; lia);
      by vm_compute.
  - by rewrite Hget.
Defined.

(** C8, as stated, fails: a 3-component image of one voxel whose three
    samples all are 5 gets the bucket [(5, 1)], while its buffer holds 3
    samples; only the offsets below the voxel count are scanned. *)
Lemma histogram_counts_voxels_not_samples :
  let st := Sample.worldWithImage (mkSize 1 1 1 []) [5; 5; 5] in
  length (buffers st !!! 1%positive) = 3%nat ∧
  fst (getRescaledValueAtOffset 1%positive 0 st) = Ok (JNum (Qc_of_Z 5)) ∧
  fst (getRescaledValueAtOffset 1%positive 1 st) = Ok (JNum (Qc_of_Z 5)) ∧
  fst (getRescaledValueAtOffset 1%positive 2 st) = Ok (JNum (Qc_of_Z 5)) ∧
  fst (getHistogram 1%positive st) = Ok [(JNum (Qc_of_Z 5), 1)].
Proof. by vm_compute. Qed.

(** ** Frames: what a method body leaves alone *)

Section frames.
Context (Rel : relation ImageData).

Lemma touchesOnly_updateImage (this : loc) (f : ImageData → ImageData) :
  (∀ i, Rel i (f i)) → steps (touchesOnly Rel this) (updateImage this f).
Proof.
  intros Hf st. repeat split; try done. intros l. simpl.
  rewrite lookup_alter. destruct (decide (l = this)) as [->|Hne].
  - rewrite decide_True by done.
    destruct (images st !! this); by constructor.
  - by rewrite decide_False by done.
Qed.

End frames.

Lemma steps_mono {X} (R R' : relation Store) (m : M X) :
  (∀ st st', R st st' → R' st st') → steps R m → steps R' m.
Proof. intros HR Hm st. apply HR, Hm. Qed.

Section clone_facts.
Context `{collab : Collaborators}.

(** One step of the proof that a method body touches the private variables
    of one image only. *)
Ltac frame_step :=
  first
    [ steps_step
    | apply touchesOnly_updateImage; intros ?; by repeat split
    | progress autounfold with methods ].

Lemma rsis_splice_onlyRSI this offset inRsi :
  steps (onlyRSI this) (rsis_splice this offset inRsi).
Proof. unfold rsis_splice, onlyRSI. repeat frame_step. Qed.

Lemma setRescaleSlopeAndIntercept_onlyRSI this inRsi offset :
  steps (onlyRSI this) (setRescaleSlopeAndIntercept this inRsi offset).
Proof.
  unfold setRescaleSlopeAndIntercept, call_isID, call_equals.
  repeat first [apply rsis_splice_onlyRSI | unfold onlyRSI; frame_step].
Qed.

Lemma sameExceptRSI_sameData i i' : sameExceptRSI i i' → sameData i i'.
Proof. intros (?&?&?&?&?&?&?&?&?&?). by repeat split. Qed.

Lemma setRescaleSlopeAndIntercept_sameData this inRsi offset :
  steps (touchesOnly sameData this)
    (setRescaleSlopeAndIntercept this inRsi offset).
Proof.
  eapply steps_mono; [|apply setRescaleSlopeAndIntercept_onlyRSI].
  intros st st' (?&?&?&?&?&Hl). repeat split; try done.
  intros l. specialize (Hl l). destruct (decide _); [|done].
  destruct Hl; constructor. by apply sameExceptRSI_sameData.
Qed.

Lemma returns_ret {X} (P : X → Prop) (x : X) : P x → returns P (ret x).
Proof. intros HP st y st' [= <- _]. done. Qed.

Lemma returns_bind {X Y} (P : Y → Prop) (m : M X) (k : X → M Y) :
  (∀ x, returns P (k x)) → returns P (bind m k).
Proof.
  intros Hk st y st'. rewrite bind_run.
  destruct (m st) as [[x|msg] st1]; [apply Hk | done].
Qed.

Lemma clone_effect (st : Store) (this b : loc) (i : ImageData) (a : list Qc)
    (copy : loc) (st1 : Store) :
  images st !! this = Some i → buffer i = Some b → buffers st !! b = Some a →
  clone this st = (Ok copy, st1) →
  let b' := fresh (dom (buffers st)) in
  copy ≠ this ∧ b' ≠ b ∧
  buffers st1 = <[b' := a]> (buffers st) ∧
  geometries st1 = geometries st ∧
  images st1 !! this = Some i ∧
  ∃ ci, images st1 !! copy = Some ci ∧ buffer ci = Some b' ∧
        geometry ci = geometry i ∧ imageUids ci = imageUids i.
Proof.
  intros Hi Hb Ha. unfold clone.
  rewrite bind_run. unfold theImage at 1, gets at 1.
  rewrite (lookup_total_correct _ _ _ Hi), bind_run, Hb.
  unfold theBuffer at 1, gets at 1.
  rewrite (lookup_total_correct _ _ _ Ha), bind_run.
  unfold theKind at 1, gets at 1. rewrite bind_run.
  unfold newBuffer at 1. rewrite bind_run.
  set (b' := fresh (dom (buffers st))).
  unfold Image_new at 1. rewrite bind_run. unfold theGeometry at 1, gets at 1.
  rewrite bind_run. unfold theBuffer at 1, gets at 1. rewrite bind_run.
  unfold newMeta at 1, newImageObject at 1. simpl images. simpl metas.
  cbv beta iota.
  set (copy0 := fresh (dom (images st))).
  match goal with |- ?T ?s = _ → _ => set (tail := T); set (st4 := s) end.
  intros Hrun.
  assert (steps (touchesOnly sameData copy0) tail) as Hsteps.
  { subst tail.
    repeat first
      [ apply setRescaleSlopeAndIntercept_sameData
      | steps_step
      | apply touchesOnly_updateImage; intros ?; by repeat split
      | progress autounfold with methods ]. }
  assert (returns (λ x, x = copy0) tail) as Hret.
  { subst tail. repeat (apply returns_bind; intros ?). by apply returns_ret. }
  specialize (Hsteps st4). rewrite Hrun in Hsteps. simpl in Hsteps.
  apply Hret in Hrun. subst copy.
  destruct Hsteps as (Hbuf & Hgeo & _ & _ & _ & Himg).
  assert (copy0 ≠ this) as Hne.
  { intros Heq. pose proof (is_fresh (dom (images st))) as Hfresh.
    fold copy0 in Hfresh. rewrite Heq in Hfresh.
    apply Hfresh, elem_of_dom. by eexists. }
  assert (b' ≠ b) as Hneb.
  { intros Heq. pose proof (is_fresh (dom (buffers st))) as Hfresh.
    fold b' in Hfresh. rewrite Heq in Hfresh.
    apply Hfresh, elem_of_dom. by eexists. }
  split; [done|]. split; [done|]. split; [done|]. split; [done|].
  split.
  - specialize (Himg this). rewrite decide_False in Himg by done.
    rewrite Himg. subst st4. simpl. by rewrite lookup_insert_ne.
  - specialize (Himg copy0). rewrite decide_True in Himg by done.
    subst st4. simpl in Himg. rewrite lookup_insert_eq in Himg.
    inversion Himg as [ci0 ci Hsame Hci0 Hci|]. subst ci0.
    destruct Hsame as (Hg & Hbf & Hu & _).
    exists ci. by repeat split.
Qed.

Lemma getValueAtOffset_run (st : Store) (this b : loc) (i : ImageData)
    (a : list Qc) (o : Z) :
  images st !! this = Some i → buffer i = Some b → buffers st !! b = Some a →
  getValueAtOffset this o st = (Ok (readSample a o), st).
Proof.
  intros Hi Hb Ha. unfold getValueAtOffset, bind, theImage, theBuffer, gets, ret.
  rewrite (lookup_total_correct _ _ _ Hi), Hb.
  by rewrite (lookup_total_correct _ _ _ Ha).
Qed.

Lemma calculateDataRange_run (st : Store) (this b : loc) (i : ImageData)
    (a : list Qc) :
  images st !! this = Some i → buffer i = Some b → buffers st !! b = Some a →
  calculateDataRange this st =
  (Ok (dataRangeOf a (getSize (geometries st !!! geometry i))), st).
Proof.
  intros Hi Hb Ha. unfold calculateDataRange.
  rewrite bind_run, (getValueAtOffset_run st this b i a) by done.
  rewrite bind_run. unfold theImage at 1, gets at 1.
  rewrite (lookup_total_correct _ _ _ Hi), bind_run.
  unfold theGeometry at 1, gets at 1. rewrite bind_run.
  cbv zeta. unfold dataRangeOf, dataRangeLength.
  generalize (seqZ 0 (if 3 <=? Size_length (getSize (geometries st !!! geometry i))
                      then getDimSize (getSize (geometries st !!! geometry i)) 3
                      else getTotalSize (getSize (geometries st !!! geometry i)))).
  generalize (readSample a 0, readSample a 0).
  intros mm l. revert mm. induction l as [|k l IH]; intros [mn mx]; [done|].
  simpl. rewrite bind_run, bind_run.
  rewrite (getValueAtOffset_run st this b i a) by done.
  unfold ret at 1. apply IH.
Qed.

Lemma getDataRange_value (st : Store) (this b : loc) (i : ImageData)
    (a : list Qc) :
  images st !! this = Some i → buffer i = Some b → buffers st !! b = Some a →
  fst (getDataRange this st) =
  Ok (default (dataRangeOf a (getSize (geometries st !!! geometry i)))
        (dataRange i)).
Proof.
  intros Hi Hb Ha. unfold getDataRange.
  rewrite bind_run. unfold theImage at 1, gets at 1.
  rewrite (lookup_total_correct _ _ _ Hi).
  destruct (dataRange i); [done|].
  by rewrite bind_run, (calculateDataRange_run st this b i a).
Qed.

Lemma writeAll_frame (st : Store) (b b' : loc)
    (writes : list (Z * jsval)) :
  b' ≠ b →
  let st' := writeAll (Some b') writes st in
  images st' = images st ∧ geometries st' = geometries st ∧
  buffers st' !! b = buffers st !! b.
Proof.
  intros Hne. revert st.
  induction writes as [|[k v] writes IH]; intros st; [done|].
  simpl. destruct (IH (snd (writeBuffer (Some b') k v st)))
    as (Him & Hgeo & Hbuf).
  unfold writeAll in *. simpl in *. rewrite Him, Hgeo, Hbuf.
  unfold writeBuffer, bind, theBuffer, theKind, gets, storeBuffer, modify.
  simpl. by rewrite lookup_insert_ne.
Qed.

End clone_facts.

(** C9. When [clone()] returns, the clone owns a buffer of its own: a new
    location holding a copy of the source's samples. Whatever is then
    written through the clone's buffer reference, the private variables of
    the source (its cached [dataRange] among them) are as they were, every
    [getValueAtOffset] of the source returns what it returned before the
    clone was made, and so do [calculateDataRange] and [getDataRange]. *)
Theorem clone_buffer_is_independent `{collab : Collaborators}
    (st : Store) (this b : loc) (i : ImageData) (a : list Qc)
    (copy : loc) (st1 : Store) :
  images st !! this = Some i → buffer i = Some b → buffers st !! b = Some a →
  clone this st = (Ok copy, st1) →
  ∃ b', getBuffer copy st1 = (Ok (Some b'), st1) ∧ b' ≠ b ∧
        buffers st1 !! b' = Some a ∧
        ∀ writes : list (Z * jsval),
          let st2 := writeAll (Some b') writes st1 in
          images st2 !! this = Some i ∧
          (∀ o, fst (getValueAtOffset this o st2) =
                fst (getValueAtOffset this o st)) ∧
          fst (calculateDataRange this st2) =
          fst (calculateDataRange this st) ∧
          fst (getDataRange this st2) = fst (getDataRange this st).
Proof.
  intros Hi Hb Ha Hclone.
  destruct (clone_effect st this b i a copy st1 Hi Hb Ha Hclone)
    as (Hcopy & Hneb & Hbuf & Hgeo & Hthis & ci & Hci & Hcb & _).
  exists (fresh (dom (buffers st))).
  split.
  { unfold getBuffer, bind, theImage, gets, ret.
    by rewrite (lookup_total_correct _ _ _ Hci), Hcb. }
  split; [done|].
  split; [by rewrite Hbuf, lookup_insert_eq|].
  intros writes st2.
  destruct (writeAll_frame st1 b (fresh (dom (buffers st))) writes Hneb)
    as (Him & Hg2 & Hb2).
  fold st2 in Him, Hg2, Hb2.
  assert (images st2 !! this = Some i) as Hi2 by by rewrite Him.
  assert (buffers st2 !! b = Some a) as Ha2.
  { by rewrite Hb2, Hbuf, lookup_insert_ne. }
  split; [done|]. split.
  - intros o.
    by rewrite (getValueAtOffset_run st2 this b i a),
         (getValueAtOffset_run st this b i a).
  - rewrite (calculateDataRange_run st2 this b i a),
      (calculateDataRange_run st this b i a) by done.
    rewrite (getDataRange_value st2 this b i a),
      (getDataRange_value st this b i a) by done.
    by rewrite Hg2, Hgeo.
Qed.

(** Cloning the image of a 2 x 1 x 1 volume with samples 4 and 5. *)
Lemma clone_buffer_is_independent_witness :
  let st := Sample.worldWithImage (mkSize 2 1 1 []) [4; 5] in
  let st2 :=
    writeAll (Some 2%positive) [(0, JNum (Qc_of_Z 9))]
      (snd (clone (collab := Sample.collaborators) 1%positive st)) in
  fst (getValueAtOffset 1%positive 0 st2) =
  fst (getValueAtOffset 1%positive 0 st).
Proof.
  intros st st2.
  destruct (clone_buffer_is_independent (collab := Sample.collaborators) st
              1%positive 1%positive (images st !!! 1%positive)
              (Qc_of_Z <$> [4; 5]) 2%positive
              (snd (clone (collab := Sample.collaborators) 1%positive st)))
    as (b' & Hget & _ & _ & Hwrites); [by vm_compute..|].
  assert (b' = 2%positive) as ->.
  { revert Hget. vm_compute. by intros [= <-]. }
  by destruct (Hwrites [(0, JNum (Qc_of_Z 9))]) as (_ & Hread & _).
Defined.

(** ** Closed forms of the traversal primitives *)

Section traversal_closed_forms.
Context {A : Type} (acc : Z → A).

Lemma stepsBelow_nonneg (start end_ inc : Z) : 0 ≤ stepsBelow start end_ inc.
Proof. apply Z.le_max_l. Qed.

Lemma stepsBelow_done (start end_ inc : Z) :
  0 < inc → end_ ≤ start → stepsBelow start end_ inc = 0.
Proof.
  intros Hinc Hle. unfold stepsBelow.
  assert ((end_ - start + inc - 1) / inc < 1); [|lia].
  apply Z.div_lt_upper_bound; lia.
Qed.

Lemma stepsBelow_next (start end_ inc : Z) :
  0 < inc → start < end_ →
  stepsBelow start end_ inc = 1 + stepsBelow (start + inc) end_ inc.
Proof.
  intros Hinc Hlt. unfold stepsBelow.
  replace (end_ - start + inc - 1)
    with (end_ - (start + inc) + inc - 1 + 1 * inc) by lia.
  rewrite Z.div_add by lia.
  assert (0 ≤ (end_ - (start + inc) + inc - 1) / inc); [|lia].
  apply Z.div_pos; lia.
Qed.

(** Unfolding the first term of an arithmetic progression. *)
Lemma progression_cons {B} (f : Z → B) (first inc n : Z) :
  0 ≤ n →
  (λ j, f (first + j * inc)) <$> seqZ 0 (1 + n) =
  f first :: ((λ j, f (first + inc + j * inc)) <$> seqZ 0 n).
Proof.
  intros Hn. rewrite (seqZ_cons 0 (1 + n)) by lia. simpl.
  rewrite Z.add_0_r. f_equal.
  replace (Z.pred (1 + n)) with n by lia.
  rewrite <- (fmap_add_seqZ 1 0), <- list_fmap_compose.
  apply list_fmap_ext. intros ? j ?. simpl. f_equal. lia.
Qed.

Lemma scalar_values_from_offsets (fuel : nat) (it : iterator) :
  isScalar it = true →
  getIteratorValues acc fuel it =
  (λ offsets : list Z, (λ o, Yield (acc o)) <$> offsets) <$>
    visitedOffsets acc fuel it.
Proof.
  revert it. induction fuel as [|fuel IH]; intros it Hs; [done|].
  assert (isScalar (after (next acc it)) = true ∧
          (result (next acc it) = TypeError ∨
           (∃ i, result (next acc it) = Done i ∧ calls (next acc it) = []) ∨
           (∃ o, result (next acc it) = Yield (acc o) ∧
                 calls (next acc it) = [o]))) as [Hafter Hcase].
  { destruct it as [s|s|s|s|s]; try done; simpl.
    - unfold simpleRange_next. destruct (_ <? _); simpl; eauto 6.
    - unfold range_next. destruct (testIndex _ _); simpl; [|eauto 6].
      destruct (_ =? _); simpl; eauto 6.
    - unfold rangeRegion_next. destruct (_ <? _); simpl; [|eauto 6].
      destruct (_ =? _); simpl; eauto 6.
    - unfold rangeRegions_next. destruct (_ <? _); simpl; [|eauto 6].
      destruct (rs_regions s !! rs_regionCount s) as [[[o0 sz] o1]|]; simpl;
        [|eauto 6].
      destruct (_ =? _); simpl; eauto 6. }
  simpl. destruct Hcase as [->|[(i & -> & ->)|(o & -> & ->)]]; [done..|].
  rewrite IH by done.
  by destruct (visitedOffsets acc fuel (after (next acc it))).
Qed.

Lemma simpleRange_visits_from (end_ inc : Z) (fuel : nat) (nextIndex : Z) :
  0 < inc → stepsBelow nextIndex end_ inc < Z.of_nat fuel →
  visitedOffsets acc fuel
    (ItSimpleRange (SimpleRangeState end_ inc nextIndex)) =
  Some ((λ j, nextIndex + j * inc) <$>
          seqZ 0 (stepsBelow nextIndex end_ inc)).
Proof.
  intros Hinc. revert nextIndex.
  induction fuel as [|fuel IH]; intros nextIndex Hfuel.
  { pose proof (stepsBelow_nonneg nextIndex end_ inc). lia. }
  simpl. unfold simpleRange_next. simpl.
  destruct (Z.ltb_spec nextIndex end_) as [Hlt|Hge]; simpl.
  - rewrite (stepsBelow_next nextIndex) in * by done.
    rewrite IH by lia. simpl.
    by rewrite (progression_cons (λ o, o))
      by apply stepsBelow_nonneg.
  - by rewrite stepsBelow_done by lia.
Qed.

Lemma rangeRegion_row (end_ w off p c : Z) (m fuel : nat) :
  c + Z.of_nat (S m) = w → p + w ≤ end_ → 0 ≤ c →
  visitedOffsets acc (S m + fuel)
    (ItRangeRegion (RangeRegionState end_ 1 w off (p + c) c)) =
  app (seqZ (p + c) (Z.of_nat (S m))) <$>
    visitedOffsets acc fuel
      (ItRangeRegion (RangeRegionState end_ 1 w off (p + w + off) 0)).
Proof.
  revert c. induction m as [|m IH]; intros c Hc Hend Hc0.
  - simpl. unfold rangeRegion_next. simpl.
    destruct (Z.ltb_spec (p + c) end_); [|lia].
    destruct (Z.eqb_spec (c + 1) w); [|lia]. simpl.
    replace (p + c + 1 + off) with (p + w + off) by lia.
    by destruct (visitedOffsets _ _ _).
  - change (S (S m) + fuel)%nat with (S (S m + fuel)).
    cbn [visitedOffsets next]. unfold rangeRegion_next.
    cbn [rr_nextIndex rr_end rr_regionElementCount rr_increment
         rr_regionSize rr_regionOffset].
    destruct (Z.ltb_spec (p + c) end_); [|lia].
    destruct (Z.eqb_spec (c + 1) w); [lia|]. cbn [result calls after].
    replace (p + c + 1) with (p + (c + 1)) by lia.
    rewrite IH by lia.
    destruct (visitedOffsets _ _ _); [|done]. simpl. f_equal.
    rewrite (seqZ_cons (p + c) (Z.of_nat (S (S m)))) by lia.
    replace (Z.succ (p + c)) with (p + (c + 1)) by lia.
    by replace (Z.pred (Z.of_nat (S (S m)))) with (Z.of_nat (S m)) by lia.
Qed.

Lemma rangeRegion_rectangle (start end_ w off : Z) (h fuel : nat) :
  0 < w → 0 ≤ off →
  end_ ≤ start + Z.of_nat h * (w + off) →
  (h ≠ 0%nat → start + (Z.of_nat h - 1) * (w + off) + w ≤ end_) →
  (Z.to_nat w * h < fuel)%nat →
  visitedOffsets acc fuel (rangeRegion start end_ 1 w off) =
  Some (rectangleOffsets start w (w + off) h).
Proof.
  intros Hw Hoff. unfold rangeRegion. revert start fuel.
  induction h as [|h IH]; intros start fuel Hup Hlow Hfuel.
  - destruct fuel as [|fuel]; [lia|]. simpl. unfold rangeRegion_next. simpl.
    destruct (Z.ltb_spec start end_); [lia|]. done.
  - replace fuel with (S (Z.to_nat (w - 1)) + (fuel - Z.to_nat w))%nat by lia.
    replace start with (start + 0) at 1 by lia.
    rewrite rangeRegion_row; [|lia| |lia].
    2: { specialize (Hlow ltac:(done)). nia. }
    rewrite IH; [| lia | | lia].
    2: { intros Hh. specialize (Hlow ltac:(done)). lia. }
    simpl. f_equal. unfold rectangleOffsets. simpl.
    rewrite Z.mul_0_l, !Z.add_0_r. f_equal.
    + f_equal. lia.
    + f_equal. rewrite <- fmap_S_seq, <- list_fmap_compose.
      apply list_fmap_ext. intros ? r ?. simpl. f_equal. lia.
Qed.

End traversal_closed_forms.

(** X1. Draining [simpleRange(accessor, start, end, increment)] with a
    positive increment (1 when omitted) visits exactly the offsets
    [start + j * increment] that are below [end], in increasing order --
    [stepsBelow start end increment] of them, none when [end <= start] --
    and emits the accessor's value at each; a budget above that count
    suffices. *)
Theorem simpleRange_closed_form {A : Type} (acc : Z → A)
    (start end_ : Z) (increment : option Z) (fuel : nat) :
  let inc := default 1 increment in
  let offsets :=
    (λ j, start + j * inc) <$> seqZ 0 (stepsBelow start end_ inc) in
  0 < inc → stepsBelow start end_ inc < Z.of_nat fuel →
  visitedOffsets acc fuel (simpleRange start end_ increment) = Some offsets ∧
  getIteratorValues acc fuel (simpleRange start end_ increment) =
  Some ((λ o, Yield (acc o)) <$> offsets) ∧
  Forall (λ o, start ≤ o < end_) offsets.
Proof.
  intros inc offsets Hinc Hfuel.
  assert (simpleRange start end_ increment =
          ItSimpleRange (SimpleRangeState end_ inc start)) as ->.
  { unfold simpleRange, inc. by destruct increment. }
  assert (visitedOffsets acc fuel
            (ItSimpleRange (SimpleRangeState end_ inc start)) = Some offsets)
    as Hv by by apply simpleRange_visits_from.
  split; [done|]. split.
  { rewrite scalar_values_from_offsets by done. by rewrite Hv. }
  apply Forall_fmap, Forall_seqZ. intros j Hj. simpl.
  split; [nia|].
  assert (j < stepsBelow start end_ inc) as Hjn by lia.
  unfold stepsBelow in Hjn.
  assert (j < (end_ - start + inc - 1) / inc) as Hdiv by lia.
  assert (inc * (j + 1) ≤ end_ - start + inc - 1); [|lia].
  etrans; [|apply (Z.mul_div_le _ inc); lia].
  apply Z.mul_le_mono_nonneg_l; lia.
Qed.

(** A range of step 3 from 2 to 10 visits 2, 5 and 8. *)
Lemma simpleRange_closed_form_witness :
  visitedOffsets (λ o : Z, o) 5 (simpleRange 2 10 (Some 3)) = Some [2; 5; 8].
Proof.
  destruct (simpleRange_closed_form (λ o : Z, o) 2 10 (Some 3) 5)
    as (Hv & _); [done | by vm_compute | exact Hv].
Defined.

(** X2. [rangeRegion(accessor, start, end, 1, regionSize, regionOffset)]
    walks a rectangle: with [regionSize >= 1], [regionOffset >= 0] and an
    [end] that lies after the last sample of row [h - 1] and not after the
    first sample of row [h], draining visits exactly the [h] rows of
    [regionSize] consecutive offsets, [regionSize + regionOffset] apart,
    in row-major order, and emits the accessor's value at each. *)
Theorem rangeRegion_closed_form {A : Type} (acc : Z → A)
    (start end_ regionSize regionOffset : Z) (h fuel : nat) :
  0 < regionSize → 0 ≤ regionOffset →
  end_ ≤ start + Z.of_nat h * (regionSize + regionOffset) →
  (h ≠ 0%nat →
   start + (Z.of_nat h - 1) * (regionSize + regionOffset) + regionSize
     ≤ end_) →
  (Z.to_nat regionSize * h < fuel)%nat →
  let it := rangeRegion start end_ 1 regionSize regionOffset in
  let offsets :=
    rectangleOffsets start regionSize (regionSize + regionOffset) h in
  visitedOffsets acc fuel it = Some offsets ∧
  getIteratorValues acc fuel it = Some ((λ o, Yield (acc o)) <$> offsets).
Proof.
  intros Hw Hoff Hup Hlow Hfuel it offsets.
  assert (visitedOffsets acc fuel it = Some offsets) as Hv
    by by apply rangeRegion_rectangle.
  split; [done|].
  rewrite scalar_values_from_offsets by done. by rewrite Hv.
Qed.

(** Three rows of three samples in a grid of four columns. *)
Lemma rangeRegion_closed_form_witness :
  visitedOffsets (λ o : Z, o) 10 (rangeRegion 0 11 1 3 1) =
  Some [0; 1; 2; 4; 5; 6; 8; 9; 10].
Proof.
  destruct (rangeRegion_closed_form (λ o : Z, o) 0 11 3 1 3 10)
    as (Hv & _); [lia.. | exact Hv].
Defined.

Section range3d_closed_forms.
Context {A : Type} (acc : Z → A).

Lemma seqZ_fmap_cons {B} (g : Z → B) (n : Z) :
  0 ≤ n → g <$> seqZ 0 (1 + n) = g 0 :: ((λ j, g (1 + j)) <$> seqZ 0 n).
Proof.
  intros Hn. rewrite (seqZ_cons 0 (1 + n)) by lia.
  replace (Z.pred (1 + n)) with n by lia.
  rewrite fmap_cons. f_equal.
  by rewrite <- (fmap_add_seqZ 1 0), <- list_fmap_compose.
Qed.

Lemma range3d_visits_from (end_ inc : Z) (fuel : nat) (i0 i1 i2 : Z) :
  0 < inc → stepsBelow i0 end_ inc < Z.of_nat fuel →
  visitedOffsets acc fuel (ItRange3d (Range3dState end_ inc i0 i1 i2)) =
  Some (mjoin ((λ j, [i0 + j * inc; i1 + j * inc; i2 + j * inc]) <$>
          seqZ 0 (stepsBelow i0 end_ inc))) ∧
  getIteratorValues acc fuel (ItRange3d (Range3dState end_ inc i0 i1 i2)) =
  Some ((λ j, Yield3 (acc (i0 + j * inc)) (acc (i1 + j * inc))
                     (acc (i2 + j * inc))) <$>
          seqZ 0 (stepsBelow i0 end_ inc)).
Proof.
  intros Hinc. revert i0 i1 i2.
  induction fuel as [|fuel IH]; intros i0 i1 i2 Hfuel.
  { pose proof (stepsBelow_nonneg i0 end_ inc). lia. }
  simpl. unfold range3d_next. simpl.
  destruct (Z.ltb_spec i0 end_) as [Hlt|Hge]; simpl.
  - rewrite (stepsBelow_next i0) in * by done.
    destruct (IH (i0 + inc) (i1 + inc) (i2 + inc)) as [-> ->]; [lia|].
    pose proof (stepsBelow_nonneg (i0 + inc) end_ inc) as Hn.
    rewrite !seqZ_fmap_cons by done. simpl.
    rewrite !Z.add_0_r.
    split; do 2 f_equal.
    + do 3 f_equal. apply list_fmap_ext. intros ? j ?. simpl.
      by replace (i0 + inc + j * inc) with (i0 + (1 + j) * inc) by lia;
         replace (i1 + inc + j * inc) with (i1 + (1 + j) * inc) by lia;
         replace (i2 + inc + j * inc) with (i2 + (1 + j) * inc) by lia.
    + apply list_fmap_ext. intros ? j ?. simpl.
      by replace (i0 + inc + j * inc) with (i0 + (1 + j) * inc) by lia;
         replace (i1 + inc + j * inc) with (i1 + (1 + j) * inc) by lia;
         replace (i2 + inc + j * inc) with (i2 + (1 + j) * inc) by lia.
  - by rewrite stepsBelow_done by lia.
Qed.

Lemma range3d_unfold (start end_ : Z) increment isPlanar :
  range3d start end_ increment isPlanar =
  ItRange3d (Range3dState end_ (range3dStep increment isPlanar) start
    (start + range3dStride start end_ isPlanar)
    (start + 2 * range3dStride start end_ isPlanar)).
Proof.
  unfold range3d, range3dStep, range3dStride.
  by destruct (default false isPlanar).
Qed.

Lemma stepsBelow_exact (start n inc : Z) :
  0 < inc → 0 ≤ n → stepsBelow start (start + n * inc) inc = n.
Proof.
  intros Hinc Hn. unfold stepsBelow.
  replace (start + n * inc - start + inc - 1) with (inc - 1 + n * inc) by lia.
  rewrite Z.div_add by lia. rewrite Z.div_small by lia. lia.
Qed.

Lemma range3d_closed (start end_ : Z) increment isPlanar (fuel : nat) :
  let step := range3dStep increment isPlanar in
  let stride := range3dStride start end_ isPlanar in
  let n := stepsBelow start end_ step in
  0 < default 1 increment → n < Z.of_nat fuel →
  visitedOffsets acc fuel (range3d start end_ increment isPlanar) =
  Some (mjoin ((λ j, [start + j * step; start + stride + j * step;
                      start + 2 * stride + j * step]) <$> seqZ 0 n)) ∧
  getIteratorValues acc fuel (range3d start end_ increment isPlanar) =
  Some ((λ j, Yield3 (acc (start + j * step))
                     (acc (start + stride + j * step))
                     (acc (start + 2 * stride + j * step))) <$> seqZ 0 n).
Proof.
  intros step stride n Hinc Hfuel. rewrite range3d_unfold.
  apply range3d_visits_from; [|done].
  unfold step, range3dStep. destruct (default false isPlanar); lia.
Qed.

Lemma interleaved_offsets (k : nat) (start : Z) :
  mjoin ((λ j, [start + j * 3; start + 1 + j * 3; start + 2 * 1 + j * 3]) <$>
           seqZ 0 (Z.of_nat k)) =
  seqZ start (3 * Z.of_nat k).
Proof.
  revert start. induction k as [|k IH]; intros start; [done|].
  replace (Z.of_nat (S k)) with (1 + Z.of_nat k) by lia.
  rewrite seqZ_fmap_cons by lia. simpl mjoin.
  rewrite (seqZ_cons start) by lia.
  rewrite (seqZ_cons (Z.succ start)) by lia.
  rewrite (seqZ_cons (Z.succ (Z.succ start))) by lia.
  replace (Z.pred (Z.pred (Z.pred (3 * (1 + Z.of_nat k)))))
    with (3 * Z.of_nat k) by lia.
  replace (Z.succ (Z.succ (Z.succ start))) with (start + 3) by lia.
  rewrite <- IH. simpl. rewrite !Z.add_0_r.
  replace (Z.succ start) with (start + 1) by lia.
  replace (Z.succ (start + 1)) with (start + 2 * 1) by lia.
  do 4 f_equal. apply list_fmap_ext. intros ? j ?. simpl.
  by replace (start + (1 + j) * 3) with (start + 3 + j * 3) by lia;
     replace (start + 1 + (1 + j) * 3) with (start + 3 + 1 + j * 3) by lia;
     replace (start + 2 * 1 + (1 + j) * 3)
       with (start + 3 + 2 * 1 + j * 3) by lia.
Qed.

End range3d_closed_forms.

(** X3. [range3d] on interleaved data (RGBRGB...), with the increment left
    at 1: over [start, start + 3n) draining emits exactly [n] triples, the
    [j]-th holding the samples at [start + 3j], [start + 3j + 1] and
    [start + 3j + 2]; every offset of the interval is read exactly once, in
    increasing order, and none outside it. *)
Theorem range3d_interleaved_closed_form {A : Type} (acc : Z → A)
    (start n : Z) (increment : option Z) (isPlanar : option bool)
    (fuel : nat) :
  default 1 increment = 1 → default false isPlanar = false →
  0 ≤ n → n < Z.of_nat fuel →
  let it := range3d start (start + 3 * n) increment isPlanar in
  getIteratorValues acc fuel it =
  Some ((λ j, Yield3 (acc (start + 3 * j)) (acc (start + 3 * j + 1))
                     (acc (start + 3 * j + 2))) <$> seqZ 0 n) ∧
  visitedOffsets acc fuel it = Some (seqZ start (3 * n)).
Proof.
  intros Hinc Hpl Hn Hfuel it.
  destruct (range3d_closed acc start (start + 3 * n) increment isPlanar fuel)
    as [Hv Hg].
  { by rewrite Hinc. }
  { unfold range3dStep. rewrite Hpl, Hinc.
    replace (start + 3 * n) with (start + n * (1 * 3)) by lia.
    rewrite stepsBelow_exact by lia. lia. }
  subst it. rewrite Hv, Hg. clear Hv Hg.
  unfold range3dStep, range3dStride. rewrite Hpl, Hinc.
  replace (start + 3 * n) with (start + n * (1 * 3)) by lia.
  rewrite stepsBelow_exact by lia.
  split; f_equal.
  - apply list_fmap_ext. intros ? j ?. f_equal; f_equal; lia.
  - replace n with (Z.of_nat (Z.to_nat n)) by lia.
    by rewrite <- interleaved_offsets.
Qed.

(** Two interleaved pixels from offset 6. *)
Lemma range3d_interleaved_closed_form_witness :
  getIteratorValues (λ o : Z, o) 3 (range3d 6 12 None None) =
  Some [Yield3 6 7 8; Yield3 9 10 11].
Proof.
  destruct (range3d_interleaved_closed_form (λ o : Z, o) 6 2 None None 3)
    as (Hg & _); [done | done | lia | lia | exact Hg].
Defined.

(** X4. [range3d] on planar data (RR...GG...BB...), with the increment left
    at 1: over [start, start + 3n) the component stride is [n], and the
    loop test compares the first component's index with [end], so draining
    emits [3n] triples, not [n]: the [j]-th holds the samples at
    [start + j], [start + n + j] and [start + 2n + j] for every
    [0 <= j < 3n]. From the [n]-th triple on, the third component is read
    at or beyond [end]. *)
Theorem range3d_planar_closed_form {A : Type} (acc : Z → A)
    (start n : Z) (increment : option Z) (fuel : nat) :
  default 1 increment = 1 →
  0 ≤ n → 3 * n < Z.of_nat fuel →
  let it := range3d start (start + 3 * n) increment (Some true) in
  getIteratorValues acc fuel it =
  Some ((λ j, Yield3 (acc (start + j)) (acc (start + n + j))
                     (acc (start + 2 * n + j))) <$> seqZ 0 (3 * n)) ∧
  visitedOffsets acc fuel it =
  Some (mjoin ((λ j, [start + j; start + n + j; start + 2 * n + j]) <$>
                 seqZ 0 (3 * n))).
Proof.
  intros Hinc Hn Hfuel it.
  destruct (range3d_closed acc start (start + 3 * n) increment (Some true)
              fuel) as [Hv Hg].
  { by rewrite Hinc. }
  { unfold range3dStep. simpl. rewrite Hinc.
    replace (start + 3 * n) with (start + (3 * n) * 1) by lia.
    rewrite stepsBelow_exact by lia. lia. }
  subst it. rewrite Hg, Hv. clear Hv Hg.
  unfold range3dStep, range3dStride. simpl. rewrite Hinc.
  replace (start + 3 * n - start) with (n * 3) by lia.
  rewrite Z.div_mul by lia.
  replace (start + 3 * n) with (start + (3 * n) * 1) by lia.
  rewrite stepsBelow_exact by lia.
  split; f_equal.
  - apply list_fmap_ext. intros ? j ?. f_equal; f_equal; lia.
  - f_equal. apply list_fmap_ext. intros ? j ?. simpl.
    by replace (start + j * 1) with (start + j) by lia;
       replace (start + n + j * 1) with (start + n + j) by lia;
       replace (start + 2 * n + j * 1) with (start + 2 * n + j) by lia.
Qed.

(** One planar pixel: three samples at offsets 0, 1, 2, and three triples,
    the last two reading offsets 3 and 4. *)
Lemma range3d_planar_closed_form_witness :
  getIteratorValues (λ o : Z, o) 4 (range3d 0 3 None (Some true)) =
  Some [Yield3 0 1 2; Yield3 1 2 3; Yield3 2 3 4].
Proof.
  destruct (range3d_planar_closed_form (λ o : Z, o) 0 1 None 4)
    as (Hg & _); [done | lia | lia | exact Hg].
Defined.

(** ** The regions of rangeRegions *)

Ltac by_computation := apply (bool_decide_unpack _); by vm_compute.

Section rangeRegions_facts.
Context {A : Type} (acc : Z → A).

Lemma pulls_app (n m : nat) (it : iterator) :
  pulls acc (n + m) it = pulls acc n it ++ pulls acc m (Nat.iter n (step acc) it).
Proof.
  revert it. induction n as [|n IH]; intros it; [done|].
  rewrite Nat.iter_succ_r. change (S n + m)%nat with (S (n + m)).
  cbn [pulls]. by rewrite IH.
Qed.

Lemma visitedOffsets_pulls (n fuel : nat) (it : iterator) :
  Forall (λ p, is_Some (emitted (result p))) (pulls acc n it) →
  visitedOffsets acc (n + fuel) it =
  app (mjoin (calls <$> pulls acc n it)) <$>
    visitedOffsets acc fuel (Nat.iter n (step acc) it).
Proof.
  revert it. induction n as [|n IH]; intros it Hy.
  { simpl. by destruct (visitedOffsets _ _ _). }
  cbn [pulls] in Hy. apply Forall_cons_1 in Hy as [Hy1 Hy].
  rewrite Nat.iter_succ_r. change (S n + fuel)%nat with (S (n + fuel)).
  simpl visitedOffsets. simpl pulls.
  destruct (result (next acc it)) eqn:Hr; try by destruct Hy1.
  - rewrite IH by done. rewrite fmap_cons. simpl mjoin.
    destruct (visitedOffsets _ _ _); [|done]. simpl. by rewrite app_assoc.
  - rewrite IH by done. rewrite fmap_cons. simpl mjoin.
    destruct (visitedOffsets _ _ _); [|done]. simpl. by rewrite app_assoc.
Qed.

Lemma rangeRegions_row (end_ : Z) (regions : list (Z * Z * Z))
    (k : nat) (off0 size off1 p c : Z) (m : nat) :
  regions !! k = Some (off0, size, off1) →
  c + Z.of_nat (S m) = size → p + size ≤ end_ → 0 ≤ c →
  let st := ItRangeRegions (RangeRegionsState end_ 1 regions (p + c) k c) in
  observation <$> pulls acc (S m) st =
  yields acc <$> seqZ (p + c) (Z.of_nat (S m)) ∧
  Nat.iter (S m) (step acc) st =
  ItRangeRegions
    (RangeRegionsState end_ 1 regions
       (p + size + off1 + leadingOffset (drop (S k) regions)) (S k) 0).
Proof.
  intros Hk. revert c. induction m as [|m IH]; intros c Hc Hend Hc0 st.
  - subst st. cbn [pulls].
    change (Nat.iter 1 (step acc) ?x) with (step acc x). unfold step. cbn [next].
    unfold rangeRegions_next.
    cbn [rs_nextIndex rs_end rs_regions rs_regionCount
         rs_regionElementCount rs_increment].
    destruct (Z.ltb_spec (p + c) end_); [|lia]. rewrite Hk.
    destruct (Z.eqb_spec (c + 1) size); [|lia]. simpl.
    split; [done|]. do 2 f_equal.
    destruct (regions !! S k) as [[[o ?] ?]|] eqn:Hn.
    + rewrite (drop_S _ _ _ Hn). simpl. lia.
    + rewrite drop_ge; [simpl; lia|]. by apply lookup_ge_None.
  - destruct (IH (c + 1)) as [Hobs Hiter]; [lia | lia | lia |].
    subst st. rewrite Nat.iter_succ_r.
    change (pulls acc (S (S m)) ?x)
      with (next acc x :: pulls acc (S m) (after (next acc x))).
    unfold step at 2.
    assert (next acc
              (ItRangeRegions
                 (RangeRegionsState end_ 1 regions (p + c) k c)) =
            Pull [p + c] (Yield (acc (p + c)))
              (ItRangeRegions
                 (RangeRegionsState end_ 1 regions (p + (c + 1)) k (c + 1))))
      as ->.
    { cbn [next]. unfold rangeRegions_next.
      cbn [rs_nextIndex rs_end rs_regions rs_regionCount
           rs_regionElementCount rs_increment].
      destruct (Z.ltb_spec (p + c) end_); [|lia]. rewrite Hk.
      destruct (Z.eqb_spec (c + 1) size); [lia|].
      do 3 f_equal. lia. }
    cbn [after]. split; [|exact Hiter].
    rewrite fmap_cons, Hobs.
    rewrite (seqZ_cons (p + c) (Z.of_nat (S (S m)))) by lia.
    rewrite fmap_cons. f_equal.
    replace (Z.succ (p + c)) with (p + (c + 1)) by lia.
    by replace (Z.pred (Z.of_nat (S (S m)))) with (Z.of_nat (S m)) by lia.
Qed.

Lemma rangeRegions_regions (end_ : Z) (regions pre rest : list (Z * Z * Z))
    (p : Z) :
  regions = pre ++ rest →
  Forall (λ r, 0 < r.1.2) rest →
  Forall (λ o, o < end_) (regionsOffsets p rest) →
  let st :=
    ItRangeRegions
      (RangeRegionsState end_ 1 regions p (length pre) 0) in
  let n := length (regionsOffsets p rest) in
  observation <$> pulls acc n st = yields acc <$> regionsOffsets p rest ∧
  Nat.iter n (step acc) st =
  ItRangeRegions
    (RangeRegionsState end_ 1 regions (regionsEnd p rest) (length regions) 0).
Proof.
  revert pre p. induction rest as [|[[off0 size] off1] rest IH];
    intros pre p Hreg Hsize Hend st n.
  { subst st n. simpl. rewrite Hreg, app_nil_r. done. }
  apply Forall_cons_1 in Hsize as [Hs Hsize]. simpl in Hs.
  simpl regionsOffsets in *. apply Forall_app in Hend as [Hrow Hend].
  subst n. rewrite length_app, length_seqZ.
  assert (regions !! length pre = Some (off0, size, off1)) as Hk.
  { rewrite Hreg. by rewrite list_lookup_middle. }
  assert (drop (S (length pre)) regions = rest) as Hdrop.
  { rewrite Hreg. rewrite (cons_middle _ pre rest), app_assoc.
    rewrite drop_app_length'; [done|]. rewrite length_app. simpl. lia. }
  destruct (rangeRegions_row end_ regions (length pre) off0 size off1 p 0
              (Z.to_nat (size - 1)) Hk) as [Hobs Hiter]; [lia| |lia|].
  { assert (p + (size - 1) < end_); [|lia].
    rewrite Forall_seqZ in Hrow. apply Hrow. lia. }
  rewrite Hdrop in Hiter. rewrite Z.add_0_r in Hobs, Hiter.
  replace (Z.to_nat size) with (S (Z.to_nat (size - 1))) by lia.
  rewrite pulls_app.
  destruct (IH (pre ++ [(off0, size, off1)])
              (p + size + off1 + leadingOffset rest)) as [Hobs' Hiter'];
    [by rewrite <- app_assoc | done | done |].
  rewrite length_app in Hobs', Hiter'. simpl in Hobs', Hiter'.
  replace (length pre + 1)%nat with (S (length pre)) in * by lia.
  subst st. split.
  - rewrite fmap_app, Hobs, Hiter, Hobs', fmap_app.
    by replace (Z.of_nat (S (Z.to_nat (size - 1)))) with size by lia.
  - rewrite Nat.add_comm, Nat.iter_add. by rewrite Hiter, Hiter'.
Qed.

End rangeRegions_facts.

Section rangeRegions_drain.
Context {A : Type} (acc : Z → A).

Lemma yields_emitted (l : list (pull (A:=A))) (offsets : list Z) :
  observation <$> l = yields acc <$> offsets →
  Forall (λ p, is_Some (emitted (result p))) l ∧
  mjoin (calls <$> l) = offsets.
Proof.
  revert offsets. induction l as [|p l IH]; intros [|o offsets] Hobs;
    try done.
  rewrite !fmap_cons in Hobs. unfold observation at 1, yields at 1 in Hobs.
  injection Hobs as Hc He Hl.
  destruct (IH _ Hl) as [Hall Hcalls].
  split.
  - constructor; [by rewrite He|done].
  - rewrite fmap_cons. simpl. by rewrite Hc, Hcalls.
Qed.

Lemma rangeRegions_drained (start end_ : Z) (regions : list (Z * Z * Z))
    (fuel : nat) :
  Forall (λ r, 0 < r.1.2) regions →
  Forall (λ o, o < end_) (regionsOffsets start regions) →
  end_ ≤ regionsEnd start regions →
  (length (regionsOffsets start regions) < fuel)%nat →
  visitedOffsets acc fuel (rangeRegions start end_ 1 regions) =
  Some (regionsOffsets start regions).
Proof.
  intros Hsize Hbelow Hend Hfuel.
  destruct (rangeRegions_regions acc end_ regions [] regions start)
    as [Hobs Hiter]; [done..|].
  change (length (@nil (Z * Z * Z))) with 0%nat in Hobs, Hiter.
  apply yields_emitted in Hobs as [Hall Hcalls].
  unfold rangeRegions.
  replace fuel with (length (regionsOffsets start regions) +
                     S (fuel - length (regionsOffsets start regions) - 1))%nat
    by lia.
  rewrite visitedOffsets_pulls by done.
  rewrite Hiter, Hcalls.
  cbn [visitedOffsets next]. unfold rangeRegions_next.
  cbn [rs_nextIndex rs_end].
  destruct (Z.ltb_spec (regionsEnd start regions) end_); [lia|].
  simpl. by rewrite app_nil_r.
Qed.

Lemma rangeRegions_raised (start end_ : Z) (regions : list (Z * Z * Z)) :
  Forall (λ r, 0 < r.1.2) regions →
  Forall (λ o, o < end_) (regionsOffsets start regions) →
  regionsEnd start regions < end_ →
  let it := rangeRegions start end_ 1 regions in
  let n := length (regionsOffsets start regions) in
  observation <$> pulls acc n it = yields acc <$> regionsOffsets start regions ∧
  result (next acc (Nat.iter n (step acc) it)) = TypeError ∧
  ∀ fuel, visitedOffsets acc (n + fuel) it = None.
Proof.
  intros Hsize Hbelow Hend it n.
  destruct (rangeRegions_regions acc end_ regions [] regions start)
    as [Hobs Hiter]; [done..|].
  change (length (@nil (Z * Z * Z))) with 0%nat in Hobs, Hiter.
  fold n in Hobs, Hiter.
  assert (result (next acc (Nat.iter n (step acc) it)) = TypeError) as Hr.
  { subst it. unfold rangeRegions. rewrite Hiter.
    cbn [next]. unfold rangeRegions_next. cbn [rs_nextIndex rs_end].
    destruct (Z.ltb_spec (regionsEnd start regions) end_); [|lia].
    cbn [rs_regions rs_regionCount].
    by rewrite (proj2 (lookup_ge_None regions (length regions))) by lia. }
  split; [done|]. split; [done|].
  intros fuel. apply yields_emitted in Hobs as [Hall Hcalls].
  rewrite visitedOffsets_pulls by done.
  destruct fuel as [|fuel]; [done|].
  cbn [visitedOffsets]. by rewrite Hr.
Qed.

End rangeRegions_drain.

Section fuel_facts.
Context {A : Type} (acc : Z → A).

Lemma visitedOffsets_more_fuel (fuel k : nat) (it : iterator)
    (l : list Z) :
  visitedOffsets acc fuel it = Some l →
  visitedOffsets acc (fuel + k) it = Some l.
Proof.
  revert it l. induction fuel as [|fuel IH]; intros it l; [done|].
  cbn [visitedOffsets Nat.add].
  destruct (result (next acc it)); try done.
  - destruct (visitedOffsets acc fuel _) as [l'|] eqn:Hl'; [|done].
    by rewrite (IH _ _ Hl').
  - destruct (visitedOffsets acc fuel _) as [l'|] eqn:Hl'; [|done].
    by rewrite (IH _ _ Hl').
Qed.

Lemma pulls_length (n : nat) (it : iterator) : length (pulls acc n it) = n.
Proof.
  revert it. induction n as [|n IH]; intros it; [done|].
  cbn [pulls length]. by rewrite IH.
Qed.

Lemma pulls_last (n : nat) (it : iterator) :
  pulls acc (S n) it !! n = Some (next acc (Nat.iter n (step acc) it)).
Proof.
  replace (S n) with (n + 1)%nat by lia. rewrite pulls_app.
  rewrite lookup_app_r by (rewrite pulls_length; lia).
  by rewrite pulls_length, Nat.sub_diag.
Qed.

End fuel_facts.

(** X5. [rangeRegions(accessor, start, end, 1, regions)] with regions
    [[off0, size, off1]] of positive size: when every sample of the
    regions lies below [end] and [end] is not beyond the index reached
    after the last region, draining visits exactly the samples of the
    regions, region after region -- [size] consecutive offsets, then a gap
    of the region's [off1] plus the next region's [off0] -- and emits the
    accessor's value at each. The leading offset of the first region is
    not applied. *)
Theorem rangeRegions_closed_form {A : Type} (acc : Z → A)
    (start end_ : Z) (regions : list (Z * Z * Z)) (fuel : nat) :
  Forall (λ r, 0 < r.1.2) regions →
  Forall (λ o, o < end_) (regionsOffsets start regions) →
  end_ ≤ regionsEnd start regions →
  (length (regionsOffsets start regions) < fuel)%nat →
  let it := rangeRegions start end_ 1 regions in
  visitedOffsets acc fuel it = Some (regionsOffsets start regions) ∧
  getIteratorValues acc fuel it =
  Some ((λ o, Yield (acc o)) <$> regionsOffsets start regions).
Proof.
  intros Hsize Hbelow Hend Hfuel it.
  assert (visitedOffsets acc fuel it = Some (regionsOffsets start regions))
    as Hv by by apply rangeRegions_drained.
  split; [done|].
  rewrite scalar_values_from_offsets by done. by rewrite Hv.
Qed.

(** Two samples, a gap of two, one sample. *)
Lemma rangeRegions_closed_form_witness :
  visitedOffsets (λ o : Z, o) 4 (rangeRegions 0 6 1 [(0, 2, 1); (1, 1, 1)]) =
  Some [0; 1; 4].
Proof.
  destruct (rangeRegions_closed_form (λ o : Z, o) 0 6
              [(0, 2, 1); (1, 1, 1)] 4) as (Hv & _);
    [by_computation | by_computation | by vm_compute | by vm_compute
    | exact Hv].
Defined.

(** X6. [rangeRegions] with an [end] beyond the index reached after the
    last region: the samples of the regions are emitted as before, and the
    pull after the last sample reads [regions[regions.length]] and raises
    a [TypeError]; draining never completes, whatever the budget. *)
Theorem rangeRegions_raises_past_regions {A : Type} (acc : Z → A)
    (start end_ : Z) (regions : list (Z * Z * Z)) :
  Forall (λ r, 0 < r.1.2) regions →
  Forall (λ o, o < end_) (regionsOffsets start regions) →
  regionsEnd start regions < end_ →
  let it := rangeRegions start end_ 1 regions in
  let n := length (regionsOffsets start regions) in
  observation <$> pulls acc n it =
  (λ o, ([o], Some [acc o])) <$> regionsOffsets start regions ∧
  (∃ p, pulls acc (S n) it !! n = Some p ∧ result p = TypeError) ∧
  ∀ fuel, getIteratorValues acc fuel it = None.
Proof.
  intros Hsize Hbelow Hend it n.
  destruct (rangeRegions_raised acc start end_ regions Hsize Hbelow Hend)
    as (Hobs & Hr & Hnone).
  split; [done|]. split.
  { eexists. split; [apply pulls_last|done]. }
  intros fuel. rewrite scalar_values_from_offsets by done.
  destruct (visitedOffsets acc fuel it) as [l|] eqn:Hl; [|done].
  apply (visitedOffsets_more_fuel acc fuel n) in Hl.
  rewrite Nat.add_comm in Hl. fold it n in Hnone. by rewrite Hnone in Hl.
Qed.

(** The same regions with [end] one beyond their reach. *)
Lemma rangeRegions_raises_past_regions_witness :
  getIteratorValues (λ o : Z, o) 10
    (rangeRegions 0 7 1 [(0, 2, 1); (1, 1, 1)]) = None.
Proof.
  destruct (rangeRegions_raises_past_regions (λ o : Z, o) 0 7
              [(0, 2, 1); (1, 1, 1)]) as (_ & _ & Hnone);
    [by_computation | by_computation | by vm_compute | apply Hnone].
Defined.

(** ** Offsets of positions *)

Section geometry_facts.





End geometry_facts.

(** ** What the planned iterators visit *)

Section planner_closed_forms.
Context `{collab : Collaborators}.




Lemma getSliceIterator_default_run (st : Store) (image : loc)
    (position : Index) (isRescaled : option bool) :
  let i := images st !!! image in
  let g := geometries st !!! geometry i in
  let start := sliceStart g position None in
  numberOfComponents i = Qc_of_Z 1 →
  getSliceIterator image position isRescaled None st =
  (Ok (mkSliceIterator (sliceAccessor image isRescaled)
         (simpleRange start (start + getDimSize (getSize g) 2) None)), st).
Proof.
  intros i g start Hn.
  unfold getSliceIterator, bind, theImage, theGeometry, gets, ret.
  fold i. fold g. rewrite Hn.
  by rewrite bool_decide_eq_true_2.
Qed.

Lemma getSliceIterator_axial_run (st : Store) (image : loc)
    (position : Index) (isRescaled : option bool) (v : Matrix33) :
  let i := images st !!! image in
  let g := geometries st !!! geometry i in
  let start := sliceStart g position None in
  numberOfComponents i = Qc_of_Z 1 →
  getColAbsMax_index v 2 = 2 → getColAbsMax_index v 0 = 0 →
  getSliceIterator image position isRescaled (Some v) st =
  (Ok (mkSliceIterator (sliceAccessor image isRescaled)
         (range start (start + getDimSize (getSize g) 2 - 1) 1
            (get (getSize g) 0) (get (getSize g) 0)
            (Some false) (Some false))), st).
Proof.
  intros i g start Hn H2 H0.
  unfold getSliceIterator, bind, theImage, theGeometry, gets, ret.
  fold i. fold g. rewrite Hn, H2, H0.
  by rewrite bool_decide_eq_true_2.
Qed.

End planner_closed_forms.



(** X8. For a single-component image, the axial view orientation (the
    third view axis along the slice axis, the first along the columns)
    plans an iterator that is indistinguishable from the one planned
    without orientation: pull by pull, both call the accessor at the same
    offsets and emit the same values. *)
Theorem getSliceIterator_axial_is_default `{collab : Collaborators}
    (st : Store) (image : loc) (position : Index)
    (isRescaled : option bool) (v : Matrix33) :
  let i := images st !!! image in
  let acc := dataAccessor (sliceAccessor image isRescaled) st in
  numberOfComponents i = Qc_of_Z 1 →
  getColAbsMax_index v 2 = 2 → getColAbsMax_index v 0 = 0 →
  ∃ a it it',
    getSliceIterator image position isRescaled (Some v) st =
    (Ok (mkSliceIterator a it), st) ∧
    getSliceIterator image position isRescaled None st =
    (Ok (mkSliceIterator a it'), st) ∧
    (∀ n, observation <$> pulls acc n it = observation <$> pulls acc n it') ∧
    (∀ fuel, getIteratorValues acc fuel it = getIteratorValues acc fuel it').
Proof.
  intros i acc Hn H2 H0.
  set (g := geometries st !!! geometry i).
  set (start := sliceStart g position None).
  exists (sliceAccessor image isRescaled),
    (range start (start + getDimSize (getSize g) 2 - 1) 1
       (get (getSize g) 0) (get (getSize g) 0) (Some false) (Some false)),
    (simpleRange start (start + getDimSize (getSize g) 2) None).
  split; [by apply getSliceIterator_axial_run|].
  split; [by apply getSliceIterator_default_run|].
  assert (range start (start + getDimSize (getSize g) 2 - 1) 1
            (get (getSize g) 0) (get (getSize g) 0)
            (Some false) (Some false) =
          ItRange (RangeState start (start + getDimSize (getSize g) 2 - 1) 1
                     (get (getSize g) 0) 0 false start 0)) as ->.
  { unfold range. simpl. do 2 f_equal. lia. }
  assert (simpleRange start (start + getDimSize (getSize g) 2) None =
          ItSimpleRange
            (SimpleRangeState (start + getDimSize (getSize g) 2 - 1 + 1) 1
               start)) as ->.
  { unfold simpleRange. do 2 f_equal. lia. }
  split; intros n.
  - apply range_contiguous_pulls.
  - apply range_contiguous_values.
Qed.

(** The identity orientation on a 2 x 2 x 1 image. *)
Lemma getSliceIterator_axial_is_default_witness :
  let st := Sample.worldWithImage (mkSize 2 2 1 []) [1; 2; 3; 4] in
  ∃ a it it',
    getSliceIterator (collab := Sample.collaborators) 1%positive [0; 0; 0]
      None (Some Sample.identity33) st = (Ok (mkSliceIterator a it), st) ∧
    getSliceIterator (collab := Sample.collaborators) 1%positive [0; 0; 0]
      None None st = (Ok (mkSliceIterator a it'), st) ∧
    ∀ fuel,
      getIteratorValues
        (dataAccessor (RawAccessor 1%positive) st) fuel it =
      getIteratorValues
        (dataAccessor (RawAccessor 1%positive) st) fuel it'.
Proof.
  intros st.
  destruct (getSliceIterator_axial_is_default
              (collab := Sample.collaborators) st 1%positive [0; 0; 0]
              None Sample.identity33)
    as (a & it & it' & Hrun & Hrun' & _ & Hvalues);
    [by_computation | done | done |].
  exists a, it, it'. by repeat split.
Defined.





(** ** Variable regions *)

Section variable_regions.
Context `{collab : Collaborators}.

Lemma region_scan (ncols : Z) (l : list (nat * Region)) (sc : regionScan) :
  let l' := filter (λ kr, isEmptyRegion kr.2 = false) l in
  foldl
    (λ sc '(k, region),
       let width := fst (snd region) - fst (fst region) in
       if negb (width =? 0) then
         mkRegionScan
           (rsc_offsetRegions sc ++
            [(fst (fst region), width, ncols - fst (snd region))])
           (match rsc_min sc with
            | None => Some (fst region)
            | Some m => Some m
            end)
           (Some k)
       else sc) sc l =
  mkRegionScan
    (rsc_offsetRegions sc ++ (regionOffsets ncols ∘ snd <$> l'))
    (match rsc_min sc with
     | None => (λ kr, kr.2.1) <$> list.head l'
     | Some m => Some m
     end)
    (match list.last l' with
     | Some kr => Some kr.1
     | None => rsc_index sc
     end).
Proof.
  revert sc. induction l as [|[k region] l IH]; intros sc l'.
  { subst l'. simpl. rewrite app_nil_r. by destruct sc as [? [] ?]. }
  subst l'. cbn [foldl]. rewrite IH. clear IH.
  rewrite filter_cons. cbn [snd].
  destruct (decide (isEmptyRegion region = false)) as [He|He];
    unfold isEmptyRegion in He.
  - rewrite He. cbn [negb rsc_offsetRegions rsc_min rsc_index].
    f_equal.
    + by rewrite <- app_assoc.
    + by destruct (rsc_min sc).
    + rewrite last_cons. by destruct (list.last _).
  - apply not_false_is_true in He. by rewrite He.
Qed.

Lemma filter_indexed {X} (P : X → bool) (f : nat → X → nat * X)
    (l : list X) :
  (∀ k x, (f k x).2 = x) →
  snd <$> filter (λ kx, P kx.2 = false) (imap f l) =
  filter (λ x, P x = false) l.
Proof.
  revert f. induction l as [|x l IH]; intros f Hf; [done|].
  cbn [imap]. rewrite !filter_cons, Hf.
  destruct (decide (P x = false)).
  - rewrite fmap_cons, Hf. f_equal. apply IH. intros k y. apply Hf.
  - apply IH. intros k y. apply Hf.
Qed.

Lemma getVariableRegionSliceIterator_run (st : Store) (image : loc)
    (position : Index) (isRescaled : option bool) (regions : list Region) :
  let i := images st !!! image in
  let g := geometries st !!! geometry i in
  let kept := filter (λ r, isEmptyRegion r = false) regions in
  numberOfComponents i = Qc_of_Z 1 →
  getVariableRegionSliceIterator image position isRescaled regions st =
  (Ok (match list.head kept, list.last kept with
       | Some first, Some final =>
           Some (mkSliceIterator (sliceAccessor image isRescaled)
                   (rangeRegions
                      (indexToOffset g
                         (getWithNew2D position first.1.1 first.1.2))
                      (indexToOffset g
                         (getWithNew2D position final.2.1 final.2.2) + 1)
                      1 (regionOffsets (get (getSize g) 0) <$> kept)))
       | _, _ => None
       end), st).
Proof.
  intros i g kept Hn.
  unfold getVariableRegionSliceIterator. rewrite bind_run.
  unfold theImage at 1, gets at 1. fold i.
  rewrite Hn, bool_decide_eq_true_2 by done. cbn [negb].
  rewrite bind_run. unfold theGeometry at 1, gets at 1. fold g.
  cbv zeta. rewrite region_scan.
  cbn [rsc_offsetRegions rsc_min rsc_index app].
  set (l' := filter _ (imap _ regions)).
  assert (snd <$> l' = kept) as Hkept.
  { subst l' kept. by apply (filter_indexed isEmptyRegion). }
  rewrite list_fmap_compose, Hkept.
  assert (list.head kept = snd <$> list.head l') as ->.
  { rewrite <- Hkept. by destruct l'. }
  assert (list.last kept = snd <$> list.last l') as ->.
  { rewrite <- Hkept. by rewrite fmap_last. }
  destruct (list.last l') as [[k final]|] eqn:Hlast.
  2: { apply last_None in Hlast. rewrite Hlast in *. simpl in Hkept.
       rewrite <- Hkept. by rewrite bool_decide_eq_true_2. }
  assert (regions !! k = Some final) as Hk.
  { apply last_Some_elem_of in Hlast.
    apply list_elem_of_filter in Hlast as [_ Hin].
    apply elem_of_lookup_imap in Hin as (j & y & [= -> ->] & Hj). done. }
  destruct (list.head l') as [[k0 first]|] eqn:Hhead.
  2: { destruct l'; [done|discriminate]. }
  simpl. unfold Region in *. rewrite Hk. simpl.
  rewrite bool_decide_eq_false_2; [done|].
  rewrite <- Hkept. by destruct l'.
Qed.

End variable_regions.

Section row_regions.
Context (base ncols : Z).


End row_regions.


Section variable_rows.
Context `{collab : Collaborators}.


End variable_rows.





(** X13. [getVariableRegionSliceIterator] returns no iterator
    ([undefined]) and leaves the store alone when every region has zero
    width -- in particular for an empty list; for an image whose component
    count is not 1 it throws before looking at the regions. *)
Theorem getVariableRegionSliceIterator_no_region `{collab : Collaborators}
    (st : Store) (image : loc) (position : Index)
    (isRescaled : option bool) (regions : list Region) :
  let i := images st !!! image in
  (numberOfComponents i = Qc_of_Z 1 →
   Forall (λ r, r.2.1 = r.1.1) regions →
   getVariableRegionSliceIterator image position isRescaled regions st =
   (Ok None, st)) ∧
  (numberOfComponents i ≠ Qc_of_Z 1 →
   getVariableRegionSliceIterator image position isRescaled regions st =
   (Throw ("Unsupported number of components for region iterator: " +:+
           numberToString (numberOfComponents i)), st)).
Proof.
  intros i. split.
  - intros Hn Hempty.
    rewrite getVariableRegionSliceIterator_run by done.
    assert (filter (λ r, isEmptyRegion r = false) regions = []) as ->; [|done].
    induction Hempty as [|r rs Hr _ IH]; [done|].
    rewrite filter_cons_False; [done|].
    unfold isEmptyRegion. rewrite Hr, Z.sub_diag. done.
  - intros Hn. unfold getVariableRegionSliceIterator. rewrite bind_run.
    unfold theImage at 1, gets at 1. fold i.
    by rewrite bool_decide_eq_false_2.
Qed.

(** Two empty regions. *)
Lemma getVariableRegionSliceIterator_no_region_witness :
  let st := Sample.worldWithImage (mkSize 3 2 1 []) [1; 2; 3; 4; 5; 6] in
  getVariableRegionSliceIterator (collab := Sample.collaborators)
    1%positive [0; 0; 0] None [((1, 0), (1, 0)); ((2, 1), (2, 1))] st =
  (Ok None, st).
Proof.
  intros st.
  apply (getVariableRegionSliceIterator_no_region
           (collab := Sample.collaborators) st 1%positive [0; 0; 0] None
           [((1, 0), (1, 0)); ((2, 1), (2, 1))]).
  - by_computation.
  - by repeat constructor.
Defined.

(** ** The data range *)

Section data_range_facts.

Lemma scanRange_cons (a : list Qc) (k : Z) (l : list Z) (mn mx : jsval) :
  scanRange a (k :: l) (mn, mx) =
  scanRange a l
    (if js_lt (readSample a k) mn then readSample a k else mn,
     if js_gt (readSample a k) mx then readSample a k else mx).
Proof. done. Qed.

Lemma scanRange_bounds (a : list Qc) (l : list Z) (mn0 mx0 : Qc) :
  (∀ k, k ∈ l → is_Some (array_get a k)) →
  ∃ mn mx,
    scanRange a l (JNum mn0, JNum mx0) = (JNum mn, JNum mx) ∧
    (mn ≤ mn0)%Qc ∧ (mx0 ≤ mx)%Qc ∧
    (∀ k q, k ∈ l → array_get a k = Some q → (mn ≤ q)%Qc ∧ (q ≤ mx)%Qc) ∧
    (mn = mn0 ∨ ∃ k, k ∈ l ∧ array_get a k = Some mn) ∧
    (mx = mx0 ∨ ∃ k, k ∈ l ∧ array_get a k = Some mx).
Proof.
  revert mn0 mx0. induction l as [|k l IH]; intros mn0 mx0 Hin.
  { exists mn0, mx0. split; [done|].
    split; [apply Qcle_refl|]. split; [apply Qcle_refl|].
    split; [|split; by left].
    intros k q Hk. by apply elem_of_nil in Hk. }
  destruct (Hin k (list_elem_of_here _ _)) as [q Hq].
  rewrite scanRange_cons.
  assert (readSample a k = JNum q) as -> by (unfold readSample; by rewrite Hq).
  unfold js_gt, js_lt.
  set (mn1 := if bool_decide (q < mn0)%Qc then q else mn0).
  set (mx1 := if bool_decide (mx0 < q)%Qc then q else mx0).
  assert ((if bool_decide (q < mn0)%Qc then JNum q else JNum mn0) = JNum mn1)
    as -> by (subst mn1; by case_bool_decide).
  assert ((if bool_decide (mx0 < q)%Qc then JNum q else JNum mx0) = JNum mx1)
    as -> by (subst mx1; by case_bool_decide).
  assert ((mn1 ≤ mn0)%Qc ∧ (mn1 ≤ q)%Qc ∧ (mn1 = mn0 ∨ mn1 = q)) as
    (Hmn0 & Hmnq & Hmn).
  { subst mn1. destruct (bool_decide_reflect (q < mn0)%Qc) as [Hlt|Hge].
    - split; [by apply Qclt_le_weak|]. split; [apply Qcle_refl|by right].
    - split; [apply Qcle_refl|]. split; [by apply Qcnot_lt_le|by left]. }
  assert ((mx0 ≤ mx1)%Qc ∧ (q ≤ mx1)%Qc ∧ (mx1 = mx0 ∨ mx1 = q)) as
    (Hmx0 & Hmxq & Hmx).
  { subst mx1. destruct (bool_decide_reflect (mx0 < q)%Qc) as [Hlt|Hge].
    - split; [by apply Qclt_le_weak|]. split; [apply Qcle_refl|by right].
    - split; [apply Qcle_refl|]. split; [by apply Qcnot_lt_le|by left]. }
  destruct (IH mn1 mx1) as (mn & mx & Hscan & Hle & Hge & Hall & Hamn & Hamx).
  { intros k' Hk'. apply Hin. by apply list_elem_of_further. }
  exists mn, mx. split; [exact Hscan|].
  split; [by eapply Qcle_trans|]. split; [by eapply Qcle_trans|].
  split; [|split].
  - intros k' q' Hk' Hq'. apply elem_of_cons in Hk' as [->|Hk'].
    + rewrite Hq in Hq'. injection Hq' as <-.
      split; by eapply Qcle_trans.
    + by apply (Hall k').
  - destruct Hamn as [->|(k' & Hk' & Hq')].
    + destruct Hmn as [->| ->]; [by left|].
      right. exists k. split; [apply list_elem_of_here|done].
    + right. exists k'. split; [by apply list_elem_of_further|done].
  - destruct Hamx as [->|(k' & Hk' & Hq')].
    + destruct Hmx as [->| ->]; [by left|].
      right. exists k. split; [apply list_elem_of_here|done].
    + right. exists k'. split; [by apply list_elem_of_further|done].
Qed.

Lemma array_get_in_range {X} (a : list X) (k : Z) :
  0 ≤ k < Z.of_nat (length a) → is_Some (array_get a k).
Proof.
  intros Hk. unfold array_get. destruct (Z.ltb_spec k 0); [lia|].
  apply lookup_lt_is_Some. lia.
Qed.

Lemma dataRangeOf_bounds (a : list Qc) (size : Size) :
  let n := dataRangeLength size in
  0 < n ≤ Z.of_nat (length a) →
  ∃ mn mx,
    dataRangeOf a size = mkRange (JNum mn) (JNum mx) ∧
    (∀ k q, 0 ≤ k < n → array_get a k = Some q → (mn ≤ q)%Qc ∧ (q ≤ mx)%Qc) ∧
    (∃ k, 0 ≤ k < n ∧ array_get a k = Some mn) ∧
    (∃ k, 0 ≤ k < n ∧ array_get a k = Some mx).
Proof.
  intros n Hn. unfold dataRangeOf. fold n.
  destruct (array_get_in_range a 0) as [q0 Hq0]; [lia|].
  assert (readSample a 0 = JNum q0) as ->
    by (unfold readSample; by rewrite Hq0).
  destruct (scanRange_bounds a (seqZ 0 n) q0 q0)
    as (mn & mx & -> & _ & _ & Hall & Hamn & Hamx).
  { intros k Hk. apply elem_of_seqZ in Hk. apply array_get_in_range. lia. }
  exists mn, mx. split; [done|]. split; [|split].
  - intros k q Hk. apply (Hall k). apply elem_of_seqZ. lia.
  - destruct Hamn as [->|(k & Hk & Hq)].
    + exists 0. split; [lia|done].
    + exists k. apply elem_of_seqZ in Hk. split; [lia|done].
  - destruct Hamx as [->|(k & Hk & Hq)].
    + exists 0. split; [lia|done].
    + exists k. apply elem_of_seqZ in Hk. split; [lia|done].
Qed.

End data_range_facts.

(** X14. [calculateDataRange] on an image whose buffer holds the [n]
    scanned offsets ([n] is the size of the first three dimensions, or the
    total size below three dimensions): it returns, without changing the
    store, a range [{min, max}] such that every scanned sample lies between
    [min] and [max], and both are samples at scanned offsets. *)
Theorem calculateDataRange_bounds `{collab : Collaborators}
    (st : Store) (this b : loc) (i : ImageData) (a : list Qc) :
  images st !! this = Some i → buffer i = Some b → buffers st !! b = Some a →
  let n := dataRangeLength (getSize (geometries st !!! geometry i)) in
  0 < n ≤ Z.of_nat (length a) →
  ∃ mn mx,
    calculateDataRange this st = (Ok (mkRange (JNum mn) (JNum mx)), st) ∧
    (∀ k q, 0 ≤ k < n → array_get a k = Some q → (mn ≤ q)%Qc ∧ (q ≤ mx)%Qc) ∧
    (∃ k, 0 ≤ k < n ∧ array_get a k = Some mn) ∧
    (∃ k, 0 ≤ k < n ∧ array_get a k = Some mx).
Proof.
  intros Hi Hb Ha n Hn.
  destruct (dataRangeOf_bounds a _ Hn) as (mn & mx & Hr & Hrest).
  exists mn, mx. split; [|done].
  by rewrite (calculateDataRange_run st this b i a), Hr.
Qed.

(** Samples 4, 9, 2. *)
Lemma calculateDataRange_bounds_witness :
  let st := Sample.worldWithImage (mkSize 3 1 1 []) [4; 9; 2] in
  ∃ mn mx,
    calculateDataRange 1%positive st =
    (Ok (mkRange (JNum mn) (JNum mx)), st) ∧
    (mn ≤ Qc_of_Z 2)%Qc ∧ (Qc_of_Z 9 ≤ mx)%Qc.
Proof.
  intros st.
  destruct (calculateDataRange_bounds (collab := Sample.collaborators) st
              1%positive 1%positive (images st !!! 1%positive)
              (Qc_of_Z <$> [4; 9; 2]))
    as (mn & mx & Hrun & Hall & _); [by vm_compute..|].
  exists mn, mx. split; [done|]. split.
  - by apply (Hall 2 (Qc_of_Z 2)).
  - by apply (Hall 1 (Qc_of_Z 9)).
Defined.

(** ** Updates of the rescale slope and intercept *)

Section rsi_updates.
Context `{collab : Collaborators}.
#[local] Arguments lookup_total : simpl never.

Lemma theImage_run (st : Store) (this : loc) (i : ImageData) :
  images st !! this = Some i → theImage this st = (Ok i, st).
Proof.
  intros Hi. unfold theImage, gets. by rewrite (lookup_total_correct _ _ _ Hi).
Qed.

Lemma updateImage_run (st : Store) (this : loc) (i : ImageData)
    (f : ImageData → ImageData) :
  images st !! this = Some i →
  updateImage this f st =
  (Ok tt, mkStore (<[this := f i]> (images st)) (buffers st) (geometries st)
            (uidArrays st) (metas st) (kinds st)).
Proof.
  intros Hi. unfold updateImage, modify. do 2 f_equal.
  apply map_eq. intros l.
  destruct (decide (l = this)) as [->|Hne].
  - by rewrite lookup_alter_eq, Hi, lookup_insert_eq.
  - by rewrite lookup_alter_ne, lookup_insert_ne.
Qed.

Lemma writeAll_images (b : option loc) (writes : list (Z * jsval))
    (st : Store) :
  images (writeAll b writes st) = images st.
Proof.
  revert st. induction writes as [|[k v] writes IH]; intros st; [done|].
  unfold writeAll in *. cbn [foldl]. rewrite IH.
  unfold writeBuffer, bind, theBuffer, theKind. destruct b as [b|]; [|done].
  by unfold gets, storeBuffer, modify.
Qed.

Lemma setRescaleSlopeAndIntercept_run (st : Store) (this : loc)
    (i : ImageData) (old r : RSI) (offset : jsval) :
  images st !! this = Some i → isConstantRSI i = true → rsi i = RVRsi old →
  let i' :=
    set_rsi (RVRsi (if RSI_equals old r then old else r))
      (set_isIdentityRSI (isIdentityRSI i && isID r) i) in
  setRescaleSlopeAndIntercept this (RVRsi r) offset st =
  (Ok tt, mkStore (<[this := i']> (images st)) (buffers st) (geometries st)
            (uidArrays st) (metas st) (kinds st)).
Proof.
  intros Hi Hc Hr i'. unfold setRescaleSlopeAndIntercept.
  rewrite bind_run, (theImage_run st this i Hi), bind_run.
  assert (∀ (st0 : Store), images st0 !! this =
            Some (set_isIdentityRSI (isIdentityRSI i && isID r) i) →
          buffers st0 = buffers st → geometries st0 = geometries st →
          uidArrays st0 = uidArrays st → metas st0 = metas st →
          kinds st0 = kinds st →
          images st0 = <[this := set_isIdentityRSI (isIdentityRSI i && isID r) i]>
                         (images st) →
          (let* i0 := theImage this in
           if negb (isConstantRSI i0)
           then
            if typeof_index_is_undefined
            then throw "Cannot store non constant RSI with empty slice index."
            else rsis_splice this offset (RVRsi r)
           else
            let* same := call_equals (rsi i0) (RVRsi r) in
            if negb same
            then
             if typeof_index_is_undefined
             then updateImage this (set_rsi (RVRsi r))
             else
              updateImage this (set_isConstantRSI false);;
              updateImage this (set_rsis (Some []));;
              let* leni := getSecondaryOffsetMax this in
              forEach (seqZ 0 leni)
                (λ k : Z,
                   let* i1 := theImage this in
                   updateImage this
                     (set_rsis (Some (default [] (rsis i1) ++ [RVNumber k]))));;
              updateImage this (set_rsi RVNull);;
              rsis_splice this offset (RVRsi r)
            else ret tt) st0 =
          (Ok tt, mkStore (<[this := i']> (images st)) (buffers st)
                    (geometries st) (uidArrays st) (metas st) (kinds st)))
    as Htail.
  { intros st0 Hi0 Hb Hg Hu Hm Hk Him.
    rewrite bind_run, (theImage_run st0 this _ Hi0).
    cbn [isConstantRSI set_isIdentityRSI]. rewrite Hc. cbn [negb].
    rewrite bind_run. cbn [rsi set_isIdentityRSI]. rewrite Hr.
    cbn [call_equals]. unfold ret at 1.
    destruct (RSI_equals old r) eqn:Heq; cbn [negb].
    - unfold ret. f_equal. destruct st0 as [im bu ge ui me ki]. simpl in *.
      subst bu ge ui me ki im. do 2 f_equal. subst i'.
      destruct i; simpl in *. by rewrite Hr.
    - unfold typeof_index_is_undefined.
      rewrite (updateImage_run st0 this _ _ Hi0).
      rewrite Hb, Hg, Hu, Hm, Hk, Him. by rewrite insert_insert_eq. }
  destruct (isIdentityRSI i) eqn:Hid.
  - rewrite bind_run. cbn [call_isID]. unfold ret at 1.
    rewrite (updateImage_run st this i _ Hi).
    apply Htail; try done. cbn [images]. by rewrite lookup_insert_eq.
  - unfold ret at 1. apply Htail; try done.
    + rewrite Hi. f_equal. destruct i; simpl in *. by rewrite Hid.
    + symmetry. apply insert_id. rewrite Hi. f_equal.
      destruct i; simpl in *. by rewrite Hid.
Qed.

Lemma setRescaleSlopeAndIntercept_not_rsi (st : Store) (this : loc)
    (i : ImageData) (inRsi : rsival) (offset : jsval) :
  images st !! this = Some i → isIdentityRSI i = true →
  (∀ r, inRsi ≠ RVRsi r) →
  setRescaleSlopeAndIntercept this inRsi offset st = (Throw Image.TypeError, st).
Proof.
  intros Hi Hid Hin. unfold setRescaleSlopeAndIntercept.
  rewrite bind_run, (theImage_run st this i Hi), bind_run, Hid.
  rewrite bind_run. destruct inRsi as [r| | |]; try done. by destruct (Hin r).
Qed.

Lemma setRescaleSlopeAndIntercept_other (st : Store) (this : loc)
    (i : ImageData) (old : RSI) (inRsi : rsival) (offset : jsval) :
  images st !! this = Some i → isConstantRSI i = true →
  isIdentityRSI i = false → rsi i = RVRsi old → (∀ r, inRsi ≠ RVRsi r) →
  setRescaleSlopeAndIntercept this inRsi offset st =
  match RSI_equals_other old inRsi with
  | Ok true => (Ok tt, st)
  | Ok false =>
      (Ok tt, mkStore (<[this := set_rsi inRsi i]> (images st)) (buffers st)
                (geometries st) (uidArrays st) (metas st) (kinds st))
  | Throw msg => (Throw msg, st)
  end.
Proof.
  intros Hi Hc Hid Hr Hin. unfold setRescaleSlopeAndIntercept.
  rewrite bind_run, (theImage_run st this i Hi), bind_run, Hid.
  unfold ret at 1. rewrite bind_run, (theImage_run st this i Hi).
  rewrite Hc. cbn [negb]. rewrite bind_run, Hr.
  assert (call_equals (RVRsi old) inRsi =
          match RSI_equals_other old inRsi with
          | Ok same => ret same
          | Throw msg => throw msg
          end) as ->.
  { destruct inRsi as [r| | |]; try done. by destruct (Hin r). }
  destruct (RSI_equals_other old inRsi) as [[]|msg]; try done.
  unfold ret at 1. cbn [negb]. unfold typeof_index_is_undefined.
  by rewrite (updateImage_run st this i).
Qed.

Lemma setRescaleSlopeAndIntercept_stuck (st : Store) (this : loc)
    (i : ImageData) (inRsi : rsival) (offset : jsval) :
  images st !! this = Some i → isConstantRSI i = true →
  isIdentityRSI i = false → (∀ r, rsi i ≠ RVRsi r) →
  setRescaleSlopeAndIntercept this inRsi offset st = (Throw Image.TypeError, st).
Proof.
  intros Hi Hc Hid Hr. unfold setRescaleSlopeAndIntercept.
  rewrite bind_run, (theImage_run st this i Hi), bind_run, Hid.
  unfold ret at 1. rewrite bind_run, (theImage_run st this i Hi).
  rewrite Hc. cbn [negb]. rewrite bind_run.
  destruct (rsi i) as [r| | |]; try done. by destruct (Hr r).
Qed.

Lemma cached_getters (st : Store) (this : loc) (i : ImageData) :
  images st !! this = Some i →
  (∀ r, dataRange i = Some r → getDataRange this st = (Ok r, st)) ∧
  (∀ r, rescaledDataRange i = Some r →
        getRescaledDataRange this st = (Ok r, st)) ∧
  (∀ h, histogram i = Some h → getHistogram this st = (Ok h, st)).
Proof.
  intros Hi. unfold getDataRange, getRescaledDataRange, getHistogram.
  rewrite !bind_run, (theImage_run st this i Hi).
  repeat split; by intros ? ->.
Qed.

End rsi_updates.

(** X15. [setRescaleSlopeAndIntercept] touches nothing but the RSI
    variables of its image, whether it returns or throws: buffers,
    geometries, UID arrays, meta objects and all other images are as
    before, and so are the image's buffer, geometry, photometric
    interpretation, planar configuration, component count, meta and its
    cached data range, rescaled data range and histogram. *)
Theorem setRescaleSlopeAndIntercept_frame `{collab : Collaborators}
    (st : Store) (this : loc) (inRsi : rsival) (offset : jsval) :
  let st' := snd (setRescaleSlopeAndIntercept this inRsi offset st) in
  buffers st' = buffers st ∧ geometries st' = geometries st ∧
  uidArrays st' = uidArrays st ∧ metas st' = metas st ∧
  kinds st' = kinds st ∧
  (∀ l, l ≠ this → images st' !! l = images st !! l) ∧
  (images st !! this = None → images st' !! this = None) ∧
  (∀ i, images st !! this = Some i →
        ∃ i', images st' !! this = Some i' ∧
              geometry i' = geometry i ∧ buffer i' = buffer i ∧
              imageUids i' = imageUids i ∧
              photometricInterpretation i' = photometricInterpretation i ∧
              planarConfiguration i' = planarConfiguration i ∧
              numberOfComponents i' = numberOfComponents i ∧
              meta i' = meta i ∧ dataRange i' = dataRange i ∧
              rescaledDataRange i' = rescaledDataRange i ∧
              histogram i' = histogram i).
Proof.
  intros st'.
  destruct (setRescaleSlopeAndIntercept_onlyRSI this inRsi offset st)
    as (Hb & Hg & Hu & Hm & Hk & Hl).
  fold st' in Hb, Hg, Hu, Hm, Hk, Hl.
  split; [done|]. split; [done|]. split; [done|]. split; [done|].
  split; [done|]. split; [|split].
  - intros l Hne. specialize (Hl l). by rewrite decide_False in Hl.
  - intros Hnone. specialize (Hl this). rewrite decide_True in Hl by done.
    rewrite Hnone in Hl. by inversion Hl.
  - intros i Hi. specialize (Hl this). rewrite decide_True in Hl by done.
    rewrite Hi in Hl. inversion Hl as [? i' Hsame|]. subst.
    exists i'. split; [done|]. exact Hsame.
Qed.

(** X16. [setRescaleSlopeAndIntercept(inRsi, offset)] on an image in
    constant mode (as every image is, C10), whatever [offset] is. With an
    RSI object for [inRsi], on an image whose [rsi] holds an RSI object:
    the call returns, [rsi] is replaced by [inRsi] unless [equals] finds
    them equal, and the identity flag becomes
    [isIdentityRSI && inRsi.isID()]. With [null], [undefined] or a number
    for [inRsi]: on an image whose identity flag is set, [inRsi.isID()]
    raises a [TypeError] and nothing changes; on an image whose flag is
    not set, [rsi.equals(inRsi)] decides, and when it answers [false] (as
    it does for [null]) the value is stored in [rsi] without an error.
    Once [rsi] holds such a value (the identity flag is then not set),
    every further call raises a [TypeError] at [rsi.equals] and changes
    nothing. In every case the image stays in constant mode. *)
Theorem setRescaleSlopeAndIntercept_outcome `{collab : Collaborators}
    (st : Store) (this : loc) (i : ImageData) (inRsi : rsival)
    (offset : jsval) :
  images st !! this = Some i → isConstantRSI i = true →
  let result := setRescaleSlopeAndIntercept this inRsi offset st in
  let stored (v : rsival) (flag : bool) :=
    mkStore (<[this := set_rsi v (set_isIdentityRSI flag i)]> (images st))
      (buffers st) (geometries st) (uidArrays st) (metas st) (kinds st) in
  match rsi i, inRsi with
  | RVRsi old, RVRsi r =>
      result = (Ok tt, stored (RVRsi (if RSI_equals old r then old else r))
                      (isIdentityRSI i && isID r))
  | RVRsi old, _ =>
      if isIdentityRSI i then result = (Throw Image.TypeError, st)
      else
        match RSI_equals_other old inRsi with
        | Ok true => result = (Ok tt, st)
        | Ok false => result = (Ok tt, stored inRsi false)
        | Throw msg => result = (Throw msg, st)
        end
  | _, _ => isIdentityRSI i = false → result = (Throw Image.TypeError, st)
  end.
Proof.
  intros Hi Hc result stored.
  assert (∀ v, isIdentityRSI i = false →
               stored v false =
               mkStore (<[this := set_rsi v i]> (images st)) (buffers st)
                 (geometries st) (uidArrays st) (metas st) (kinds st))
    as Hstored.
  { intros v Hid. unfold stored. do 3 f_equal.
    destruct i; cbn in *. by rewrite Hid. }
  destruct (rsi i) as [old| | |] eqn:Hr.
  - assert (∀ v, (∀ r, v ≠ RVRsi r) → inRsi = v →
              if isIdentityRSI i
              then result = (Throw Image.TypeError, st)
              else
                match RSI_equals_other old v with
                | Ok true => result = (Ok tt, st)
                | Ok false => result = (Ok tt, stored v false)
                | Throw msg => result = (Throw msg, st)
                end) as Hother.
    { intros v Hv ->. destruct (isIdentityRSI i) eqn:Hid.
      - by apply (setRescaleSlopeAndIntercept_not_rsi st this i).
      - pose proof (setRescaleSlopeAndIntercept_other st this i old v offset
                      Hi Hc Hid Hr Hv) as Hrun.
        fold result in Hrun. rewrite Hrun, Hstored by done.
        by destruct (RSI_equals_other old v) as [[]|]. }
    destruct inRsi as [r| | |].
    + by apply setRescaleSlopeAndIntercept_run.
    + by apply Hother.
    + by apply Hother.
    + by apply Hother.
  - intros Hid. apply (setRescaleSlopeAndIntercept_stuck st this i);
      try done. intros r. by rewrite Hr.
  - intros Hid. apply (setRescaleSlopeAndIntercept_stuck st this i);
      try done. intros r. by rewrite Hr.
  - intros Hid. apply (setRescaleSlopeAndIntercept_stuck st this i);
      try done. intros r. by rewrite Hr.
Qed.

(** [null] in place of an RSI, on an image whose RSI is [(2, 0)]: the call
    returns and [rsi] holds [null]. *)
Lemma setRescaleSlopeAndIntercept_outcome_witness :
  let st :=
    snd (setRescaleSlopeAndIntercept (collab := Sample.collaborators)
           1%positive (RVRsi (mkRSI (Qc_of_Z 2) 0)) JUndefined
           (Sample.worldWithImage (mkSize 1 1 2 []) [1; 2])) in
  let r :=
    setRescaleSlopeAndIntercept (collab := Sample.collaborators)
      1%positive RVNull (JNum 0) st in
  fst r = Ok tt ∧ rsi <$> images (snd r) !! 1%positive = Some RVNull.
Proof.
  intros st r.
  pose proof (setRescaleSlopeAndIntercept_outcome
                (collab := Sample.collaborators) st 1%positive
                (images st !!! 1%positive) RVNull (JNum 0)) as Hrun.
  assert (rsi (images st !!! 1%positive) = RVRsi (mkRSI (Qc_of_Z 2) 0))
    as Hr by by vm_compute.
  assert (isIdentityRSI (images st !!! 1%positive) = false) as Hid
    by by vm_compute.
  cbv zeta in Hrun. rewrite Hr, Hid in Hrun. cbn [RSI_equals_other] in Hrun.
  fold r in Hrun. rewrite Hrun by by vm_compute.
  split; [done|]. cbn [snd images]. by rewrite lookup_insert_eq.
Defined.

(** X17. The caches are never invalidated: once the data range, the
    rescaled data range and the histogram of an image are cached,
    [getDataRange], [getRescaledDataRange] and [getHistogram] return the
    cached values unchanged, also after [setRescaleSlopeAndIntercept]
    changed the RSI and after samples were written through the image's
    buffer. *)
Theorem cached_results_survive_changes `{collab : Collaborators}
    (st : Store) (this : loc) (i : ImageData) (dr rr : Range)
    (h : list (jsval * Z)) (inRsi : rsival) (offset : jsval)
    (writes : list (Z * jsval)) :
  images st !! this = Some i →
  dataRange i = Some dr → rescaledDataRange i = Some rr →
  histogram i = Some h →
  let st1 := snd (setRescaleSlopeAndIntercept this inRsi offset st) in
  let st2 := writeAll (buffer i) writes st1 in
  getDataRange this st2 = (Ok dr, st2) ∧
  getRescaledDataRange this st2 = (Ok rr, st2) ∧
  getHistogram this st2 = (Ok h, st2).
Proof.
  intros Hi Hdr Hrr Hh st1 st2.
  destruct (setRescaleSlopeAndIntercept_onlyRSI this inRsi offset st)
    as (_ & _ & _ & _ & _ & Hl).
  specialize (Hl this). rewrite decide_True in Hl by done.
  rewrite Hi in Hl. inversion Hl as [? i' Hsame Heq Hi'|]. subst.
  destruct Hsame as (_ & _ & _ & _ & _ & _ & _ & Hdr' & Hrr' & Hh').
  assert (images st2 !! this = Some i') as Hi2.
  { subst st2. by rewrite writeAll_images. }
  destruct (cached_getters st2 this i' Hi2) as (Hgd & Hgr & Hgh).
  split; [apply Hgd; by rewrite Hdr'|].
  split; [apply Hgr; by rewrite Hrr'|apply Hgh; by rewrite Hh'].
Qed.

(** The histogram of samples 4, 5 survives a new RSI and a write. *)
Lemma cached_results_survive_changes_witness :
  let st :=
    snd (getHistogram 1%positive
           (Sample.worldWithImage (mkSize 2 1 1 []) [4; 5])) in
  let st2 :=
    writeAll (Some 1%positive) [(0, JNum (Qc_of_Z 9))]
      (snd (setRescaleSlopeAndIntercept (collab := Sample.collaborators)
              1%positive (RVRsi (mkRSI (Qc_of_Z 2) 0)) JUndefined st)) in
  fst (getHistogram 1%positive st2) =
  fst (getHistogram 1%positive st).
Proof.
  intros st st2.
  destruct (dataRange (images st !!! 1%positive)) as [dr|] eqn:Hdr;
    [|by vm_compute in Hdr].
  destruct (rescaledDataRange (images st !!! 1%positive)) as [rr|] eqn:Hrr;
    [|by vm_compute in Hrr].
  destruct (histogram (images st !!! 1%positive)) as [h|] eqn:Hh;
    [|by vm_compute in Hh].
  destruct (cached_results_survive_changes (collab := Sample.collaborators)
              st 1%positive (images st !!! 1%positive) dr rr h
              (RVRsi (mkRSI (Qc_of_Z 2) 0)) JUndefined
              [(0, JNum (Qc_of_Z 9))])
    as (_ & _ & Hhist); [by vm_compute | done | done | done |].
  assert (buffer (images st !!! 1%positive) = Some 1%positive) as Hb
    by by vm_compute.
  rewrite Hb in Hhist. fold st2 in Hhist. rewrite Hhist.
  destruct (cached_getters st 1%positive (images st !!! 1%positive))
    as (_ & _ & Hgh); [by vm_compute|].
  by rewrite (Hgh h Hh).
Defined.

(** ** clone, transform and compose *)

Section clone_run.
Context `{collab : Collaborators}.
#[local] Arguments lookup_total : simpl never.

Lemma clone_run (st : Store) (this b : loc) (i : ImageData) (a : list Qc)
    (r : RSI) :
  images st !! this = Some i → buffer i = Some b → buffers st !! b = Some a →
  isConstantRSI i = true → rsi i = RVRsi r →
  let b' := fresh (dom (buffers st)) in
  let m' := fresh (dom (metas st)) in
  let copy := fresh (dom (images st)) in
  let g := geometries st !!! geometry i in
  let ci :=
    mkImage (geometry i) (Some b') (imageUids i)
      (RVRsi (if RSI_equals (mkRSI 1 0) r then mkRSI 1 0 else r)) None
      (isID r) true (photometricInterpretation i) (planarConfiguration i)
      (Qc_of_Z (Z.of_nat (length a)) / Qc_of_Z (getTotalSize (getSize g)))%Qc
      (meta i) None None None in
  clone this st =
  (Ok copy,
   mkStore (<[copy := ci]> (images st)) (<[b' := a]> (buffers st))
     (geometries st) (uidArrays st)
     (<[m' := mkMeta [] None]> (metas st))
     (<[b' := kinds st !!! b]> (kinds st))).
Proof.
  intros Hi Hb Ha Hc Hr b' m' copy g ci.
  assert (copy ≠ this) as Hne.
  { intros Heq. pose proof (is_fresh (dom (images st))) as Hfresh.
    fold copy in Hfresh. rewrite Heq in Hfresh.
    apply Hfresh, elem_of_dom. by eexists. }
  unfold clone.
  rewrite bind_run, (theImage_run st this i Hi), bind_run, Hb.
  unfold theBuffer at 1, gets at 1.
  rewrite (lookup_total_correct _ _ _ Ha), bind_run.
  unfold theKind at 1, gets at 1. rewrite bind_run.
  unfold newBuffer at 1. fold b'. rewrite bind_run.
  unfold Image_new at 1. rewrite bind_run. unfold theGeometry at 1, gets at 1.
  rewrite bind_run. unfold theBuffer at 1, gets at 1. rewrite bind_run.
  unfold newMeta at 1, newImageObject at 1.
  cbn [images metas buffers geometries kinds].
  fold m' copy g. rewrite lookup_total_insert_eq.
  set (c0 := mkImage _ _ _ _ _ _ _ _ _ _ _ _ _ _).
  set (st1 := mkStore _ _ _ _ _ _).
  assert (images st1 !! this = Some i) as Hi1.
  { subst st1. cbn [images]. by rewrite lookup_insert_ne. }
  assert (images st1 !! copy = Some c0) as Hc1.
  { subst st1. cbn [images]. by rewrite lookup_insert_eq. }
  rewrite bind_run.
  destruct (constant_image_reads st1 this i Hi1 Hc) as (Hconst & Hget & _).
  rewrite Hconst, bind_run, bind_run, Hget, Hr.
  rewrite (setRescaleSlopeAndIntercept_run st1 copy c0 (mkRSI 1 0) r)
    by done.
  set (c1 := set_rsi _ _). set (st2 := mkStore _ _ _ _ _ _).
  assert (images st2 !! this = Some i) as Hi2.
  { subst st2. cbn [images]. by rewrite lookup_insert_ne. }
  rewrite bind_run, (theImage_run st2 this i Hi2).
  unfold setPhotometricInterpretation, setPlanarConfiguration, setMeta.
  rewrite bind_run, (updateImage_run st2 copy c1)
    by (subst st2; cbn [images]; by rewrite lookup_insert_eq).
  set (st3 := mkStore _ _ _ _ _ _).
  rewrite bind_run, (updateImage_run st3 copy _)
    by (subst st3; cbn [images]; by rewrite lookup_insert_eq).
  set (st4 := mkStore _ _ _ _ _ _).
  rewrite bind_run, (updateImage_run st4 copy _)
    by (subst st4; cbn [images]; by rewrite lookup_insert_eq).
  unfold ret. f_equal. subst st4 st3 st2 st1. cbn [images buffers geometries
    uidArrays metas kinds]. f_equal. rewrite !insert_insert_eq. done.
Qed.

End clone_run.

Section loops.
Context `{collab : Collaborators}.
#[local] Arguments lookup_total : simpl never.

Lemma writeBuffer_run (st : Store) (b : loc) (cur : list Qc) (k : Z)
    (v : jsval) :
  buffers st !! b = Some cur →
  writeBuffer (Some b) k v st =
  (Ok tt, mkStore (images st)
            (<[b := typedArray_write (kinds st !!! b) cur k v]> (buffers st))
            (geometries st) (uidArrays st) (metas st) (kinds st)).
Proof.
  intros Hb.
  unfold writeBuffer, bind, theBuffer, theKind, gets, storeBuffer, modify.
  by rewrite (lookup_total_correct _ _ _ Hb).
Qed.

(** A loop whose body computes a value from the store and assigns it to
    element [k] of the buffer [b], leaving everything else alone. *)
Lemma write_loop (body : Z → M unit) (kind : elemKind)
    (f : Z → list Qc → jsval) (b : loc)
    (I : Store → Prop) (l : list Z) (st : Store) (cur : list Qc) :
  (∀ st k cur, I st → buffers st !! b = Some cur →
     body k st =
     (Ok tt, mkStore (images st)
               (<[b := typedArray_write kind cur k (f k cur)]> (buffers st))
               (geometries st) (uidArrays st) (metas st) (kinds st))) →
  (∀ st cur', I st →
     I (mkStore (images st) (<[b := cur']> (buffers st)) (geometries st)
          (uidArrays st) (metas st) (kinds st))) →
  I st → buffers st !! b = Some cur →
  forEach l body st =
  (Ok tt, mkStore (images st) (<[b := writeEach kind f l cur]> (buffers st))
            (geometries st) (uidArrays st) (metas st) (kinds st)).
Proof.
  intros Hbody HI. revert st cur.
  induction l as [|k l IH]; intros st cur Hst Hb.
  { unfold writeEach. cbn [forEach foldl]. unfold ret. f_equal.
    destruct st. cbn. f_equal. by rewrite insert_id. }
  cbn [forEach]. rewrite bind_run, (Hbody st k cur Hst Hb).
  rewrite (IH _ (typedArray_write kind cur k (f k cur))).
  - cbn [images buffers geometries uidArrays metas kinds].
    by rewrite insert_insert_eq.
  - by apply HI.
  - cbn [buffers]. by rewrite lookup_insert_eq.
Qed.

End loops.

Lemma typedArray_write_middle (kind : elemKind) (pre rest : list Qc) (q : Qc)
    (v : jsval) :
  typedArray_write kind (pre ++ q :: rest) (Z.of_nat (length pre)) v =
  (pre ++ [toElement kind v]) ++ rest.
Proof.
  unfold typedArray_write.
  destruct (Z.ltb_spec (Z.of_nat (length pre)) 0); [lia|].
  rewrite Nat2Z.id, insert_app_r_alt by lia.
  rewrite Nat.sub_diag. by rewrite <- app_assoc.
Qed.

(** Assigning, index by index, a value computed from the sample at that
    index. *)
Lemma writeEach_map (kind : elemKind) (op : jsval → jsval)
    (pre rest : list Qc) :
  writeEach kind (λ k cur, op (readSample cur k))
    (seqZ (Z.of_nat (length pre)) (Z.of_nat (length rest))) (pre ++ rest) =
  pre ++ ((λ q, toElement kind (op (JNum q))) <$> rest).
Proof.
  revert pre. induction rest as [|q rest IH]; intros pre; [done|].
  cbn [length]. rewrite Nat2Z.inj_succ, seqZ_cons by lia.
  unfold writeEach in *. cbn [foldl].
  replace (Z.pred (Z.succ (Z.of_nat (length rest))))
    with (Z.of_nat (length rest)) by lia.
  assert (readSample (pre ++ q :: rest) (Z.of_nat (length pre)) = JNum q)
    as ->.
  { unfold readSample, array_get.
    destruct (Z.ltb_spec (Z.of_nat (length pre)) 0); [lia|].
    rewrite Nat2Z.id. by rewrite list_lookup_middle. }
  rewrite typedArray_write_middle.
  replace (Z.succ (Z.of_nat (length pre)))
    with (Z.of_nat (length (pre ++ [toElement kind (op (JNum q))])))
    by (rewrite length_app; simpl; lia).
  rewrite IH. by rewrite <- app_assoc.
Qed.

Lemma writeEach_imap (kind : elemKind) (f : Z → jsval) (pre rest : list Qc) :
  writeEach kind (λ k _, f k)
    (seqZ (Z.of_nat (length pre)) (Z.of_nat (length rest))) (pre ++ rest) =
  pre ++ imap (λ j _, toElement kind (f (Z.of_nat (length pre + j)))) rest.
Proof.
  revert pre. induction rest as [|q rest IH]; intros pre; [done|].
  cbn [length]. rewrite Nat2Z.inj_succ, seqZ_cons by lia.
  unfold writeEach in *. cbn [foldl imap].
  replace (Z.pred (Z.succ (Z.of_nat (length rest))))
    with (Z.of_nat (length rest)) by lia.
  rewrite typedArray_write_middle.
  replace (Z.succ (Z.of_nat (length pre)))
    with (Z.of_nat (length (pre ++ [toElement kind (f (Z.of_nat (length pre)))])))
    by (rewrite length_app; simpl; lia).
  rewrite IH, <- app_assoc. cbn [app]. rewrite Nat.add_0_r. do 2 f_equal.
  apply imap_ext. intros j x _. cbn. do 2 f_equal. rewrite length_app.
  simpl. lia.
Qed.

Section transform_facts.
Context `{collab : Collaborators}.
#[local] Arguments lookup_total : simpl never.

Lemma getBuffer_run (st : Store) (this : loc) (i : ImageData) :
  images st !! this = Some i → getBuffer this st = (Ok (buffer i), st).
Proof.
  intros Hi. unfold getBuffer. by rewrite bind_run, (theImage_run st this i Hi).
Qed.

Lemma transform_run (st : Store) (this b : loc) (i : ImageData)
    (a : list Qc) (r : RSI) (operator : jsval → jsval) :
  images st !! this = Some i → buffer i = Some b → buffers st !! b = Some a →
  isConstantRSI i = true → rsi i = RVRsi r →
  let st1 := snd (clone this st) in
  let b' := fresh (dom (buffers st)) in
  let kind := kinds st !!! b in
  transform this operator st =
  (Ok (fresh (dom (images st))),
   mkStore (images st1)
     (<[b' := (λ q, toElement kind (operator (JNum q))) <$> a]> (buffers st1))
     (geometries st1) (uidArrays st1) (metas st1) (kinds st1)).
Proof.
  intros Hi Hb Ha Hc Hr st1 b' kind. unfold transform.
  rewrite bind_run. subst st1.
  rewrite (clone_run st this b i a r) by done. cbn [snd]. fold b' kind.
  set (copy := fresh (dom (images st))).
  set (ci := mkImage _ _ _ _ _ _ _ _ _ _ _ _ _ _).
  set (st1 := mkStore _ _ _ _ _ _).
  assert (images st1 !! copy = Some ci) as Hci.
  { subst st1. cbn [images]. by rewrite lookup_insert_eq. }
  assert (buffers st1 !! b' = Some a) as Hb'.
  { subst st1. cbn [buffers]. by rewrite lookup_insert_eq. }
  assert (kinds st1 !!! b' = kind) as Hk'.
  { subst st1. cbn [kinds]. by rewrite lookup_total_insert_eq. }
  rewrite bind_run, (getBuffer_run st1 copy ci Hci). cbn [buffer ci].
  rewrite bind_run. unfold theBuffer at 1, gets at 1.
  rewrite (lookup_total_correct _ _ _ Hb'), bind_run.
  rewrite (write_loop _ kind (λ k cur, operator (readSample cur k)) b'
             (λ st, images st !! copy = Some ci ∧ kinds st !!! b' = kind)
             _ st1 a).
  - unfold ret. do 3 f_equal.
    apply (writeEach_map kind operator [] a).
  - intros st0 k cur [Hi0 Hk0] Hb0.
    rewrite bind_run, (getValueAtOffset_run st0 copy b' ci cur) by done.
    by rewrite (writeBuffer_run st0 b' cur), Hk0.
  - by intros st0 cur' [? ?].
  - done.
  - done.
Qed.

Lemma compose_run (st : Store) (this b rhs rb : loc) (i ri : ImageData)
    (a ra : list Qc) (r : RSI) (operator : jsval → jsval → jsval) :
  images st !! this = Some i → buffer i = Some b → buffers st !! b = Some a →
  isConstantRSI i = true → rsi i = RVRsi r →
  images st !! rhs = Some ri → buffer ri = Some rb →
  buffers st !! rb = Some ra →
  let st1 := snd (clone this st) in
  let b' := fresh (dom (buffers st)) in
  let kind := kinds st !!! b in
  compose this rhs operator st =
  (Ok (fresh (dom (images st))),
   mkStore (images st1)
     (<[b' := imap (λ j _, toElement kind (js_floor (operator
                      (readSample a (Z.of_nat j))
                      (readSample ra (Z.of_nat j))))) a]> (buffers st1))
     (geometries st1) (uidArrays st1) (metas st1) (kinds st1)).
Proof.
  intros Hi Hb Ha Hc Hr Hri Hrb Hra st1 b' kind. unfold compose.
  rewrite bind_run. subst st1.
  rewrite (clone_run st this b i a r) by done. cbn [snd]. fold b' kind.
  set (copy := fresh (dom (images st))).
  set (ci := mkImage _ _ _ _ _ _ _ _ _ _ _ _ _ _).
  set (st1 := mkStore _ _ _ _ _ _).
  assert (copy ≠ this ∧ copy ≠ rhs) as [Hne Hner].
  { pose proof (is_fresh (dom (images st))) as Hfresh. fold copy in Hfresh.
    split; intros Heq; rewrite Heq in Hfresh; apply Hfresh, elem_of_dom;
      by eexists. }
  assert (b' ≠ b ∧ b' ≠ rb) as [Hneb Hnerb].
  { pose proof (is_fresh (dom (buffers st))) as Hfresh. fold b' in Hfresh.
    split; intros Heq; rewrite Heq in Hfresh; apply Hfresh, elem_of_dom;
      by eexists. }
  assert (images st1 !! copy = Some ci) as Hci.
  { subst st1. cbn [images]. by rewrite lookup_insert_eq. }
  assert (buffers st1 !! b' = Some a) as Hb'.
  { subst st1. cbn [buffers]. by rewrite lookup_insert_eq. }
  assert (kinds st1 !!! b' = kind) as Hk'.
  { subst st1. cbn [kinds]. by rewrite lookup_total_insert_eq. }
  rewrite bind_run, (getBuffer_run st1 copy ci Hci). cbn [buffer ci].
  rewrite bind_run. unfold theBuffer at 1, gets at 1.
  rewrite (lookup_total_correct _ _ _ Hb'), bind_run.
  rewrite (write_loop _ kind
             (λ k _, js_floor (operator (readSample a k) (readSample ra k)))
             b'
             (λ st, images st !! this = Some i ∧ images st !! rhs = Some ri ∧
                    buffers st !! b = Some a ∧ buffers st !! rb = Some ra ∧
                    kinds st !!! b' = kind)
             _ st1 a).
  - unfold ret. do 3 f_equal.
    rewrite (writeEach_imap kind _ [] a). cbn [app length]. done.
  - intros st0 k cur (Hi0 & Hri0 & Ha0 & Hra0 & Hk0) Hb0.
    rewrite bind_run, (getValueAtOffset_run st0 this b i a) by done.
    rewrite bind_run, (getValueAtOffset_run st0 rhs rb ri ra) by done.
    by rewrite (writeBuffer_run st0 b' cur), Hk0.
  - intros st0 cur' (Hi0 & Hri0 & Ha0 & Hra0 & Hk0). cbn [images buffers kinds].
    by rewrite !lookup_insert_ne.
  - subst st1. cbn [images buffers]. by rewrite !lookup_insert_ne.
  - done.
Qed.

Lemma clone_not_rsi (st : Store) (this b : loc) (i : ImageData) :
  images st !! this = Some i → buffer i = Some b →
  isConstantRSI i = true → (∀ r, rsi i ≠ RVRsi r) →
  fst (clone this st) = Throw Image.TypeError.
Proof.
  intros Hi Hb Hc Hr.
  assert (fresh (dom (images st)) ≠ this) as Hne.
  { intros Heq. pose proof (is_fresh (dom (images st))) as Hfresh.
    rewrite Heq in Hfresh. apply Hfresh, elem_of_dom. by eexists. }
  unfold clone.
  rewrite bind_run, (theImage_run st this i Hi), bind_run, Hb.
  unfold theBuffer at 1, gets at 1. rewrite bind_run.
  unfold theKind at 1, gets at 1. rewrite bind_run.
  unfold newBuffer at 1. rewrite bind_run.
  unfold Image_new at 1. rewrite bind_run. unfold theGeometry at 1, gets at 1.
  rewrite bind_run. unfold theBuffer at 1, gets at 1. rewrite bind_run.
  unfold newMeta at 1, newImageObject at 1.
  cbn [images metas buffers geometries kinds].
  set (copy := fresh (dom (images st))) in *.
  set (c0 := mkImage _ _ _ _ _ _ _ _ _ _ _ _ _ _).
  set (st1 := mkStore _ _ _ _ _ _).
  assert (images st1 !! this = Some i) as Hi1.
  { subst st1. cbn [images]. by rewrite lookup_insert_ne. }
  assert (images st1 !! copy = Some c0) as Hc1.
  { subst st1. cbn [images]. by rewrite lookup_insert_eq. }
  rewrite bind_run.
  destruct (constant_image_reads st1 this i Hi1 Hc) as (Hconst & Hget & _).
  rewrite Hconst, bind_run, bind_run, Hget.
  unfold setRescaleSlopeAndIntercept.
  rewrite bind_run, (theImage_run st1 copy c0 Hc1), bind_run.
  subst c0. cbn [isIdentityRSI]. rewrite bind_run.
  destruct (rsi i) as [r| | |]; [by destruct (Hr r)|done..].
Qed.

End transform_facts.

(** ** transform and compose are a clone and writes from outside *)

#[global] Instance sameImages_preorder : PreOrder sameImages.
Proof.
  split; [done|]. unfold sameImages. intros st1 st2 st3 H12 H23. congruence.
Qed.

Section derived_calls.
Context `{collab : Collaborators}.

Lemma run_app (cs cs' : list call) (st : Store) :
  run (cs ++ cs') st = run cs' (run cs st).
Proof. unfold run. apply foldl_app. Qed.

Lemma outside_change (st st' : Store) :
  sameImages st st' →
  st' =
  exec (CallOutside (buffers st') (geometries st') (uidArrays st')
          (metas st') (kinds st')) st.
Proof. unfold sameImages. intros Him. destruct st'. simpl in *. by subst. Qed.

Lemma reachable_clone_then_outside (this : loc) (st st' : Store) :
  reachable st → sameImages (snd (clone this st)) st' → reachable st'.
Proof.
  intros (st0 & cs & Hempty & ->) Him.
  exists st0,
    (cs ++ [CallClone this;
            CallOutside (buffers st') (geometries st') (uidArrays st')
              (metas st') (kinds st')]).
  split; [done|]. rewrite run_app. cbn [run foldl].
  by apply outside_change.
Qed.

Lemma writeBuffer_sameImages (b : option loc) (k : Z) (v : jsval) :
  steps sameImages (writeBuffer b k v).
Proof.
  intros st. unfold writeBuffer, bind, theBuffer, theKind.
  by destruct b.
Qed.

Lemma getValueAtOffset_sameImages (this : loc) (o : Z) :
  steps sameImages (getValueAtOffset this o).
Proof. intros st. by rewrite getValueAtOffset_store. Qed.

Lemma after_clone (this : loc) (k : loc → M loc) (st : Store) :
  (∀ n, steps sameImages (k n)) →
  sameImages (snd (clone this st)) (snd (bind (clone this) k st)).
Proof.
  intros Hk. rewrite bind_run.
  destruct (clone this st) as [[n|msg] st1]; [apply Hk|done].
Qed.

(** What [transform] and [compose] do to the store is what [clone()] and
    writes to the clone's buffer do: the stores they lead to are stores
    that runs reach. *)
Lemma transform_within_runs (this : loc) (operator : jsval → jsval)
    (st : Store) :
  reachable st → reachable (snd (transform this operator st)).
Proof.
  intros Hreach. apply (reachable_clone_then_outside this st); [done|].
  unfold transform. apply after_clone. intros n.
  repeat first
    [ apply writeBuffer_sameImages
    | apply getValueAtOffset_sameImages
    | steps_step
    | progress unfold getBuffer, theImage, theBuffer ].
Qed.

Lemma compose_within_runs (this rhs : loc)
    (operator : jsval → jsval → jsval) (st : Store) :
  reachable st → reachable (snd (compose this rhs operator st)).
Proof.
  intros Hreach. apply (reachable_clone_then_outside this st); [done|].
  unfold compose. apply after_clone. intros n.
  repeat first
    [ apply writeBuffer_sameImages
    | apply getValueAtOffset_sameImages
    | steps_step
    | progress unfold getBuffer, theImage, theBuffer ].
Qed.

End derived_calls.

(** X18. [clone()] of an image in constant mode (as every image is, C10)
    with a buffer. When the [rsi] variable holds an RSI object the call
    succeeds: the copy is a new image with a new buffer of the same element
    kind holding the same samples; it shares the geometry, the UID array and
    the meta object of the source (same references), takes over its
    photometric interpretation and planar configuration, is in constant
    mode with the source's RSI (or the identity RSI when [equals] finds the
    two equal), has the identity flag [rsi.isID()], and starts without
    cached ranges or histogram; nothing else in the store changes. When
    the [rsi] variable holds no RSI object (see X16), [clone()] throws a
    [TypeError]. *)
Theorem clone_outcomes `{collab : Collaborators}
    (st : Store) (this b : loc) (i : ImageData) (a : list Qc) :
  images st !! this = Some i → buffer i = Some b → buffers st !! b = Some a →
  isConstantRSI i = true →
  match rsi i with
  | RVRsi r =>
      ∃ copy st1 ci b',
        clone this st = (Ok copy, st1) ∧
        images st !! copy = None ∧ buffers st !! b' = None ∧
        images st1 !! copy = Some ci ∧
        buffer ci = Some b' ∧ buffers st1 !! b' = Some a ∧
        kinds st1 !! b' = Some (kinds st !!! b) ∧
        geometry ci = geometry i ∧ imageUids ci = imageUids i ∧
        meta ci = meta i ∧
        photometricInterpretation ci = photometricInterpretation i ∧
        planarConfiguration ci = planarConfiguration i ∧
        isConstantRSI ci = true ∧ rsis ci = None ∧
        isIdentityRSI ci = isID r ∧
        rsi ci = RVRsi (if RSI_equals (mkRSI 1 0) r then mkRSI 1 0 else r) ∧
        dataRange ci = None ∧ rescaledDataRange ci = None ∧
        histogram ci = None ∧
        (∀ l, l ≠ copy → images st1 !! l = images st !! l) ∧
        (∀ l, l ≠ b' → buffers st1 !! l = buffers st !! l) ∧
        (∀ l, l ≠ b' → kinds st1 !! l = kinds st !! l) ∧
        geometries st1 = geometries st ∧ uidArrays st1 = uidArrays st
  | _ => fst (clone this st) = Throw Image.TypeError
  end.
Proof.
  intros Hi Hb Ha Hc.
  destruct (rsi i) as [r| | |] eqn:Hr;
    [|apply (clone_not_rsi st this b i); try done; intros r; by rewrite Hr..].
  pose proof (clone_run st this b i a r Hi Hb Ha Hc Hr) as Hrun.
  cbv zeta in Hrun.
  eexists _, _, _, (fresh (dom (buffers st))).
  split; [exact Hrun|]. cbn [images buffers geometries uidArrays kinds].
  split; [apply not_elem_of_dom, is_fresh|].
  split; [apply not_elem_of_dom, is_fresh|].
  split; [by rewrite lookup_insert_eq|]. split; [done|].
  split; [by rewrite lookup_insert_eq|].
  split; [by rewrite lookup_insert_eq|].
  do 12 (split; [done|]).
  split; [intros l Hl; by rewrite lookup_insert_ne|].
  split; [intros l Hl; by rewrite lookup_insert_ne|].
  split; [intros l Hl; by rewrite lookup_insert_ne|]. done.
Qed.

(** Cloning a fresh image. *)
Lemma clone_outcomes_witness :
  let st := Sample.worldWithImage (mkSize 2 1 1 []) [4; 5] in
  ∃ copy st1,
    clone (collab := Sample.collaborators) 1%positive st = (Ok copy, st1).
Proof.
  intros st.
  pose proof (clone_outcomes (collab := Sample.collaborators) st
                1%positive 1%positive (images st !!! 1%positive)
                (Qc_of_Z <$> [4; 5])) as Hclone.
  assert (rsi (images st !!! 1%positive) = RVRsi (mkRSI 1 0)) as Hr
    by by vm_compute.
  rewrite Hr in Hclone.
  destruct Hclone as (copy & st1 & _ & _ & Hrun & _); [by vm_compute..|].
  by exists copy, st1.
Defined.

(** X19. [transform(operator)] of an image in constant mode whose [rsi]
    holds an RSI object (so that [clone()] succeeds) returns a new image
    whose buffer has the element kind of the source's buffer and holds, for
    every sample [v] of the source, in order, [operator(v)] converted to
    that kind: truncated and wrapped modulo [2 ^ bits] (clamped for a
    [Uint8ClampedArray]), 0 for [NaN] and [undefined]. The source image and
    its buffer are unchanged. *)
Theorem transform_maps_samples `{collab : Collaborators}
    (st : Store) (this b : loc) (i : ImageData) (a : list Qc) (r : RSI)
    (operator : jsval → jsval) :
  images st !! this = Some i → buffer i = Some b → buffers st !! b = Some a →
  isConstantRSI i = true → rsi i = RVRsi r →
  let kind := kinds st !!! b in
  ∃ n st' ni b',
    transform this operator st = (Ok n, st') ∧
    images st !! n = None ∧ buffers st !! b' = None ∧
    images st' !! n = Some ni ∧ buffer ni = Some b' ∧
    kinds st' !! b' = Some kind ∧
    buffers st' !! b' =
    Some ((λ q, toElement kind (operator (JNum q))) <$> a) ∧
    (∀ o q, array_get a o = Some q →
            getValueAtOffset n o st' =
            (Ok (JNum (toElement kind (operator (JNum q)))), st')) ∧
    images st' !! this = Some i ∧ buffers st' !! b = Some a ∧
    geometry ni = geometry i ∧ geometries st' = geometries st.
Proof.
  intros Hi Hb Ha Hc Hr kind.
  pose proof (transform_run st this b i a r operator Hi Hb Ha Hc Hr) as Hrun.
  cbv zeta in Hrun. rewrite (clone_run st this b i a r) in Hrun by done.
  cbn [snd images buffers geometries uidArrays metas kinds] in Hrun.
  rewrite insert_insert_eq in Hrun. fold kind in Hrun.
  assert (fresh (dom (images st)) ≠ this) as Hne.
  { intros Heq. pose proof (is_fresh (dom (images st))) as Hfresh.
    rewrite Heq in Hfresh. apply Hfresh, elem_of_dom. by eexists. }
  assert (fresh (dom (buffers st)) ≠ b) as Hneb.
  { intros Heq. pose proof (is_fresh (dom (buffers st))) as Hfresh.
    rewrite Heq in Hfresh. apply Hfresh, elem_of_dom. by eexists. }
  eexists _, _, _, (fresh (dom (buffers st))).
  split; [exact Hrun|]. cbn [images buffers geometries kinds].
  split; [apply not_elem_of_dom, is_fresh|].
  split; [apply not_elem_of_dom, is_fresh|].
  split; [by rewrite lookup_insert_eq|]. split; [done|].
  split; [by rewrite lookup_insert_eq|].
  split; [by rewrite lookup_insert_eq|].
  split.
  { intros o q Hq.
    erewrite getValueAtOffset_run;
      [|cbn [images]; by rewrite lookup_insert_eq|done
       |cbn [buffers]; by rewrite lookup_insert_eq].
    do 2 f_equal. unfold readSample, array_get in *.
    destruct (o <? 0); [done|]. rewrite list_lookup_fmap, Hq. done. }
  split; [by rewrite lookup_insert_ne|].
  split; [by rewrite lookup_insert_ne|]. done.
Qed.

(** Adding 32760 to the samples 4, 10 of an [Int16Array]: 32764 fits, 32770
    wraps to -32766. *)
Lemma transform_maps_samples_witness :
  let st := Sample.worldWithImage (mkSize 2 1 1 []) [4; 10] in
  let shift (v : jsval) : jsval := js_add v (JNum (Qc_of_Z 32760)) in
  ∃ n st',
    transform (collab := Sample.collaborators) 1%positive shift st =
    (Ok n, st') ∧
    getValueAtOffset n 0 st' = (Ok (JNum (Qc_of_Z 32764)), st') ∧
    getValueAtOffset n 1 st' = (Ok (JNum (Qc_of_Z (-32766))), st').
Proof.
  intros st shift.
  destruct (transform_maps_samples (collab := Sample.collaborators) st
              1%positive 1%positive (images st !!! 1%positive)
              (Qc_of_Z <$> [4; 10]) (mkRSI 1 0) shift)
    as (n & st' & _ & _ & Hrun & _ & _ & _ & _ & _ & _ & Hread & _);
    [by vm_compute..|].
  exists n, st'. split; [done|]. split.
  - rewrite (Hread 0 (Qc_of_Z 4)) by done. by vm_compute.
  - rewrite (Hread 1 (Qc_of_Z 10)) by done. by vm_compute.
Defined.

(** X20. [compose(rhs, operator)] of an image in constant mode whose [rsi]
    holds an RSI object returns a new image whose buffer has the element
    kind of the source's buffer and whose sample at each offset [o] of the
    source is [Math.floor(operator(this[o], rhs[o]))] (with [undefined] for
    [rhs[o]] beyond the buffer of [rhs]), converted to that kind; both
    operands and their buffers are unchanged. *)
Theorem compose_combines_samples `{collab : Collaborators}
    (st : Store) (this b rhs rb : loc) (i ri : ImageData) (a ra : list Qc)
    (r : RSI) (operator : jsval → jsval → jsval) :
  images st !! this = Some i → buffer i = Some b → buffers st !! b = Some a →
  isConstantRSI i = true → rsi i = RVRsi r →
  images st !! rhs = Some ri → buffer ri = Some rb →
  buffers st !! rb = Some ra →
  let kind := kinds st !!! b in
  ∃ n st' ni b',
    compose this rhs operator st = (Ok n, st') ∧
    images st !! n = None ∧ buffers st !! b' = None ∧
    images st' !! n = Some ni ∧ buffer ni = Some b' ∧
    kinds st' !! b' = Some kind ∧
    (∀ o q, array_get a o = Some q →
            getValueAtOffset n o st' =
            (Ok (JNum (toElement kind
                         (js_floor (operator (JNum q) (readSample ra o))))),
             st')) ∧
    (∀ o, array_get a o = None →
          getValueAtOffset n o st' = (Ok JUndefined, st')) ∧
    images st' !! this = Some i ∧ buffers st' !! b = Some a ∧
    images st' !! rhs = Some ri ∧ buffers st' !! rb = Some ra.
Proof.
  intros Hi Hb Ha Hc Hr Hri Hrb Hra kind.
  pose proof (compose_run st this b rhs rb i ri a ra r operator
                Hi Hb Ha Hc Hr Hri Hrb Hra) as Hrun.
  cbv zeta in Hrun. rewrite (clone_run st this b i a r) in Hrun by done.
  cbn [snd images buffers geometries uidArrays metas kinds] in Hrun.
  rewrite insert_insert_eq in Hrun. fold kind in Hrun.
  assert (fresh (dom (images st)) ≠ this ∧ fresh (dom (images st)) ≠ rhs)
    as [Hne Hner].
  { pose proof (is_fresh (dom (images st))) as Hfresh.
    split; intros Heq; rewrite Heq in Hfresh; apply Hfresh, elem_of_dom;
      by eexists. }
  assert (fresh (dom (buffers st)) ≠ b ∧ fresh (dom (buffers st)) ≠ rb)
    as [Hneb Hnerb].
  { pose proof (is_fresh (dom (buffers st))) as Hfresh.
    split; intros Heq; rewrite Heq in Hfresh; apply Hfresh, elem_of_dom;
      by eexists. }
  eexists _, _, _, (fresh (dom (buffers st))).
  split; [exact Hrun|]. cbn [images buffers geometries kinds].
  split; [apply not_elem_of_dom, is_fresh|].
  split; [apply not_elem_of_dom, is_fresh|].
  split; [by rewrite lookup_insert_eq|]. split; [done|].
  split; [by rewrite lookup_insert_eq|].
  split; [|split].
  - intros o q Hq.
    erewrite getValueAtOffset_run;
      [|cbn [images]; by rewrite lookup_insert_eq|done
       |cbn [buffers]; by rewrite lookup_insert_eq].
    do 2 f_equal. unfold readSample at 1. unfold array_get in *.
    destruct (Z.ltb_spec o 0); [done|].
    rewrite list_lookup_imap, Hq. cbn. rewrite Z2Nat.id by lia.
    do 4 f_equal. unfold readSample, array_get.
    destruct (Z.ltb_spec o 0); [lia|]. by rewrite Hq.
  - intros o Hq.
    erewrite getValueAtOffset_run;
      [|cbn [images]; by rewrite lookup_insert_eq|done
       |cbn [buffers]; by rewrite lookup_insert_eq].
    do 2 f_equal. unfold readSample at 1. unfold array_get in *.
    destruct (Z.ltb_spec o 0); [done|].
    by rewrite list_lookup_imap, Hq.
  - by rewrite !lookup_insert_ne.
Qed.

(** The floored mean of an image with itself. *)
Lemma compose_combines_samples_witness :
  let st := Sample.worldWithImage (mkSize 2 1 1 []) [4; 5] in
  let half_sum (v w : jsval) : jsval :=
    js_mul (js_add v w) (JNum (Q2Qc (1 # 2))) in
  ∃ n st',
    compose (collab := Sample.collaborators) 1%positive 1%positive half_sum
      st = (Ok n, st') ∧
    getValueAtOffset n 1 st' = (Ok (JNum (Qc_of_Z 5)), st').
Proof.
  intros st half_sum.
  destruct (compose_combines_samples (collab := Sample.collaborators) st
              1%positive 1%positive 1%positive 1%positive
              (images st !!! 1%positive) (images st !!! 1%positive)
              (Qc_of_Z <$> [4; 5]) (Qc_of_Z <$> [4; 5]) (mkRSI 1 0) half_sum)
    as (n & st' & _ & _ & Hrun & _ & _ & _ & _ & _ & Hread & _);
    [by vm_compute..|].
  exists n, st'. split; [done|].
  rewrite (Hread 1 (Qc_of_Z 5)) by done. by vm_compute.
Defined.

(** ** Conversion to the element kind *)

Lemma Qfloor_of_Z (n : Z) : Qfloor (Qc_of_Z n) = n.
Proof. unfold Qc_of_Z. cbn [this]. apply Qfloor_Z. Qed.

Lemma Qc_trunc_of_Z (n : Z) : Qc_trunc (Qc_of_Z n) = n.
Proof.
  unfold Qc_trunc. rewrite Qfloor_of_Z.
  assert (Qceiling (Qc_of_Z n) = n) as ->.
  { unfold Qceiling, Qc_of_Z. cbn [this].
    rewrite (Qfloor_comp _ (inject_Z (- n))); [rewrite Qfloor_Z; lia|].
    by unfold inject_Z, Qopp, Qeq. }
  by destruct (bool_decide _).
Qed.

Lemma wrapInteger_fits (bits : Z) (signed : bool) (n : Z) :
  0 < bits →
  (if signed then - 2 ^ (bits - 1) ≤ n < 2 ^ (bits - 1)
   else 0 ≤ n < 2 ^ bits) →
  wrapInteger bits signed n = n.
Proof.
  intros Hbits Hfit. unfold wrapInteger.
  assert (2 ^ bits = 2 * 2 ^ (bits - 1)) as Hpow.
  { rewrite <- Z.pow_succ_r by lia. f_equal. lia. }
  assert (0 < 2 ^ (bits - 1)) as Hpos by (apply Z.pow_pos_nonneg; lia).
  destruct signed; cbn [andb].
  - destruct (Z.le_gt_cases 0 n) as [Hn|Hn].
    + rewrite Z.mod_small by lia.
      destruct (Z.leb_spec (2 ^ (bits - 1)) n); lia.
    + replace (n mod 2 ^ bits) with (n + 2 ^ bits).
      * destruct (Z.leb_spec (2 ^ (bits - 1)) (n + 2 ^ bits)); lia.
      * rewrite <- (Z.mod_small (n + 2 ^ bits) (2 ^ bits)) by lia.
        replace (n + 2 ^ bits) with (n + 1 * 2 ^ bits) by lia.
        apply Z.mod_add. lia.
  - apply Z.mod_small. lia.
Qed.

Lemma clampByte_fits (n : Z) : 0 ≤ n < 256 → clampByte (Qc_of_Z n) = n.
Proof.
  intros Hn. unfold clampByte.
  assert (∀ a b : Z, (Qc_of_Z a ≤ Qc_of_Z b)%Qc → a ≤ b) as Hle.
  { intros a b. unfold Qcle, Qc_of_Z. cbn [this]. by rewrite <- Zle_Qle. }
  case_bool_decide as H0.
  { rewrite <- Z2Qc_inj_0 in H0. apply Hle in H0. lia. }
  case_bool_decide as H255.
  { apply Hle in H255. lia. }
  rewrite Qfloor_of_Z.
  rewrite bool_decide_eq_true_2; [done|].
  unfold Qclt, Qc_of_Z, Qcplus, Q2Qc. cbn [this].
  rewrite !Qred_correct.
  unfold Qlt, inject_Z, Qplus. simpl. lia.
Qed.

Lemma toElement_fits (kind : elemKind) (n : Z) :
  fitsKind kind n → toElement kind (JNum (Qc_of_Z n)) = Qc_of_Z n.
Proof.
  unfold fitsKind, toElement. intros Hfit.
  destruct kind; cbn [bytesPerElement isSignedKind] in *;
    try (rewrite Qc_trunc_of_Z, wrapInteger_fits; [done|lia|done]).
  rewrite clampByte_fits; [done|]. simpl in Hfit. lia.
Qed.

Lemma toElement_holds (kind : elemKind) (a : list Qc) :
  Forall (sampleFits kind) a → (λ q, toElement kind (JNum q)) <$> a = a.
Proof.
  induction 1 as [|q a (n & -> & Hfit) _ IH]; [done|].
  cbn [fmap list_fmap]. rewrite toElement_fits by done. f_equal. apply IH.
Qed.

(** ** realloc *)

(** X21. The four outcomes of [realloc(size)]. The allocator is asked for
    an array of the byte width of the current buffer and the signedness
    [meta.IsSigned] announces. When it returns an array at least as long
    as the buffer, the image gets a new buffer of the new array's element
    kind that starts with the old samples, each converted to that kind (a
    negative sample of a signed buffer wraps when [meta.IsSigned] is not
    set; samples that the new kind can hold arrive unchanged), and
    continues with the new array's own content; the old buffer object is
    untouched. When the new array is shorter, [buffer.set]
    raises a [RangeError] after the image's buffer variable was already
    replaced by the new array. When the allocator returns [null], the
    buffer variable is [null] when the error "Cannot reallocate data for
    image." is thrown, so every later [getValueAtOffset] raises a
    [TypeError]. An exception of the allocator leaves the store
    unchanged. *)
Theorem realloc_outcomes `{collab : Collaborators}
    (st : Store) (this b : loc) (i : ImageData) (old : list Qc)
    (size : jsval) :
  images st !! this = Some i → buffer i = Some b →
  buffers st !! b = Some old →
  let bits := bytesPerElement (kinds st !!! b) * 8 in
  let signed := truthy (meta_get (metas st !!! meta i) "IsSigned") in
  let b' := fresh (dom (buffers st)) in
  let withBuffer (v : option loc) (bs : gmap loc (list Qc))
      (ks : gmap loc elemKind) :=
    mkStore (<[this := set_buffer v i]> (images st)) bs (geometries st)
      (uidArrays st) (metas st) ks in
  (∀ kind new, getTypedArray bits signed size = Ok (Some (kind, new)) →
     (length old ≤ length new)%nat →
     realloc this size st =
     (Ok tt, withBuffer (Some b')
               (<[b' := ((λ q, toElement kind (JNum q)) <$> old) ++
                        drop (length old) new]> (buffers st))
               (<[b' := kind]> (kinds st)))) ∧
  (∀ kind, Forall (sampleFits kind) old →
     (λ q, toElement kind (JNum q)) <$> old = old) ∧
  (∀ kind new, getTypedArray bits signed size = Ok (Some (kind, new)) →
     (length new < length old)%nat →
     realloc this size st =
     (Throw RangeError,
      withBuffer (Some b') (<[b' := new]> (buffers st))
        (<[b' := kind]> (kinds st)))) ∧
  (getTypedArray bits signed size = Ok None →
     realloc this size st =
     (Throw "Cannot reallocate data for image.",
      withBuffer None (buffers st) (kinds st)) ∧
     ∀ o, fst (getValueAtOffset this o
                 (withBuffer None (buffers st) (kinds st))) =
          Throw Image.TypeError) ∧
  (∀ msg, getTypedArray bits signed size = Throw msg →
     realloc this size st = (Throw msg, st)).
Proof.
  intros Hi Hb Ha bits signed b' withBuffer.
  assert (∀ X (k : list Qc → M X),
            bind (theBuffer (buffer i)) k st = k old st) as Hbuf.
  { intros X k. rewrite bind_run, Hb. unfold theBuffer, gets.
    by rewrite (lookup_total_correct _ _ _ Ha). }
  assert (realloc this size st =
          match getTypedArray bits signed size with
          | Ok (Some (kind, a)) =>
              let* b0 := newBuffer kind a in
              updateImage this (set_buffer (Some b0));;
              match typedArray_set kind a old 0 with
              | Some a0 => storeBuffer b0 a0
              | None => throw RangeError
              end
          | Ok None =>
              updateImage this (set_buffer None);;
              throw "Cannot reallocate data for image."
          | Throw msg => throw msg
          end st) as ->.
  { unfold realloc. rewrite bind_run, (theImage_run st this i Hi), Hbuf.
    rewrite bind_run, Hb. unfold theKind at 1, gets at 1.
    rewrite bind_run. unfold theMeta at 1, gets at 1. fold bits signed.
    by destruct (getTypedArray bits signed size) as [[[kind a]|]|msg]. }
  split; [|split; [|split; [|split]]].
  - intros kind new -> Hlen. rewrite bind_run. unfold newBuffer at 1. fold b'.
    rewrite bind_run, (updateImage_run _ this i) by done.
    cbn [images buffers geometries uidArrays metas kinds].
    unfold typedArray_set. cbn [Z.ltb Z.compare orb].
    destruct (Z.ltb_spec (Z.of_nat (length new))
                (0 + Z.of_nat (length old))); [lia|].
    unfold storeBuffer, modify.
    cbn [images buffers geometries uidArrays metas kinds].
    by rewrite insert_insert_eq.
  - intros kind. apply toElement_holds.
  - intros kind new -> Hlen. rewrite bind_run. unfold newBuffer at 1. fold b'.
    rewrite bind_run, (updateImage_run _ this i) by done.
    cbn [images buffers geometries uidArrays metas kinds].
    unfold typedArray_set. cbn [Z.ltb Z.compare orb].
    destruct (Z.ltb_spec (Z.of_nat (length new))
                (0 + Z.of_nat (length old))); [|lia].
    done.
  - intros ->. rewrite bind_run, (updateImage_run _ this i) by done.
    split; [done|]. intros o. unfold getValueAtOffset, withBuffer.
    rewrite bind_run. unfold theImage, gets. cbn [images].
    by rewrite lookup_total_insert_eq.
  - by intros msg ->.
Qed.

(** Growing the [Int16Array] 4, -7 of an image whose meta does not set
    [IsSigned] to three samples: the new array is a [Uint16Array] and -7
    arrives as 65529. *)
Lemma realloc_outcomes_witness :
  let st := Sample.worldWithImage (mkSize 2 1 1 []) [4; -7] in
  ∃ st',
    realloc (collab := Sample.collaborators) 1%positive (JNum (Qc_of_Z 3)) st =
    (Ok tt, st') ∧
    buffers st' !! 2%positive = Some (Qc_of_Z <$> [4; 65529; 0]) ∧
    kinds st' !! 2%positive = Some Uint16.
Proof.
  intros st.
  destruct (realloc_outcomes (collab := Sample.collaborators) st 1%positive
              1%positive (images st !!! 1%positive) (Qc_of_Z <$> [4; -7])
              (JNum (Qc_of_Z 3))) as (Hgrow & _);
    [by vm_compute..|].
  eexists. split.
  - apply (Hgrow Uint16 (replicate 3 0%Qc)); [by vm_compute|simpl; lia].
  - split; [by_computation|by vm_compute].
Defined.

(** ** Access by coordinates *)

Section rescaled_access.
Context `{collab : Collaborators}.
#[local] Arguments lookup_total : simpl never.

Lemma theGeometry_run (st : Store) (g : loc) :
  theGeometry g st = (Ok (geometries st !!! g), st).
Proof. done. Qed.

End rescaled_access.

(** X22. On every store reached through the public interface the
    accessors by coordinates, by index and by offset agree:
    [getValue(i, j, k, f)] and [getValueAtIndex] read the sample at
    [indexToOffset([i, j, k, f || 0])], and [getRescaledValue] and
    [getRescaledValueAtIndex] return what [getRescaledValueAtOffset]
    returns at that offset. *)
Theorem value_accessors_agree `{collab : Collaborators}
    (st : Store) (this : loc) (i : ImageData) (x y z : Z) (f : option Z) :
  reachable st → images st !! this = Some i →
  let size := getSize (geometries st !!! geometry i) in
  let index : Index := [x; y; z; default 0 f] in
  let offset := Size_indexToOffset size index in
  getValue this x y z f st = getValueAtOffset this offset st ∧
  getValueAtIndex this index st = getValueAtOffset this offset st ∧
  getRescaledValue this x y z f st = getRescaledValueAtOffset this offset st ∧
  getRescaledValueAtIndex this index st =
  getRescaledValueAtOffset this offset st.
Proof.
  intros Hreach Hi size index offset.
  destruct (rsiConsistent_reachable st Hreach _ _ Hi) as (Hc & _).
  destruct (constant_image_reads st this i Hi Hc) as (Hconst & Hget & Hres).
  assert (getValue this x y z f st = getValueAtOffset this offset st) as Hv.
  { unfold getValue. by rewrite bind_run, (theImage_run st this i Hi). }
  assert (∀ f', default 0 f' = default 0 f →
            getValue this x y z f' st = getValueAtOffset this offset st)
    as Hv'.
  { intros f' Hf'. unfold getValue.
    rewrite bind_run, (theImage_run st this i Hi). cbv zeta. by rewrite Hf'. }
  split; [done|]. split.
  { unfold getValueAtIndex.
    by rewrite bind_run, (theImage_run st this i Hi). }
  split.
  - unfold getRescaledValue. rewrite bind_run, Hv' by done.
    rewrite Hres, bind_run.
    pose proof (getValueAtOffset_store this offset st) as Hst.
    destruct (getValueAtOffset this offset st) as [[val|msg] st1]; [|done].
    simpl in Hst. subst st1.
    unfold getIsIdentityRSI.
    rewrite !bind_run, (theImage_run st this i Hi). unfold ret at 1.
    destruct (isIdentityRSI i); [done|]. cbn [negb].
    by rewrite bind_run, Hconst, bind_run, Hget.
  - unfold getRescaledValueAtIndex.
    by rewrite bind_run, (theImage_run st this i Hi).
Qed.

(** Position (1, 1, 0) of a 2 x 2 x 1 image is offset 3. *)
Lemma value_accessors_agree_witness :
  let st := Sample.worldWithImage (mkSize 2 2 1 []) [1; 2; 3; 4] in
  getRescaledValue 1%positive 1 1 0 None st =
  getRescaledValueAtOffset 1%positive 3 st.
Proof.
  intros st.
  destruct (value_accessors_agree (collab := Sample.collaborators) st
              1%positive (images st !!! 1%positive) 1 1 0 None)
    as (_ & _ & Hres & _); [|by vm_compute|exact Hres].
  exists (Sample.world (mkSize 2 2 1 []) [1; 2; 3; 4]),
    [CallNew 1%positive 1%positive 1%positive]. by split.
Defined.

(** ** The rescaled data range *)

Section affine.
Local Open Scope Qc_scope.

Lemma Qcmult_le_neg_r (x y z : Qc) : x ≤ y → z ≤ 0 → y * z ≤ x * z.
Proof.
  intros Hxy Hz.
  assert (x * - z ≤ y * - z) as H.
  { apply Qcmult_le_compat_r; [done|].
    apply Qcopp_le_compat in Hz. by replace (- 0) with 0 in Hz by ring. }
  apply Qcopp_le_compat in H.
  by replace (- (y * - z)) with (y * z) in H by ring;
     replace (- (x * - z)) with (x * z) in H by ring.
Qed.

Lemma affine_range (s k mn mx q : Qc) :
  mn ≤ q → q ≤ mx →
  let resmin := mn * s + k in
  let resmax := mx * s + k in
  let lo := if bool_decide (resmin < resmax) then resmin else resmax in
  let hi := if bool_decide (resmax < resmin) then resmin else resmax in
  lo ≤ q * s + k ∧ q * s + k ≤ hi.
Proof.
  intros Hmn Hmx resmin resmax lo hi.
  destruct (Qclt_le_dec s 0) as [Hneg|Hpos].
  - assert (q * s + k ≤ resmin) as H1.
    { apply Qcplus_le_compat; [|apply Qcle_refl].
      apply Qcmult_le_neg_r; [done|by apply Qclt_le_weak]. }
    assert (resmax ≤ q * s + k) as H2.
    { apply Qcplus_le_compat; [|apply Qcle_refl].
      apply Qcmult_le_neg_r; [done|by apply Qclt_le_weak]. }
    subst lo hi. split.
    + case_bool_decide as Hlt; [|done].
      exfalso. apply (Qclt_not_le _ _ Hlt). by eapply Qcle_trans.
    + case_bool_decide as Hlt; [done|].
      apply Qcnot_lt_le in Hlt. by eapply Qcle_trans.
  - assert (resmin ≤ q * s + k) as H1.
    { apply Qcplus_le_compat; [|apply Qcle_refl].
      by apply Qcmult_le_compat_r. }
    assert (q * s + k ≤ resmax) as H2.
    { apply Qcplus_le_compat; [|apply Qcle_refl].
      by apply Qcmult_le_compat_r. }
    subst lo hi. split.
    + case_bool_decide as Hlt; [done|].
      apply Qcnot_lt_le in Hlt. by eapply Qcle_trans.
    + case_bool_decide as Hlt; [|done].
      exfalso. apply (Qclt_not_le _ _ Hlt). by eapply Qcle_trans.
Qed.

End affine.

Section rescaled_range.
Context `{collab : Collaborators}.
#[local] Arguments lookup_total : simpl never.

Lemma getDataRange_run (st : Store) (this b : loc) (i : ImageData)
    (a : list Qc) :
  images st !! this = Some i → buffer i = Some b → buffers st !! b = Some a →
  dataRange i = None →
  let dr := dataRangeOf a (getSize (geometries st !!! geometry i)) in
  getDataRange this st =
  (Ok dr,
   mkStore (<[this := set_dataRange (Some dr) i]> (images st)) (buffers st)
     (geometries st) (uidArrays st) (metas st) (kinds st)).
Proof.
  intros Hi Hb Ha Hnone dr. unfold getDataRange.
  rewrite bind_run, (theImage_run st this i Hi), Hnone.
  rewrite bind_run, (calculateDataRange_run st this b i a) by done.
  by rewrite bind_run, (updateImage_run st this i).
Qed.

End rescaled_range.

(** X23. [calculateRescaledDataRange] on a store reached through the
    public interface, for an image with RSI [(s, k)] and no cached data
    range: it returns a range [{min, max}] such that the rescaled value
    [v * s + k] of every scanned sample [v] lies between [min] and [max],
    and both are rescaled values of scanned samples -- also for a negative
    slope, where the rescaled minimum comes from the raw maximum. *)
Theorem calculateRescaledDataRange_bounds `{collab : Collaborators}
    (st : Store) (this b : loc) (i : ImageData) (a : list Qc) (s k : Qc) :
  reachable st →
  images st !! this = Some i → buffer i = Some b → buffers st !! b = Some a →
  rsi i = RVRsi (mkRSI s k) → dataRange i = None →
  let n := dataRangeLength (getSize (geometries st !!! geometry i)) in
  0 < n ≤ Z.of_nat (length a) →
  ∃ rmin rmax,
    fst (calculateRescaledDataRange this st) =
    Ok (mkRange (JNum rmin) (JNum rmax)) ∧
    (∀ o q, 0 ≤ o < n → array_get a o = Some q →
            (rmin ≤ q * s + k)%Qc ∧ (q * s + k ≤ rmax)%Qc) ∧
    (∃ o q, 0 ≤ o < n ∧ array_get a o = Some q ∧ rmin = (q * s + k)%Qc) ∧
    (∃ o q, 0 ≤ o < n ∧ array_get a o = Some q ∧ rmax = (q * s + k)%Qc).
Proof.
  intros Hreach Hi Hb Ha Hr Hnone n Hn.
  destruct (rsiConsistent_reachable st Hreach _ _ Hi) as (Hc & _ & Hid).
  destruct (dataRangeOf_bounds a _ Hn)
    as (mn & mx & Hdr & Hall & (omn & Homn & Hmn) & (omx & Homx & Hmx)).
  pose proof (getDataRange_run st this b i a Hi Hb Ha Hnone) as Hget.
  cbv zeta in Hget. rewrite Hdr in Hget.
  unfold calculateRescaledDataRange, getIsIdentityRSI.
  rewrite !bind_run, (theImage_run st this i Hi). unfold ret at 1.
  destruct (isIdentityRSI i) eqn:Hidentity.
  - destruct (Hid eq_refl) as (r & Hr' & Hrid).
    rewrite Hr in Hr'. injection Hr' as <-.
    unfold isID in Hrid. cbn in Hrid.
    apply andb_prop in Hrid as [Hs Hk].
    apply bool_decide_eq_true_1 in Hs, Hk. subst s k.
    rewrite Hget. exists mn, mx. split; [done|].
    split; [|split].
    + intros o q Ho Hq. replace (q * 1 + 0)%Qc with q by ring.
      by apply (Hall o).
    + exists omn, mn. repeat split; try done; try lia. ring.
    + exists omx, mx. repeat split; try done; try lia. ring.
  - rewrite bind_run.
    destruct (constant_image_reads st this i Hi Hc) as (Hconst & _).
    rewrite Hconst, bind_run, Hget.
    set (st1 := mkStore _ _ _ _ _ _).
    assert (images st1 !! this =
            Some (set_dataRange (Some (mkRange (JNum mn) (JNum mx))) i))
      as Hi1.
    { subst st1. cbn [images]. by rewrite lookup_insert_eq. }
    destruct (constant_image_reads st1 this _ Hi1 Hc) as (_ & Hrsi & _).
    rewrite !bind_run, Hrsi. cbn [rsi set_dataRange]. rewrite Hr.
    cbn [call_apply min max RSI_apply getSlope getIntercept js_mul js_add].
    rewrite bind_run. unfold ret at 1. rewrite bind_run, Hrsi.
    cbn [rsi set_dataRange]. rewrite Hr.
    cbn [call_apply min max RSI_apply getSlope getIntercept js_mul js_add].
    rewrite bind_run. unfold ret. cbn [fst js_lt js_gt].
    set (resmin := (mn * s + k)%Qc). set (resmax := (mx * s + k)%Qc).
    exists (if bool_decide (resmin < resmax)%Qc then resmin else resmax),
      (if bool_decide (resmax < resmin)%Qc then resmin else resmax).
    split; [by do 2 case_bool_decide|]. split; [|split].
    + intros o q Ho Hq. destruct (Hall o q Ho Hq).
      by apply affine_range.
    + case_bool_decide.
      * exists omn, mn. by repeat split; try lia.
      * exists omx, mx. by repeat split; try lia.
    + case_bool_decide.
      * exists omn, mn. by repeat split; try lia.
      * exists omx, mx. by repeat split; try lia.
Qed.

(** Slope -2, intercept 3 on samples 4, 5. *)
Lemma calculateRescaledDataRange_bounds_witness :
  let cs :=
    [CallNew 1%positive 1%positive 1%positive;
     CallSetRescaleSlopeAndIntercept 1%positive
       (RVRsi (mkRSI (Qc_of_Z (-2)) (Qc_of_Z 3))) JUndefined] in
  let st :=
    run (collab := Sample.collaborators) cs
      (Sample.world (mkSize 2 1 1 []) [4; 5]) in
  ∃ rmin rmax,
    fst (calculateRescaledDataRange 1%positive st) =
    Ok (mkRange (JNum rmin) (JNum rmax)) ∧
    (rmin ≤ Qc_of_Z 4 * Qc_of_Z (-2) + Qc_of_Z 3)%Qc.
Proof.
  intros cs st.
  destruct (calculateRescaledDataRange_bounds (collab := Sample.collaborators)
              st 1%positive 1%positive (images st !!! 1%positive)
              (Qc_of_Z <$> [4; 5]) (Qc_of_Z (-2)) (Qc_of_Z 3))
    as (rmin & rmax & Hrun & Hall & _).
  - exists (Sample.world (mkSize 2 1 1 []) [4; 5]), cs. by split.
  - by vm_compute.
  - by vm_compute.
  - by vm_compute.
  - by vm_compute.
  - by vm_compute.
  - by vm_compute.
  - exists rmin, rmax. split; [done|].
    apply (Hall 0 (Qc_of_Z 4)); [by vm_compute|by vm_compute].
Defined.

(** ** The histogram *)

Section histogram_general.
Context `{collab : Collaborators}.
#[local] Arguments lookup_total : simpl never.

Lemma Qc_of_Z_le_floor (x : Qc) (j : Z) :
  j ≤ Qfloor x → (Qc_of_Z j ≤ x)%Qc.
Proof.
  intros Hj. unfold Qcle, Qc_of_Z, Q2Qc. cbn [this].
  apply Qle_trans with (inject_Z j); [apply Qle_refl|].
  eapply Qle_trans; [|apply Qfloor_le]. by rewrite <- Zle_Qle.
Qed.

Lemma Qc_of_Z_succ (j : Z) : (Qc_of_Z j + 1)%Qc = Qc_of_Z (j + 1).
Proof. by rewrite Z2Qc_inj_add, Z2Qc_inj_1. Qed.

Lemma histogramLoop_bins (rmin rmax : Qc) (histo : gmap jsval Z)
    (n : nat) (j0 : Z) :
  (∀ j, j0 ≤ j < j0 + Z.of_nat n → (rmin + Qc_of_Z j ≤ rmax)%Qc) →
  histogramLoop n (JNum (rmin + Qc_of_Z j0)) (JNum rmax) histo =
  (λ j, (JNum (rmin + Qc_of_Z j),
         default 0 (histo !! JNum (rmin + Qc_of_Z j)))) <$>
    seqZ j0 (Z.of_nat n).
Proof.
  revert j0. induction n as [|n IH]; intros j0 Hle; [done|].
  cbn [histogramLoop js_le].
  rewrite bool_decide_eq_true_2 by (apply Hle; lia).
  rewrite seqZ_cons by lia. rewrite fmap_cons. f_equal.
  cbn [js_add].
  replace (rmin + Qc_of_Z j0 + 1)%Qc with (rmin + Qc_of_Z (j0 + 1))%Qc
    by (rewrite <- Qc_of_Z_succ; ring).
  rewrite IH by (intros j Hj; apply Hle; lia).
  by replace (Z.succ j0) with (j0 + 1) by lia;
     replace (Z.pred (Z.of_nat (S n))) with (Z.of_nat n) by lia.
Qed.

Lemma histogram_bins (rmin rmax : Qc) (histo : gmap jsval Z) :
  (rmin ≤ rmax)%Qc →
  histogramLoop (histogramSteps (JNum rmin) (JNum rmax)) (JNum rmin)
    (JNum rmax) histo =
  (λ j, (JNum (rmin + Qc_of_Z j),
         default 0 (histo !! JNum (rmin + Qc_of_Z j)))) <$>
    seqZ 0 (Qfloor (rmax - rmin)%Qc + 1).
Proof.
  intros Hle. unfold histogramSteps. rewrite bool_decide_eq_true_2 by done.
  assert (0 ≤ Qfloor (rmax - rmin)%Qc) as Hfloor.
  { assert (Qfloor 0 ≤ Qfloor (rmax - rmin)%Qc) as H; [|done].
    apply Qfloor_resp_le.
    assert (0 ≤ rmax - rmin)%Qc as H0; [|exact H0].
    replace 0%Qc with (rmin - rmin)%Qc by ring.
    apply Qcplus_le_compat; [done|apply Qcle_refl]. }
  replace (JNum rmin) with (JNum (rmin + Qc_of_Z 0))
    by (f_equal; rewrite Z2Qc_inj_0; ring).
  rewrite histogramLoop_bins.
  - by rewrite Z2Nat.id by lia.
  - intros j Hj. rewrite Z2Nat.id in Hj by lia.
    assert (Qc_of_Z j ≤ rmax - rmin)%Qc as Hjle
      by (apply Qc_of_Z_le_floor; lia).
    apply Qcle_trans with (rmin + (rmax - rmin))%Qc.
    + apply Qcplus_le_compat; [apply Qcle_refl|done].
    + replace (rmin + (rmax - rmin))%Qc with rmax by ring. apply Qcle_refl.
Qed.

Lemma rescaled_read_run (st : Store) (this b : loc) (i : ImageData)
    (a : list Qc) (s k : Qc) (o : Z) :
  images st !! this = Some i → buffer i = Some b → buffers st !! b = Some a →
  rsiConsistent i → rsi i = RVRsi (mkRSI s k) →
  is_Some (array_get a o) →
  getRescaledValueAtOffset this o st =
  (Ok (readSample ((λ q, q * s + k)%Qc <$> a) o), st).
Proof.
  intros Hi Hb Ha (Hc & _ & Hid) Hrsi [q Hq].
  destruct (constant_image_reads st this i Hi Hc) as (_ & _ & ->).
  rewrite bind_run, (getValueAtOffset_run st this b i a) by done.
  assert (readSample a o = JNum q) as ->
    by (unfold readSample; by rewrite Hq).
  assert (readSample ((λ q, q * s + k)%Qc <$> a) o = JNum (q * s + k)%Qc)
    as ->.
  { unfold readSample, array_get in *. destruct (o <? 0); [done|].
    by rewrite list_lookup_fmap, Hq. }
  rewrite Hrsi. destruct (isIdentityRSI i); [|done].
  destruct (Hid eq_refl) as (r & Hr & Hrid).
  rewrite Hrsi in Hr. injection Hr as <-.
  unfold isID in Hrid. cbn in Hrid.
  apply andb_prop in Hrid as [Hs Hk].
  apply bool_decide_eq_true_1 in Hs, Hk. subst s k.
  unfold ret. do 3 f_equal. ring.
Qed.

(** The scan loop of [calculateHistogram] over offsets inside the buffer:
    raw and rescaled ranges are scanned as [scanRange] does, and every
    rescaled value's bucket grows by the number of offsets that carry
    it. *)
Lemma histogram_scan_general (st : Store) (this : loc) (a a' : list Qc)
    (l : list Z) (sc : histoScan) :
  (∀ o, o ∈ l → getValueAtOffset this o st = (Ok (readSample a o), st)) →
  (∀ o, o ∈ l →
        getRescaledValueAtOffset this o st = (Ok (readSample a' o), st)) →
  (∀ o, o ∈ l → is_Some (array_get a' o)) →
  ∃ sc',
    foldM l sc
      (λ sc k,
         let* value := getValueAtOffset this k in
         let max := if js_gt value (hs_max sc) then value else hs_max sc in
         let min := if js_lt value (hs_min sc) then value else hs_min sc in
         let* rvalue := getRescaledValueAtOffset this k in
         let rmax :=
           if js_gt rvalue (hs_rmax sc) then rvalue else hs_rmax sc in
         let rmin :=
           if js_lt rvalue (hs_rmin sc) then rvalue else hs_rmin sc in
         let histo :=
           <[rvalue := default 0 (hs_histo sc !! rvalue) + 1]>
             (hs_histo sc) in
         ret (mkHistoScan min max rmin rmax histo)) st = (Ok sc', st) ∧
    (hs_min sc', hs_max sc') = scanRange a l (hs_min sc, hs_max sc) ∧
    (hs_rmin sc', hs_rmax sc') = scanRange a' l (hs_rmin sc, hs_rmax sc) ∧
    ∀ v, default 0 (hs_histo sc' !! JNum v) =
         default 0 (hs_histo sc !! JNum v) + countSamples a' l v.
Proof.
  revert sc. induction l as [|o l IH]; intros sc Hraw Hres Hin.
  { exists sc. split; [done|]. split; [done|]. split; [done|].
    intros v. unfold countSamples. simpl. lia. }
  cbn [foldM].
  rewrite bind_run, bind_run, Hraw, bind_run, Hres
    by apply list_elem_of_here.
  unfold ret at 1.
  edestruct IH as (sc' & Hrun & Hmm & Hrmm & Hcount);
    [| | |exists sc'; split; [exact Hrun|]].
  - intros o' Ho'. apply Hraw. by apply list_elem_of_further.
  - intros o' Ho'. apply Hres. by apply list_elem_of_further.
  - intros o' Ho'. apply Hin. by apply list_elem_of_further.
  - cbn [hs_min hs_max hs_rmin hs_rmax hs_histo] in *.
    split; [by rewrite Hmm, scanRange_cons|].
    split; [by rewrite Hrmm, scanRange_cons|].
    intros v. rewrite Hcount. unfold countSamples.
    rewrite filter_cons.
    destruct (Hin o (list_elem_of_here _ _)) as [q Hq].
    assert (readSample a' o = JNum q) as ->
      by (unfold readSample; by rewrite Hq).
    destruct (decide (array_get a' o = Some v)) as [Hv|Hv].
    + rewrite Hq in Hv. injection Hv as ->.
      rewrite lookup_insert_eq. simpl. lia.
    + rewrite lookup_insert_ne; [done|].
      intros [= ->]. by rewrite Hq in Hv.
Qed.

Lemma calculateHistogram_run (st : Store) (this b : loc) (i : ImageData)
    (a : list Qc) (s k : Qc) :
  images st !! this = Some i → buffer i = Some b → buffers st !! b = Some a →
  rsiConsistent i → rsi i = RVRsi (mkRSI s k) →
  let N := getTotalSize (getSize (geometries st !!! geometry i)) in
  let a' := (λ q, q * s + k)%Qc <$> a in
  0 < N ≤ Z.of_nat (length a) →
  ∃ mn mx rmin rmax,
    calculateHistogram this st =
    (Ok (mkRange (JNum mn) (JNum mx), mkRange (JNum rmin) (JNum rmax),
         (λ j, (JNum (rmin + Qc_of_Z j),
                countSamples a' (seqZ 0 N) (rmin + Qc_of_Z j)%Qc)) <$>
           seqZ 0 (Qfloor (rmax - rmin)%Qc + 1)), st) ∧
    (∀ o v, 0 ≤ o < N → array_get a' o = Some v →
            (rmin ≤ v)%Qc ∧ (v ≤ rmax)%Qc) ∧
    (∃ o, 0 ≤ o < N ∧ array_get a' o = Some rmin) ∧
    (∃ o, 0 ≤ o < N ∧ array_get a' o = Some rmax).
Proof.
  intros Hi Hb Ha Hcons Hrsi N a' HN.
  assert (length a' = length a) as Hlen by (subst a'; by rewrite length_fmap).
  assert (∀ o, 0 ≤ o < N → is_Some (array_get a o)) as Hin.
  { intros o Ho. apply array_get_in_range. lia. }
  assert (∀ o, 0 ≤ o < N → is_Some (array_get a' o)) as Hin'.
  { intros o Ho. apply array_get_in_range. lia. }
  assert (∀ o, 0 ≤ o < N →
            getRescaledValueAtOffset this o st = (Ok (readSample a' o), st))
    as Hres.
  { intros o Ho. apply (rescaled_read_run st this b i a s k o); try done.
    by apply Hin. }
  destruct (Hin 0) as [q0 Hq0]; [lia|].
  destruct (Hin' 0) as [r0 Hr0]; [lia|].
  unfold calculateHistogram.
  rewrite bind_run, (theImage_run st this i Hi).
  rewrite bind_run, theGeometry_run. fold N.
  rewrite bind_run, (getValueAtOffset_run st this b i a) by done.
  rewrite bind_run, Hres by lia. rewrite bind_run.
  assert (readSample a 0 = JNum q0) as ->
    by (unfold readSample; by rewrite Hq0).
  assert (readSample a' 0 = JNum r0) as ->
    by (unfold readSample; by rewrite Hr0).
  edestruct (histogram_scan_general st this a a' (seqZ 0 N)
               (mkHistoScan (JNum q0) (JNum q0) (JNum r0) (JNum r0) ∅))
    as (sc' & Hrun & Hmm & Hrmm & Hcount).
  { intros o Ho. apply elem_of_seqZ in Ho.
    by apply (getValueAtOffset_run st this b i a). }
  { intros o Ho. apply elem_of_seqZ in Ho. apply Hres. lia. }
  { intros o Ho. apply elem_of_seqZ in Ho. apply Hin'. lia. }
  cbv zeta in Hrun. rewrite Hrun. clear Hrun.
  cbn [hs_min hs_max hs_rmin hs_rmax hs_histo] in *.
  destruct (scanRange_bounds a (seqZ 0 N) q0 q0)
    as (mn & mx & Hscan & _).
  { intros o Ho. apply elem_of_seqZ in Ho. apply Hin. lia. }
  destruct (scanRange_bounds a' (seqZ 0 N) r0 r0)
    as (rmin & rmax & Hrscan & Hle & Hge & Hall & Hamn & Hamx).
  { intros o Ho. apply elem_of_seqZ in Ho. apply Hin'. lia. }
  rewrite Hscan in Hmm. rewrite Hrscan in Hrmm.
  injection Hmm as -> ->. injection Hrmm as Hrmin Hrmax.
  exists mn, mx, rmin, rmax. rewrite Hrmin, Hrmax.
  split.
  { unfold ret. do 3 f_equal.
    rewrite histogram_bins by by eapply Qcle_trans.
    apply list_fmap_ext. intros ? j ?. f_equal.
    rewrite Hcount. by rewrite lookup_empty. }
  split; [|split].
  - intros o v Ho Hv. apply (Hall o); [|done]. apply elem_of_seqZ. lia.
  - destruct Hamn as [->|(o & Ho & Hq)].
    + exists 0. split; [lia|done].
    + exists o. apply elem_of_seqZ in Ho. split; [lia|done].
  - destruct Hamx as [->|(o & Ho & Hq)].
    + exists 0. split; [lia|done].
    + exists o. apply elem_of_seqZ in Ho. split; [lia|done].
Qed.

End histogram_general.

(** X24. [getHistogram] on a store reached through the public interface,
    for an image with RSI [(s, k)], no cached histogram and a buffer that
    holds the [N = getTotalSize()] scanned offsets: the result has one bin
    for each [rmin + j], [0 <= j <= floor(rmax - rmin)], where [rmin] and
    [rmax] are the least and greatest rescaled value of the scanned
    samples, and the count of a bin is the number of scanned offsets whose
    rescaled value equals the bin's value. *)
Theorem getHistogram_counts `{collab : Collaborators}
    (st : Store) (this b : loc) (i : ImageData) (a : list Qc) (s k : Qc) :
  reachable st →
  images st !! this = Some i → buffer i = Some b → buffers st !! b = Some a →
  rsi i = RVRsi (mkRSI s k) → histogram i = None →
  let N := getTotalSize (getSize (geometries st !!! geometry i)) in
  let rescaled := (λ q, q * s + k)%Qc <$> a in
  0 < N ≤ Z.of_nat (length a) →
  ∃ rmin rmax,
    fst (getHistogram this st) =
    Ok ((λ j, (JNum (rmin + Qc_of_Z j),
               countSamples rescaled (seqZ 0 N) (rmin + Qc_of_Z j)%Qc)) <$>
          seqZ 0 (Qfloor (rmax - rmin)%Qc + 1)) ∧
    (∀ o v, 0 ≤ o < N → array_get rescaled o = Some v →
            (rmin ≤ v)%Qc ∧ (v ≤ rmax)%Qc) ∧
    (∃ o, 0 ≤ o < N ∧ array_get rescaled o = Some rmin) ∧
    (∃ o, 0 ≤ o < N ∧ array_get rescaled o = Some rmax).
Proof.
  intros Hreach Hi Hb Ha Hrsi Hnone N rescaled HN.
  pose proof (rsiConsistent_reachable st Hreach _ _ Hi) as Hcons.
  destruct (calculateHistogram_run st this b i a s k Hi Hb Ha Hcons Hrsi HN)
    as (mn & mx & rmin & rmax & Hrun & Hbounds).
  exists rmin, rmax. split; [|exact Hbounds].
  unfold getHistogram.
  rewrite bind_run, (theImage_run st this i Hi), Hnone, bind_run, Hrun.
  rewrite bind_run, (updateImage_run st this i) by done.
  set (st1 := mkStore _ _ _ _ _ _).
  rewrite bind_run, (updateImage_run st1 this _)
    by (subst st1; cbn [images]; by rewrite lookup_insert_eq).
  set (st2 := mkStore _ _ _ _ _ _).
  rewrite bind_run, (updateImage_run st2 this _)
    by (subst st2; cbn [images]; by rewrite lookup_insert_eq).
  done.
Qed.

(** Samples 4, 6, 4, after the rescaled data range was asked for. *)
Lemma getHistogram_counts_witness :
  let cs :=
    [CallNew 1%positive 1%positive 1%positive;
     CallGetRescaledDataRange 1%positive] in
  let st :=
    run (collab := Sample.collaborators) cs
      (Sample.world (mkSize 3 1 1 []) [4; 6; 4]) in
  ∃ rmin rmax,
    fst (getHistogram 1%positive st) =
    Ok ((λ j, (JNum (rmin + Qc_of_Z j),
               countSamples ((λ q, q * 1 + 0)%Qc <$> (Qc_of_Z <$> [4; 6; 4]))
                 (seqZ 0 3) (rmin + Qc_of_Z j)%Qc)) <$>
          seqZ 0 (Qfloor (rmax - rmin)%Qc + 1)).
Proof.
  intros cs st.
  destruct (getHistogram_counts (collab := Sample.collaborators) st
              1%positive 1%positive (images st !!! 1%positive)
              (Qc_of_Z <$> [4; 6; 4]) 1%Qc 0%Qc)
    as (rmin & rmax & Hrun & _).
  - exists (Sample.world (mkSize 3 1 1 []) [4; 6; 4]), cs. by split.
  - by vm_compute.
  - by vm_compute.
  - by vm_compute.
  - by vm_compute.
  - by vm_compute.
  - by vm_compute.
  - by exists rmin, rmax.
Defined.


(** ** The runs of range *)

Section range_facts.
Context {A : Type} (acc : Z → A).

Lemma range_unfold (start end_ inc countMax countIncrement : Z)
    (reverse1 reverse2 : bool) :
  range start end_ inc countMax countIncrement (Some reverse1)
    (Some reverse2) =
  ItRange
    (RangeState start end_ (rangeIncrement inc reverse1 reverse2) countMax
       (rangeRowStep countIncrement reverse1 -
        countMax * rangeIncrement inc reverse1 reverse2)
       reverse1 (rangeFirst start end_ inc countMax reverse1 reverse2) 0).
Proof.
  unfold range, rangeIncrement, rangeRowStep, rangeFirst.
  destruct reverse1, reverse2; simpl; do 2 f_equal; lia.
Qed.

Lemma range_run (start end_ inc countMax final : Z) (reverse1 : bool)
    (p c : Z) (m : nat) :
  c + Z.of_nat (S m) = countMax → 0 ≤ c →
  (∀ d, c ≤ d < countMax →
        rangeTest start end_ reverse1 (p + d * inc) = true) →
  let st :=
    ItRange (RangeState start end_ inc countMax final reverse1
               (p + c * inc) c) in
  observation <$> pulls acc (S m) st =
  yields acc <$> ((λ d, p + d * inc) <$> seqZ c (Z.of_nat (S m))) ∧
  Nat.iter (S m) (step acc) st =
  ItRange (RangeState start end_ inc countMax final reverse1
             (p + countMax * inc + final) 0).
Proof.
  revert c. induction m as [|m IH]; intros c Hc Hc0 Htest st.
  - subst st. cbn [pulls].
    change (Nat.iter 1 (step acc) ?x) with (step acc x). unfold step.
    cbn [next]. unfold range_next, testIndex.
    cbn [r_nextIndex r_reverse1 r_start r_end r_count r_countMax r_increment
         r_finalCountIncrement].
    specialize (Htest c ltac:(lia)). unfold rangeTest in Htest.
    rewrite Htest.
    destruct (Z.eqb_spec (c + 1) countMax); [|lia]. simpl.
    split; [done|]. do 2 f_equal. lia.
  - destruct (IH (c + 1)) as [Hobs Hiter]; [lia | lia | |].
    { intros d Hd. apply Htest. lia. }
    subst st. rewrite Nat.iter_succ_r.
    change (pulls acc (S (S m)) ?x)
      with (next acc x :: pulls acc (S m) (after (next acc x))).
    unfold step at 2.
    assert (next acc
              (ItRange (RangeState start end_ inc countMax final reverse1
                          (p + c * inc) c)) =
            Pull [p + c * inc] (Yield (acc (p + c * inc)))
              (ItRange (RangeState start end_ inc countMax final reverse1
                          (p + (c + 1) * inc) (c + 1)))) as ->.
    { cbn [next]. unfold range_next, testIndex.
      cbn [r_nextIndex r_reverse1 r_start r_end r_count r_countMax
           r_increment r_finalCountIncrement].
      specialize (Htest c ltac:(lia)). unfold rangeTest in Htest.
      rewrite Htest.
      destruct (Z.eqb_spec (c + 1) countMax); [lia|].
      do 3 f_equal. lia. }
    cbn [after]. split; [|exact Hiter].
    rewrite fmap_cons, Hobs.
    rewrite (seqZ_cons c (Z.of_nat (S (S m)))) by lia.
    rewrite !fmap_cons. f_equal.
    replace (Z.succ c) with (c + 1) by lia.
    by replace (Z.pred (Z.of_nat (S (S m)))) with (Z.of_nat (S m)) by lia.
Qed.

Lemma gridOffsets_succ (first inc countMax rowStep : Z) (rows : Z) :
  0 ≤ rows →
  gridOffsets first inc countMax rowStep (1 + rows) =
  ((λ c, first + c * inc) <$> seqZ 0 countMax) ++
  gridOffsets (first + rowStep) inc countMax rowStep rows.
Proof.
  intros Hrows. unfold gridOffsets.
  rewrite (seqZ_cons 0 (1 + rows)) by lia. rewrite fmap_cons. cbn [mjoin list_join].
  f_equal.
  - apply list_fmap_ext. intros ? c ?. simpl. lia.
  - replace (Z.pred (1 + rows)) with rows by lia.
    rewrite <- (fmap_add_seqZ 1 0), <- list_fmap_compose. f_equal.
    apply list_fmap_ext. intros ? r ?. simpl.
    apply list_fmap_ext. intros ? c ?. simpl. lia.
Qed.

Lemma range_runs (start end_ inc countMax final : Z) (reverse1 : bool)
    (rows : nat) (first : Z) :
  0 < countMax →
  let rowStep := inc * countMax + final in
  (∀ r c, 0 ≤ r < Z.of_nat rows → 0 ≤ c < countMax →
          rangeTest start end_ reverse1 (first + r * rowStep + c * inc) =
          true) →
  let st :=
    ItRange (RangeState start end_ inc countMax final reverse1 first 0) in
  let n := (rows * Z.to_nat countMax)%nat in
  observation <$> pulls acc n st =
  yields acc <$> gridOffsets first inc countMax rowStep (Z.of_nat rows) ∧
  Nat.iter n (step acc) st =
  ItRange (RangeState start end_ inc countMax final reverse1
             (first + Z.of_nat rows * rowStep) 0).
Proof.
  intros Hmax rowStep. revert first.
  induction rows as [|rows IH]; intros first Htest st n.
  { subst st n. simpl. split; [done|]. do 2 f_equal. lia. }
  subst n. cbn [Nat.mul].
  destruct (range_run start end_ inc countMax final reverse1 first 0
              (Z.to_nat (countMax - 1))) as [Hobs Hiter]; [lia|lia| |].
  { intros d Hd. specialize (Htest 0 d ltac:(lia) ltac:(lia)).
    by replace (first + 0 * rowStep + d * inc) with (first + d * inc)
      in Htest by lia. }
  replace (first + 0 * inc) with first in Hobs, Hiter by lia.
  replace (S (Z.to_nat (countMax - 1))) with (Z.to_nat countMax)
    in Hobs, Hiter by lia.
  rewrite Z2Nat.id in Hobs by lia.
  destruct (IH (first + rowStep)) as [Hobs' Hiter'].
  { intros r c Hr Hc. specialize (Htest (1 + r) c ltac:(lia) Hc).
    by replace (first + (1 + r) * rowStep + c * inc)
      with (first + rowStep + r * rowStep + c * inc) in Htest by lia. }
  replace (first + countMax * inc + final) with (first + rowStep)
    in Hiter by (subst rowStep; lia).
  subst st. split.
  - rewrite pulls_app, fmap_app, Hobs, Hiter, Hobs'.
    replace (Z.of_nat (S rows)) with (1 + Z.of_nat rows) by lia.
    rewrite gridOffsets_succ by lia. by rewrite fmap_app.
  - rewrite Nat.add_comm, Nat.iter_add, Hiter, Hiter'. do 2 f_equal. lia.
Qed.

End range_facts.

Lemma range_defaults (start end_ inc countMax countIncrement : Z)
    (reverse1 reverse2 : option bool) :
  range start end_ inc countMax countIncrement reverse1 reverse2 =
  range start end_ inc countMax countIncrement
    (Some (default false reverse1)) (Some (default false reverse2)).
Proof. by destruct reverse1, reverse2. Qed.

Section range_drain.
Context {A : Type} (acc : Z → A).

Lemma range_grid (start end_ inc countMax countIncrement : Z)
    (reverse1 reverse2 : bool) (rows : nat) :
  0 < countMax →
  let first := rangeFirst start end_ inc countMax reverse1 reverse2 in
  let inc' := rangeIncrement inc reverse1 reverse2 in
  let rowStep := rangeRowStep countIncrement reverse1 in
  (∀ r c, 0 ≤ r < Z.of_nat rows → 0 ≤ c < countMax →
          rangeTest start end_ reverse1 (first + r * rowStep + c * inc') =
          true) →
  let it :=
    range start end_ inc countMax countIncrement (Some reverse1)
      (Some reverse2) in
  let n := (rows * Z.to_nat countMax)%nat in
  let offsets := gridOffsets first inc' countMax rowStep (Z.of_nat rows) in
  observation <$> pulls acc n it = yields acc <$> offsets ∧
  (rangeTest start end_ reverse1 (first + Z.of_nat rows * rowStep) = false →
   ∀ fuel, visitedOffsets acc (n + S fuel) it = Some offsets) ∧
  (rangeTest start end_ reverse1 (first + Z.of_nat rows * rowStep) = true →
   ∃ p, pulls acc (S n) it !! n = Some p ∧
        observation p = yields acc (first + Z.of_nat rows * rowStep)).
Proof.
  intros Hmax first inc' rowStep Htest it n offsets. subst it.
  rewrite range_unfold. fold first inc' rowStep.
  set (final := rowStep - countMax * inc').
  assert (inc' * countMax + final = rowStep) as Hstep by (subst final; lia).
  destruct (range_runs acc start end_ inc' countMax final reverse1 rows first
              Hmax) as [Hobs Hiter].
  { rewrite Hstep. exact Htest. }
  rewrite Hstep in Hobs, Hiter. fold n in Hobs, Hiter. fold offsets in Hobs.
  split; [done|]. split.
  - intros Hfalse fuel.
    apply yields_emitted in Hobs as [Hall Hcalls].
    rewrite visitedOffsets_pulls by done. rewrite Hiter, Hcalls.
    cbn [visitedOffsets next]. unfold range_next, testIndex.
    cbn [r_nextIndex r_reverse1 r_start r_end]. unfold rangeTest in Hfalse.
    rewrite Hfalse. simpl. by rewrite app_nil_r.
  - intros Htrue. eexists. split; [apply pulls_last|].
    rewrite Hiter. cbn [next]. unfold range_next, testIndex.
    cbn [r_nextIndex r_reverse1 r_start r_end]. unfold rangeTest in Htrue.
    rewrite Htrue. cbn [r_count r_countMax].
    by destruct (Z.eqb (0 + 1) countMax).
Qed.

End range_drain.

(** X25. [range(accessor, start, end, increment, countMax, countIncrement,
    reverse1, reverse2)] walks runs of [countMax] samples. The first index
    is [start], moved to the end of the first run when [reverse2] is set;
    with [reverse1] it is [end], moved back to the start of the last run
    when [reverse2] is set. Within a run the samples are [increment]
    apart, backwards when exactly one of the flags is set; from one run to
    the next the index moves by [countIncrement], backwards with
    [reverse1]. When every sample of the first [rows] runs passes the loop
    test ([<= end], or [>= start] with [reverse1]) and the first index of
    the next run fails it, draining visits exactly these
    [rows * countMax] offsets, run after run, and emits the accessor's
    value at each. *)
Theorem range_closed_form {A : Type} (acc : Z → A)
    (start end_ inc countMax countIncrement : Z)
    (reverse1 reverse2 : option bool) (rows fuel : nat) :
  let r1 := default false reverse1 in
  let r2 := default false reverse2 in
  let first := rangeFirst start end_ inc countMax r1 r2 in
  let inc' := rangeIncrement inc r1 r2 in
  let rowStep := rangeRowStep countIncrement r1 in
  let offsets := gridOffsets first inc' countMax rowStep (Z.of_nat rows) in
  let it := range start end_ inc countMax countIncrement reverse1 reverse2 in
  0 < countMax →
  (∀ r c, 0 ≤ r < Z.of_nat rows → 0 ≤ c < countMax →
          rangeTest start end_ r1 (first + r * rowStep + c * inc') = true) →
  rangeTest start end_ r1 (first + Z.of_nat rows * rowStep) = false →
  (rows * Z.to_nat countMax < fuel)%nat →
  visitedOffsets acc fuel it = Some offsets ∧
  getIteratorValues acc fuel it = Some ((λ o, Yield (acc o)) <$> offsets).
Proof.
  intros r1 r2 first inc' rowStep offsets it Hmax Htest Hstop Hfuel.
  subst it. rewrite range_defaults. fold r1 r2.
  destruct (range_grid acc start end_ inc countMax countIncrement r1 r2 rows
              Hmax Htest) as (_ & Hdrain & _).
  assert (visitedOffsets acc fuel
            (range start end_ inc countMax countIncrement (Some r1)
               (Some r2)) = Some offsets) as Hv.
  { replace fuel with (rows * Z.to_nat countMax +
                       S (fuel - rows * Z.to_nat countMax - 1))%nat by lia.
    by apply Hdrain. }
  split; [done|].
  rewrite scalar_values_from_offsets by by rewrite range_unfold.
  by rewrite Hv.
Qed.

(** Two runs of three, last run first. *)
Lemma range_closed_form_witness :
  visitedOffsets (λ o : Z, o) 7 (range 0 5 1 3 3 (Some true) (Some true)) =
  Some [3; 4; 5; 0; 1; 2].
Proof.
  destruct (range_closed_form (λ o : Z, o) 0 5 1 3 3 (Some true) (Some true)
              2 7) as (Hv & _).
  - done.
  - intros r c Hr Hc.
    assert (r = 0 ∨ r = 1) as [-> | ->] by lia;
      assert (c = 0 ∨ c = 1 ∨ c = 2) as [-> | [-> | ->]] by lia;
      by vm_compute.
  - by vm_compute.
  - simpl. lia.
  - exact Hv.
Defined.

(** ** Sagittal and coronal slices *)

Section oriented_planner.
Context `{collab : Collaborators}.



End oriented_planner.





(** ** Appending a frame *)

Section frame_facts.
Context `{collab : Collaborators}.
#[local] Arguments lookup_total : simpl never.

Lemma theMeta_run (st : Store) (m : loc) :
  theMeta m st = (Ok (metas st !!! m), st).
Proof. done. Qed.

Lemma theBuffer_run (st : Store) (b : loc) (a : list Qc) :
  buffers st !! b = Some a → theBuffer (Some b) st = (Ok a, st).
Proof.
  intros Ha. unfold theBuffer, gets. by rewrite (lookup_total_correct _ _ _ Ha).
Qed.

Lemma buffer_set_run (st : Store) (this b : loc) (i : ImageData)
    (a source : list Qc) (offset : Qc) :
  images st !! this = Some i → buffer i = Some b → buffers st !! b = Some a →
  buffer_set this source offset st =
  match typedArray_set (kinds st !!! b) a source (Qc_trunc offset) with
  | Some a' =>
      (Ok tt, mkStore (images st) (<[b := a']> (buffers st)) (geometries st)
                (uidArrays st) (metas st) (kinds st))
  | None => (Throw RangeError, st)
  end.
Proof.
  intros Hi Hb Ha. unfold buffer_set.
  rewrite bind_run, (theImage_run st this i Hi), bind_run, Hb.
  rewrite (theBuffer_run st b a Ha), bind_run.
  unfold theKind at 1, gets at 1.
  by destruct (typedArray_set _ _ _ _).
Qed.

Lemma appendFrame_run (st : Store) (this : loc) (i : ImageData) :
  images st !! this = Some i →
  appendFrame this st =
  (Ok tt, mkStore (images st) (buffers st)
            (<[geometry i := Geometry_appendFrame
                               (geometries st !!! geometry i)]>
               (geometries st))
            (uidArrays st) (metas st) (kinds st)).
Proof.
  intros Hi. unfold appendFrame.
  by rewrite bind_run, (theImage_run st this i Hi), bind_run.
Qed.

End frame_facts.

(** X28. [appendFrameBuffer(frameBuffer, frameIndex)] on an image with a
    buffer. Without [meta.numberOfFiles] it throws "Missing number of files
    for frame buffer manipulation." and changes nothing. When the buffer
    already has the full size [frameSize * numberOfFiles] (so that nothing
    is reallocated): for [frameIndex >= numberOfFiles] it throws "Cannot
    append a frame at an index above the number of frames" and changes
    nothing; for a smaller index whose frame lies inside the buffer, the
    samples of the frame, each converted to the element kind of the buffer,
    replace the samples from [frameSize * frameIndex] on, the geometry gets
    [appendFrame()], and nothing else changes. *)
Theorem appendFrameBuffer_outcomes `{collab : Collaborators}
    (st : Store) (this b : loc) (i : ImageData) (a frameBuffer : list Qc)
    (frameIndex : jsval) :
  images st !! this = Some i → buffer i = Some b → buffers st !! b = Some a →
  let g := geometries st !!! geometry i in
  let m := metas st !!! meta i in
  let frameSize :=
    (numberOfComponents i * Qc_of_Z (getDimSize (getSize g) 2))%Qc in
  let result := appendFrameBuffer this frameBuffer frameIndex st in
  (meta_get m "numberOfFiles" = None →
   result = (Throw "Missing number of files for frame buffer manipulation.",
          st)) ∧
  (∀ nf n idx,
     meta_get m "numberOfFiles" = Some nf → metaToNumber nf = JNum n →
     frameIndex = JNum idx →
     Qc_of_Z (Z.of_nat (length a)) = (frameSize * n)%Qc →
     ((n ≤ idx)%Qc →
      result = (Throw
               "Cannot append a frame at an index above the number of frames",
             st)) ∧
     ((idx < n)%Qc →
      let offset := Qc_trunc (frameSize * idx) in
      0 ≤ offset →
      offset + Z.of_nat (length frameBuffer) ≤ Z.of_nat (length a) →
      result =
      (Ok tt,
       mkStore (images st)
         (<[b := take (Z.to_nat offset) a ++
                 ((λ q, toElement (kinds st !!! b) (JNum q)) <$>
                    frameBuffer) ++
                 drop (Z.to_nat offset + length frameBuffer) a]>
            (buffers st))
         (<[geometry i := Geometry_appendFrame g]> (geometries st))
         (uidArrays st) (metas st) (kinds st)))).
Proof.
  intros Hi Hb Ha g m frameSize result.
  split.
  { intros Hnone. subst result. unfold appendFrameBuffer.
    rewrite bind_run, (theImage_run st this i Hi), bind_run.
    unfold theGeometry at 1, gets at 1. rewrite bind_run, theMeta_run.
    fold m. by rewrite Hnone. }
  intros nf n idx Hnf Hn -> Hlen.
  assert (result =
          (if js_ge (JNum idx) (JNum n)
           then
             throw
               "Cannot append a frame at an index above the number of frames"
           else
             buffer_set this frameBuffer (frameSize * idx)%Qc;;
             appendFrame this) st) as ->.
  { subst result. unfold appendFrameBuffer.
    rewrite bind_run, (theImage_run st this i Hi), bind_run.
    unfold theGeometry at 1, gets at 1. rewrite bind_run, theMeta_run.
    fold g m. rewrite Hnf. cbv zeta. fold frameSize. rewrite Hn.
    rewrite bind_run, Hb, (theBuffer_run st b a Ha).
    cbn [js_mul]. rewrite Hlen.
    rewrite bool_decide_eq_true_2 by done. cbn [negb].
    by rewrite bind_run. }
  unfold js_ge, js_le.
  split.
  - intros Hle. by rewrite bool_decide_eq_true_2.
  - intros Hlt Hoff Hfit. set (offset := Qc_trunc (frameSize * idx)) in *.
    rewrite bool_decide_eq_false_2 by by apply Qclt_not_le.
    rewrite bind_run, (buffer_set_run st this b i a) by done.
    fold offset. unfold typedArray_set.
    destruct (Z.ltb_spec offset 0); [lia|].
    destruct (Z.ltb_spec (Z.of_nat (length a))
                (offset + Z.of_nat (length frameBuffer))); [lia|].
    cbn [orb].
    by rewrite (appendFrame_run _ this i).
Qed.

(** The second of two frames of 2 samples, written into an [Int16Array]:
    70000 arrives as 4464. *)
Lemma appendFrameBuffer_outcomes_witness :
  let st :=
    run (collab := Sample.collaborators)
      [CallNew 1%positive 1%positive 1%positive;
       CallSetMeta 1%positive 1%positive] Sample.twoFrames in
  ∃ st',
    appendFrameBuffer (collab := Sample.collaborators) 1%positive
      (Qc_of_Z <$> [-3; 70000]) (JNum (Qc_of_Z 1)) st = (Ok tt, st') ∧
    buffers st' !! 1%positive = Some (Qc_of_Z <$> [7; 8; -3; 4464]).
Proof.
  intros st.
  destruct (appendFrameBuffer_outcomes (collab := Sample.collaborators) st
              1%positive 1%positive (images st !!! 1%positive)
              (Qc_of_Z <$> [7; 8; 0; 0]) (Qc_of_Z <$> [-3; 70000])
              (JNum (Qc_of_Z 1))) as (_ & Hfull); [by vm_compute..|].
  destruct (Hfull (MNum (Qc_of_Z 2)) (Qc_of_Z 2) (Qc_of_Z 1))
    as (_ & Hrun); [by vm_compute|done|done|by_computation|].
  eexists. split.
  - apply Hrun; [by_computation|by vm_compute|by vm_compute].
  - cbn [buffers]. rewrite lookup_insert_eq. by_computation.
Defined.
